(** * rpgmaker-translator: the translation engine and the batch-size auto-tuner

    A shallow embedding of [translator/translation_engine.py] and
    [translator/auto_tuner.py], and the properties of the two control
    algorithms: the chunk partitioner, the per-chunk worker, the engine's
    event aggregation, and the three-round calibration tournament.

    Conventions of the embedding:
    - a Python [int] is a [Z]; a Python [str] is the list of its code points;
      a Python [float] is a binary64 number, with the arithmetic and the
      comparisons of IEEE 754 as the kernel's primitive floats have them;
    - a Qt signal emission appends an event to the trace of the emitting
      object; slots run in the order the signals arrive;
    - the translation client, the clock and the cancellation flag written by
      another thread are an environment the code queries;
    - [log.*] calls have no effect on the modelled state and are left out. *)

From Stdlib Require Import ZArith List String Ascii Lia Uint63 Floats.
From stdpp Require Import base list gmap strings pretty.
Import ListNotations.
Open Scope Z_scope.

(** ** Python primitives used by the two modules *)

Module Py.

(** [str]: a sequence of Unicode code points. *)
Definition str := list N.

Definition lit (s : string) : str :=
  map N_of_ascii (String.list_ascii_of_string s).

(** [str.isspace] on one code point (the table of CPython's
    [_PyUnicode_IsWhitespace]). *)
Definition isspace (c : N) : bool :=
  ((9 <=? c) && (c <=? 13) || (28 <=? c) && (c <=? 32)
   || (c =? 133) || (c =? 160) || (c =? 5760)
   || (8192 <=? c) && (c <=? 8202) || (c =? 8232) || (c =? 8233)
   || (c =? 8239) || (c =? 8287) || (c =? 12288))%N.

Fixpoint lstrip (s : str) : str :=
  match s with
  | c :: s' => if isspace c then lstrip s' else s
  | [] => []
  end.

(** [s.strip()] *)
Definition strip (s : str) : str := rev (lstrip (rev (lstrip s))).

(** Truth value of a string: non-empty. *)
Definition truthy (s : str) : bool :=
  match s with [] => false | _ => true end.

(** [len(l)] *)
Definition len {A} (l : list A) : Z := Z.of_nat (length l).

(** [l[lo:hi]] for integer bounds: a negative bound counts from the end,
    both are clamped to [0, len(l)], and [hi <= lo] gives the empty list. *)
Definition slice {A} (l : list A) (lo hi : Z) : list A :=
  let norm i := if i <? 0 then Z.max 0 (i + len l) else Z.min i (len l) in
  firstn (Z.to_nat (norm hi - norm lo)) (skipn (Z.to_nat (norm lo)) l).

(** [s.replace("\n", " ")] *)
Definition replace_nl (s : str) : str :=
  map (fun c => if (c =? 10)%N then 32%N else c) s.

(** [range(n)] *)
Definition range (n : Z) : list Z := map Z.of_nat (seq 0 (Z.to_nat n)).

(** [min(a, b)] on integers. *)
Definition min (a b : Z) : Z := if b <? a then b else a.

(** [float]: IEEE 754 binary64, rounding to nearest, ties to even. *)
Definition float := PrimFloat.float.

(** [float(n)], the conversion an [int] undergoes when it meets a [float]
    in a division, for [0 <= n < 2**63]; the counts and lengths converted
    here are in that range. *)
Definition float_of_int (n : Z) : float := PrimFloat.of_uint63 (Uint63.of_Z n).

(** [a > b] and [a == b] on floats; both are [False] when [a] or [b] is
    NaN. *)
Definition float_gt (a b : float) : bool := PrimFloat.ltb b a.
Definition float_eq (a b : float) : bool := PrimFloat.eqb a b.

(** [sum(l)] for a list of floats: from the [int] 0, the additions are made
    left to right, each rounded (CPython up to 3.11; later versions
    compensate the rounding errors of the additions). *)
Definition sum (l : list float) : float := fold_left PrimFloat.add l 0%float.

(** A [dict] with [str] keys, as the list of its items in insertion order.
    [d[k] = v] replaces the value in place when [k] is a key, and adds the
    item at the end otherwise. *)
Fixpoint dict_assign {V} (d : list (str * V)) (k : str) (v : V)
    : list (str * V) :=
  match d with
  | (k', v') :: d' =>
      if decide (k' = k) then (k', v) :: d' else (k', v') :: dict_assign d' k v
  | [] => [(k, v)]
  end.

(** The items of the dict that results from assigning the pairs in turn,
    starting from the empty dict. *)
Definition dict_of {V} (pairs : list (str * V)) : list (str * V) :=
  fold_left (fun d kv => dict_assign d kv.1 kv.2) pairs [].

Section Ordering.
Context {A : Type}.
(** [gt x y]: the sort key of [x] is strictly greater than that of [y]. *)
Variable gt : A -> A -> bool.

Fixpoint insert_desc (x : A) (l : list A) : list A :=
  match l with
  | y :: l' => if gt y x then y :: insert_desc x l' else x :: l
  | [] => [x]
  end.

(** [sorted(l, key=..., reverse=True)]: descending and stable, elements
    with equal keys keep their original order. *)
Definition sorted_desc (l : list A) : list A :=
  foldr insert_desc [] l.

(** [max(l, key=...)] on a non-empty iterable: the first element whose
    key is maximal. *)
Definition max_from (x : A) (l : list A) : A :=
  fold_left (fun best y => if gt y best then y else best) l x.

Definition max_by (l : list A) : option A :=
  match l with
  | x :: l' => Some (max_from x l')
  | [] => None
  end.
End Ordering.

End Py.

(** The number of elements of a trace that satisfy a test. *)
Definition count_of {A} (p : A -> bool) (l : list A) : nat :=
  length (List.filter p l).

(** ** The data model: [TranslationEntry] as the two modules use it *)

(** Modelled from the spec: the values of [TranslationEntry.status]
    ([project_model.py] is not among the sources): untranslated, translated,
    reviewed, skipped. *)
Inductive status := untranslated | translated | reviewed | skipped.

#[global] Instance status_eq_dec : EqDecision status.
Proof. solve_decision. Defined.

(** Modelled from the spec: the class [TranslationEntry] of
    [project_model.py], which is not among the sources, with the attributes
    the two modules read and write: identity, source text, translation text
    (empty when there is none), context, field tag, status. *)
Record TranslationEntry := Entry {
  id : Py.str;
  original : Py.str;
  translation : Py.str;
  context : Py.str;
  field : Py.str;
  entry_status : status
}.

(** [e.status = s] *)
Definition set_status (e : TranslationEntry) (s : status) : TranslationEntry :=
  {| id := id e; original := original e; translation := translation e;
     context := context e; field := field e; entry_status := s |}.

(** An instance of [Exception] raised by a collaborator.  The class decides
    which [except] clause takes it; [other_error] stands for every class
    that is none of the four named ones nor a subclass of one ([KeyError],
    [TypeError], [RuntimeError], ...). *)
Inductive exn_class :=
  connection_error | request_exception | value_error | os_error | other_error.

Record exn := Exn { exn_of : exn_class; exn_str : Py.str }.

(** ** translation_engine.py: [TranslationWorker] *)

Module TranslationWorker.

(** [self.mode]: "translate" or "polish". *)
Inductive mode := translate | polish.

Inductive signal :=
| entry_done (entry_id translation : Py.str)
| item_processed (text : Py.str)
| finished
| error (entry_id message : Py.str).

(** What a run does that others can see: signals, and calls to the client. *)
Inductive effect :=
| emit (s : signal)
| call_translate (text context field : Py.str)
| call_polish (text : Py.str).

(** The collaborators of one run.  The index is the position in the chunk
    of the item being processed: [cancelled i] is the value of
    [self._cancelled] read before item [i]; the client answers the call
    made for item [i] with a text or raises. *)
Record env := Env {
  cancelled : nat -> bool;
  client_translate : nat -> Py.str -> Py.str -> Py.str -> exn + Py.str;
  client_polish : nat -> Py.str -> exn + Py.str
}.

(** [except (ConnectionError, requests.RequestException, ValueError,
    OSError)] *)
Definition caught (e : exn) : bool :=
  match exn_of e with
  | connection_error | request_exception | value_error | os_error => true
  | other_error => false
  end.

(** The client keeps to its contract: whatever it raises is one of the
    client-side errors that [run] handles. *)
Definition client_errors_only (w : env) : Prop :=
  (forall i text ctx fld e,
      client_translate w i text ctx fld = inl e -> caught e = true)
  /\ (forall i text e, client_polish w i text = inl e -> caught e = true).

(** The skip tests at the head of the loop body: [Some (entry', text)] when
    the item is skipped ([continue]) with [item_processed(text)] emitted
    and the entry left as [entry']. *)
Definition skip_test (m : mode) (entry : TranslationEntry) : option (TranslationEntry * Py.str) :=
  match m with
  | translate =>
      if bool_decide (entry_status entry = translated)
         || bool_decide (entry_status entry = reviewed)
         || bool_decide (entry_status entry = skipped)
      then Some (entry, Py.lit "(skipped)")
      else if negb (Py.truthy (Py.strip (original entry)))
      then Some (set_status entry skipped, Py.lit "(empty)")
      else None
  | polish =>
      if negb (Py.truthy (translation entry))
         || negb (Py.truthy (Py.strip (translation entry)))
      then Some (entry, Py.lit "(skipped)")
      else None
  end.

Definition preview (m : mode) (entry : TranslationEntry) : Py.str :=
  let text := match m with polish => translation entry | translate => original entry end in
  Py.replace_nl (Py.slice text 0 50).

(** The client call of the [try] block, with the effect it leaves. *)
Definition client_call (w : env) (m : mode) (i : nat) (entry : TranslationEntry)
    : effect * (exn + Py.str) :=
  match m with
  | polish =>
      (call_polish (translation entry), client_polish w i (translation entry))
  | translate =>
      (call_translate (original entry) (context entry) (field entry),
       client_translate w i (original entry) (context entry) (field entry))
  end.

(** The result of the [for] loop: the effects in order, the entries of the
    chunk as the loop leaves them, and the exception that left the loop
    uncaught, if one did. *)
Definition outcome : Type := list effect * list TranslationEntry * option exn.

Fixpoint loop (w : env) (m : mode) (i : nat) (entries : list TranslationEntry) : outcome :=
  match entries with
  | [] => ([], [], None)
  | entry :: rest =>
      if cancelled w i then ([], entries, None)
      else
        match skip_test m entry with
        | Some (entry', text) =>
            let '(effs, es, r) := loop w m (S i) rest in
            (emit (item_processed text) :: effs, entry' :: es, r)
        | None =>
            let shown := emit (item_processed (preview m entry)) in
            let '(made, reply) := client_call w m i entry in
            match reply with
            | inr result =>
                let '(effs, es, r) := loop w m (S i) rest in
                (shown :: made :: emit (entry_done (id entry) result) :: effs,
                 entry :: es, r)
            | inl e =>
                if caught e then
                  let '(effs, es, r) := loop w m (S i) rest in
                  (shown :: made :: emit (error (id entry) (exn_str e)) :: effs,
                   entry :: es, r)
                else ([shown; made], entries, Some e)
            end
        end
  end.

(** [TranslationWorker.run] *)
Definition run (w : env) (m : mode) (entries : list TranslationEntry) : outcome :=
  let '(effs, es, r) := loop w m 0 entries in
  match r with
  | None => (effs ++ [emit finished], es, None)
  | Some e => (effs, es, Some e)
  end.

Definition effects (o : outcome) : list effect := o.1.1.
Definition entries_after (o : outcome) : list TranslationEntry := o.1.2.
Definition raised (o : outcome) : option exn := o.2.

Definition is_finished (f : effect) : bool :=
  match f with emit finished => true | _ => false end.

End TranslationWorker.

(** ** translation_engine.py: [TranslationEngine] *)

Module TranslationEngine.

Inductive signal :=
| progress (current total : Z) (current_text : Py.str)
| entry_done (entry_id translation : Py.str)
| finished
| error (entry_id message : Py.str)
| checkpoint.

Definition CHECKPOINT_INTERVAL : Z := 25.

(** A [QThread] as the engine sees it: [isRunning()]. *)
Record thread := Thread { isRunning : bool }.

(** A [TranslationWorker] object: its chunk, its mode, its flag. *)
Record worker := Worker {
  w_entries : list TranslationEntry;
  w_mode : TranslationWorker.mode;
  w_cancelled : bool
}.

Record engine := Engine {
  num_workers : Z;
  _threads : list thread;
  _workers : list worker;
  _total : Z;
  _progress_count : Z;
  _translate_count : Z;
  _finished_workers : Z;
  emitted : list signal
}.

(** [TranslationEngine.__init__] *)
Definition init : engine :=
  {| num_workers := 2; _threads := []; _workers := []; _total := 0;
     _progress_count := 0; _translate_count := 0; _finished_workers := 0;
     emitted := [] |}.

Definition emit (s : signal) (st : engine) : engine :=
  {| num_workers := num_workers st; _threads := _threads st;
     _workers := _workers st; _total := _total st;
     _progress_count := _progress_count st;
     _translate_count := _translate_count st;
     _finished_workers := _finished_workers st;
     emitted := emitted st ++ [s] |}.

(** [is_running] *)
Definition is_running (st : engine) : bool :=
  existsb isRunning (_threads st).

(** [_split_chunks(items, n)] *)
Definition split_step {A} (items : list A) (k remainder : Z)
    (acc : list (list A) * Z) (i : Z) : list (list A) * Z :=
  let '(chunks, start) := acc in
  let size := k + (if i <? remainder then 1 else 0) in
  (chunks ++ [Py.slice items start (start + size)], start + size).

Definition _split_chunks {A} (items : list A) (n : Z) : list (list A) :=
  if n <=? 1 then [items]
  else
    let k := Py.len items / n in
    let remainder := Py.len items mod n in
    fst (fold_left (split_step items k remainder) (Py.range n) ([], 0)).

(** The body shared by [translate_batch] and [polish_batch] once the
    eligible entries are known: reset the counters, split, create one
    thread and one worker per chunk, start every thread. *)
Definition start_workers (m : TranslationWorker.mode) (eligible : list TranslationEntry)
    (st : engine) : engine :=
  let n := Py.min (num_workers st) (Py.len eligible) in
  let chunks := _split_chunks eligible n in
  {| num_workers := num_workers st;
     _threads := map (fun _ => Thread true) chunks;
     _workers := map (fun chunk => Worker chunk m false) chunks;
     _total := Py.len eligible;
     _progress_count := 0;
     _translate_count := 0;
     _finished_workers := 0;
     emitted := emitted st |}.

(** The filter of [translate_batch]. *)
Definition to_translate_of (entries : list TranslationEntry)
    : list TranslationEntry :=
  filter (fun e => entry_status e = untranslated) entries.

(** The filter of [polish_batch]. *)
Definition to_polish_of (entries : list TranslationEntry)
    : list TranslationEntry :=
  filter (fun e =>
            (entry_status e = translated \/ entry_status e = reviewed)
            /\ Py.truthy (translation e) = true
            /\ Py.truthy (Py.strip (translation e)) = true) entries.

(** [translate_batch(entries)] *)
Definition translate_batch (entries : list TranslationEntry) (st : engine) : engine :=
  if is_running st then st
  else
    let to_translate := to_translate_of entries in
    match to_translate with
    | [] => emit finished st
    | _ => start_workers TranslationWorker.translate to_translate st
    end.

(** [polish_batch(entries)] *)
Definition polish_batch (entries : list TranslationEntry) (st : engine) : engine :=
  if is_running st then st
  else
    let to_polish := to_polish_of entries in
    match to_polish with
    | [] => emit finished st
    | _ => start_workers TranslationWorker.polish to_polish st
    end.

(** [cancel()] *)
Definition cancel (st : engine) : engine :=
  {| num_workers := num_workers st; _threads := _threads st;
     _workers := map (fun w => Worker (w_entries w) (w_mode w) true) (_workers st);
     _total := _total st;
     _progress_count := _progress_count st;
     _translate_count := _translate_count st;
     _finished_workers := _finished_workers st;
     emitted := emitted st |}.

(** [_on_item_processed(text)] *)
Definition _on_item_processed (text : Py.str) (st : engine) : engine :=
  let count := _progress_count st + 1 in
  emit (progress count (_total st) text)
    {| num_workers := num_workers st; _threads := _threads st;
       _workers := _workers st; _total := _total st;
       _progress_count := count;
       _translate_count := _translate_count st;
       _finished_workers := _finished_workers st;
       emitted := emitted st |}.

(** [_on_entry_done(entry_id, translation)] *)
Definition _on_entry_done (entry_id translation : Py.str) (st : engine) : engine :=
  let st1 := emit (entry_done entry_id translation) st in
  let count := _translate_count st1 + 1 in
  let st2 :=
    {| num_workers := num_workers st1; _threads := _threads st1;
       _workers := _workers st1; _total := _total st1;
       _progress_count := _progress_count st1;
       _translate_count := count;
       _finished_workers := _finished_workers st1;
       emitted := emitted st1 |} in
  if count mod CHECKPOINT_INTERVAL =? 0 then emit checkpoint st2 else st2.

(** [_on_worker_finished()] *)
Definition _on_worker_finished (st : engine) : engine :=
  let count := _finished_workers st + 1 in
  if Py.len (_workers st) <=? count then
    emit finished
      {| num_workers := num_workers st; _threads := []; _workers := [];
         _total := _total st;
         _progress_count := _progress_count st;
         _translate_count := _translate_count st;
         _finished_workers := count;
         emitted := emitted st |}
  else
    {| num_workers := num_workers st; _threads := _threads st;
       _workers := _workers st; _total := _total st;
       _progress_count := _progress_count st;
       _translate_count := _translate_count st;
       _finished_workers := count;
       emitted := emitted st |}.

(** The connections made for every worker: the slot that runs when a
    worker's signal arrives. *)
Definition deliver (st : engine) (s : TranslationWorker.signal) : engine :=
  match s with
  | TranslationWorker.item_processed text => _on_item_processed text st
  | TranslationWorker.entry_done i t => _on_entry_done i t st
  | TranslationWorker.error i msg => emit (error i msg) st
  | TranslationWorker.finished => _on_worker_finished st
  end.

(** The signals of all workers, in the order the engine's thread handles
    them. *)
Definition deliver_all (st : engine) (l : list TranslationWorker.signal) : engine :=
  fold_left deliver l st.

Definition is_entry_done (s : TranslationWorker.signal) : bool :=
  match s with TranslationWorker.entry_done _ _ => true | _ => false end.

Definition is_checkpoint (s : signal) : bool :=
  match s with checkpoint => true | _ => false end.

Definition is_finished (s : signal) : bool :=
  match s with finished => true | _ => false end.

End TranslationEngine.

(** ** auto_tuner.py: [AutoTunerWorker] *)

Module AutoTunerWorker.

Definition SURVEY_STEPS : list Z := [5; 10; 15; 20; 25; 30].
Definition REPS : Z := 3.
Definition WARMUP_SIZE : Z := 2.
Definition MIN_ENTRIES : Z := 107.

(** The status texts, each an f-string: its template and the values
    formatted into it. *)
Inductive status_text :=
| warming_up
| r1_survey (step_size nth_step steps consumed : Z)
| r1_done (top3_sizes : list Z) (consumed : Z)
| r2_semis (size rep reps consumed : Z)
| optimal_r1_only (optimal : Z)
| r2_done (top2_sizes : list Z) (consumed : Z)
| r3_finals (size rep reps consumed : Z)
| winner (optimal consumed : Z).

Inductive error_text :=
| str_of (e : exn)
| batch_failed (batch_size : Z) (e : exn).

Inductive signal :=
| entry_done (entry_id translation : Py.str)
| item_processed (text : Py.str)
| progress (message : status_text)
| step_done (batch_size : Z) (entries_per_sec elapsed : Py.float)
| finished (optimal : Z)
| error (message : error_text).

(** One item of the payload of [client.translate_batch]:
    (key, original, context, field). *)
Definition payload_item : Type := Py.str * Py.str * Py.str * Py.str.

(** The collaborators of one calibration run.
    - [is_cloud]: what [getattr(self.client, 'is_cloud', False)] gives, as
      a truth value ([False] when the attribute is missing), or the
      exception the attribute lookup raises;
    - [cancelled k]: the value of [self._cancelled] at its [k]-th read;
    - [translate_batch k payload]: the answer of the client to the [k]-th
      batch call: the pairs of key and translation in the order the client
      assigned them in the dict it returns, or an exception;
    - [elapsed k]: the difference of the two [time.perf_counter()] readings
      around the [k]-th batch call. *)
Record env := Env {
  is_cloud : exn + bool;
  cancelled : nat -> bool;
  translate_batch : nat -> list payload_item -> exn + list (Py.str * Py.str);
  elapsed : nat -> Py.float
}.

(** The worker object and the history of its run: [batches] records every
    call of [_translate_and_emit] with its two arguments. *)
Record state := State {
  _consumed : Z;
  emitted : list signal;
  reads : nat;
  calls : nat;
  batches : list (list TranslationEntry * Z)
}.

(** [AutoTunerWorker.__init__] *)
Definition init : state :=
  {| _consumed := 0; emitted := []; reads := 0; calls := 0; batches := [] |}.

(** [consumed_count] *)
Definition consumed_count (st : state) : Z := _consumed st.

(** *** Computations that change the worker and may raise *)

Definition M (A : Type) : Type := state -> (exn + A) * state.

Definition ret {A} (a : A) : M A := fun st => (inr a, st).
Definition raise {A} (e : exn) : M A := fun st => (inl e, st).
Definition bind {A B} (c : M A) (k : A -> M B) : M B :=
  fun st =>
    match c st with
    | (inr a, st') => k a st'
    | (inl e, st') => (inl e, st')
    end.
(** [try: c  except Exception as e: h(e)] *)
Definition try_except {A} (c : M A) (h : exn -> M A) : M A :=
  fun st =>
    match c st with
    | (inr a, st') => (inr a, st')
    | (inl e, st') => h e st'
    end.

Notation "'let*' x ':=' c 'in' k" := (bind c (fun x => k))
  (at level 10, x name, c at level 100, k at level 200, only parsing).
Notation "'let*' ' pat ':=' c 'in' k" :=
  (bind c (fun x => match x with pat => k end))
  (at level 10, pat pattern, c at level 100, k at level 200, only parsing).
Notation "c ';;' k" := (bind c (fun _ => k))
  (at level 100, k at level 200, right associativity, only parsing).

Definition emit (s : signal) : M unit :=
  fun st =>
    (inr tt,
     {| _consumed := _consumed st; emitted := emitted st ++ [s];
        reads := reads st; calls := calls st; batches := batches st |}).

(** Reading [self._cancelled]. *)
Definition read_cancelled (w : env) : M bool :=
  fun st =>
    (inr (cancelled w (reads st)),
     {| _consumed := _consumed st; emitted := emitted st;
        reads := S (reads st); calls := calls st; batches := batches st |}).

(** [getattr(self.client, 'is_cloud', False)] *)
Definition getattr_is_cloud (w : env) : M bool :=
  fun st => (is_cloud w, st).

(** Reading [self._consumed]. *)
Definition get_consumed : M Z := fun st => (inr (_consumed st), st).

(** [self._consumed += n] *)
Definition add_consumed (n : Z) : M unit :=
  fun st =>
    (inr tt,
     {| _consumed := _consumed st + n; emitted := emitted st;
        reads := reads st; calls := calls st; batches := batches st |}).

(** Entering [_translate_and_emit(entries, batch_size)]. *)
Definition enter_batch (entries : list TranslationEntry) (batch_size : Z) : M unit :=
  fun st =>
    (inr tt,
     {| _consumed := _consumed st; emitted := emitted st;
        reads := reads st; calls := calls st;
        batches := batches st ++ [(entries, batch_size)] |}).

(** [self.client.translate_batch(payload, history=None)]; gives the index
    of the call with the items of the dict it returns, in insertion
    order. *)
Definition call_client (w : env) (payload : list payload_item)
    : M (nat * list (Py.str * Py.str)) :=
  fun st =>
    let st' :=
      {| _consumed := _consumed st; emitted := emitted st;
         reads := reads st; calls := S (calls st); batches := batches st |} in
    match translate_batch w (calls st) payload with
    | inr pairs => (inr (calls st, Py.dict_of pairs), st')
    | inl e => (inl e, st')
    end.

(** [l[0]] *)
Definition item0 (l : list Z) : M Z :=
  match l with
  | x :: _ => ret x
  | [] => raise (Exn other_error (Py.lit "list index out of range"))
  end.

(** *** Insertion-ordered dicts keyed by batch size *)

Definition dict (V : Type) : Type := list (Z * V).

Fixpoint dict_get {V} (d : dict V) (k : Z) : option V :=
  match d with
  | (k', v) :: d' => if k' =? k then Some v else dict_get d' k
  | [] => None
  end.

(** [d[k] = v]: in place when [k] is a key, at the end otherwise. *)
Fixpoint dict_set {V} (d : dict V) (k : Z) (v : V) : dict V :=
  match d with
  | (k', v') :: d' =>
      if k' =? k then (k', v) :: d' else (k', v') :: dict_set d' k v
  | [] => [(k, v)]
  end.

(** [d[k].append(x)] for a key [k] of [d]. *)
Fixpoint dict_append {V} (d : dict (list V)) (k : Z) (x : V) : dict (list V) :=
  match d with
  | (k', l) :: d' =>
      if k' =? k then (k', l ++ [x]) :: d' else (k', l) :: dict_append d' k x
  | [] => []
  end.

(** [d.get(k, [])] *)
Definition dict_get_list {V} (d : dict (list V)) (k : Z) : list V :=
  match dict_get d k with Some l => l | None => [] end.

(** *** Throughput arithmetic *)

(** [sum(l) / len(l)] *)
Definition average (l : list Py.float) : Py.float :=
  PrimFloat.div (Py.sum l) (Py.float_of_int (Py.len l)).

(** The key [(value, size)] of the winner selection, compared as tuples:
    by the values when they differ, by the sizes when they are equal. *)
Definition key_gt (x y : Z * Py.float) : bool :=
  Py.float_gt x.2 y.2 || (Py.float_eq x.2 y.2 && (y.1 <? x.1)).

(** The key [r[1]] of the two rankings. *)
Definition eps_gt (x y : Z * Py.float) : bool := Py.float_gt x.2 y.2.

(** *** The batch calls *)

Definition line_key (j : nat) : Py.str :=
  (Py.lit "Line" ++ Py.lit (pretty (S j)))%list.

Definition payload_of (entries : list TranslationEntry) : list payload_item :=
  imap (fun j e => (line_key j, original e, context e, field e)) entries.

(** The dict comprehension: a later binding of a key replaces an earlier. *)
Definition key_to_entry_of (entries : list TranslationEntry)
    : gmap Py.str TranslationEntry :=
  fold_left (fun m kv => <[kv.1 := kv.2]> m)
            (imap (fun j e => (line_key j, e)) entries) ∅.

(** The loop over [results.items()]: the signals it emits and [success]. *)
Fixpoint emit_results (key_to_entry : gmap Py.str TranslationEntry)
    (items : list (Py.str * Py.str)) : list signal * Z :=
  match items with
  | [] => ([], 0)
  | (key, translation) :: rest =>
      let '(sigs, success) := emit_results key_to_entry rest in
      match key_to_entry !! key with
      | Some entry =>
          if Py.truthy translation then
            (item_processed (Py.replace_nl (Py.slice translation 0 50))
               :: entry_done (id entry) translation :: sigs,
             1 + success)
          else (sigs, success)
      | None => (sigs, success)
      end
  end.

Fixpoint emit_each (sigs : list signal) : M unit :=
  match sigs with
  | [] => ret tt
  | s :: rest => emit s;; emit_each rest
  end.

(** [_translate_and_emit(entries, batch_size)]; gives [success] and the
    index of the client call it made.  The items of the reply are visited
    in the order of the dict. *)
Definition _translate_and_emit (w : env) (entries : list TranslationEntry)
    (batch_size : Z) : M (nat * Z) :=
  enter_batch entries batch_size;;
  let payload := payload_of entries in
  let key_to_entry := key_to_entry_of entries in
  let* '(k, results) := call_client w payload in
  let '(sigs, success) := emit_results key_to_entry results in
  emit_each sigs;;
  add_consumed success;;
  ret (k, success).

(** [_timed_translate(entries, batch_size)]: [(eps, elapsed)]. *)
Definition _timed_translate (w : env) (entries : list TranslationEntry)
    (batch_size : Z) : M (Py.float * Py.float) :=
  try_except
    (let* '(k, success) := _translate_and_emit w entries batch_size in
     let elapsed := elapsed w k in
     let eps :=
       if Py.float_gt elapsed 0%float && (0 <? success)
       then PrimFloat.div (Py.float_of_int success) elapsed else 0%float in
     ret (eps, elapsed))
    (fun e => emit (error (batch_failed batch_size e));;
              ret (0%float, 0%float)).

(** *** The tournament *)

(** The eligible entries: [status == "untranslated" and original and
    original.strip()]. *)
Definition eligible (entries : list TranslationEntry) : list TranslationEntry :=
  filter (fun e => entry_status e = untranslated
                   /\ Py.truthy (original e) = true
                   /\ Py.truthy (Py.strip (original e)) = true) entries.

(** The warmup block: [None] when it made [_run_impl] return (after
    [finished] was emitted), the new offset otherwise. *)
Definition warmup (w : env) (available : list TranslationEntry) (offset : Z)
    : M (option Z) :=
  let* c := read_cancelled w in
  if negb c && (offset + WARMUP_SIZE <=? Py.len available) then
    emit (progress warming_up);;
    let batch := Py.slice available offset (offset + WARMUP_SIZE) in
    let offset := offset + WARMUP_SIZE in
    try_except
      (_translate_and_emit w batch WARMUP_SIZE;; ret (Some offset))
      (fun e => let* s := item0 SURVEY_STEPS in
                emit (finished s);; ret None)
  else ret (Some offset).

(** Round 1, the loop over [SURVEY_STEPS]: the offset and [r1_results]. *)
Fixpoint survey (w : env) (available : list TranslationEntry)
    (steps : list Z) (offset : Z) (r1_results : list (Z * Py.float))
    : M (Z * list (Z * Py.float)) :=
  match steps with
  | [] => ret (offset, r1_results)
  | step_size :: rest =>
      let* c := read_cancelled w in
      if c then ret (offset, r1_results)
      else if Py.len available <? offset + step_size then ret (offset, r1_results)
      else
        let batch := Py.slice available offset (offset + step_size) in
        let offset := offset + step_size in
        let* consumed := get_consumed in
        emit (progress (r1_survey step_size (Py.len r1_results + 1)
                          (Py.len SURVEY_STEPS) consumed));;
        let* '(eps, elapsed) := _timed_translate w batch step_size in
        let r1_results := r1_results ++ [(step_size, eps)] in
        emit (step_done step_size eps elapsed);;
        survey w available rest offset r1_results
  end.

(** Rounds 2 and 3 are the same two nested loops and differ in the status
    text only, which [text] stands for. *)
Section Rounds.
Variable w : env.
Variable available : list TranslationEntry.
Variable text : Z -> Z -> Z -> Z -> status_text.

(** The loop over [range(REPS)] for one size. *)
Fixpoint repetitions (size : Z) (reps : list Z) (offset : Z)
    (raw : dict (list Py.float)) : M (Z * dict (list Py.float)) :=
  match reps with
  | [] => ret (offset, raw)
  | rep :: rest =>
      let* c := read_cancelled w in
      if c then ret (offset, raw)
      else if Py.len available <? offset + size then ret (offset, raw)
      else
        let batch := Py.slice available offset (offset + size) in
        let offset := offset + size in
        let* consumed := get_consumed in
        emit (progress (text size (rep + 1) REPS consumed));;
        let* '(eps, elapsed) := _timed_translate w batch size in
        let raw := dict_append raw size eps in
        emit (step_done size eps elapsed);;
        repetitions size rest offset raw
  end.

(** The loop over the sizes of the round. *)
Fixpoint round (sizes : list Z) (offset : Z) (raw : dict (list Py.float))
    : M (Z * dict (list Py.float)) :=
  match sizes with
  | [] => ret (offset, raw)
  | size :: rest =>
      let* c := read_cancelled w in
      if c then ret (offset, raw)
      else
        let raw := dict_set raw size [] in
        let* '(offset, raw) := repetitions size (Py.range REPS) offset raw in
        round rest offset raw
  end.
End Rounds.

(** [top3_sizes] from [r1_results]. *)
Definition top3_sizes_of (r1_results : list (Z * Py.float)) : list Z :=
  map fst (take 3 (Py.sorted_desc eps_gt r1_results)).

(** [r2_avg] from [r2_raw]. *)
Definition r2_avg_of (r2_raw : dict (list Py.float)) : dict Py.float :=
  fold_left (fun avg '(size, eps_list) =>
               match eps_list with
               | [] => avg
               | _ => dict_set avg size (average eps_list)
               end) r2_raw [].

(** [top2_sizes] from [r2_avg]. *)
Definition top2_sizes_of (r2_avg : dict Py.float) : list Z :=
  map fst (take 2 (Py.sorted_desc eps_gt r2_avg)).

(** [combined] from the finalists and the samples of rounds 2 and 3. *)
Definition combined_of (top2_sizes : list Z) (r2_raw r3_raw : dict (list Py.float))
    : dict Py.float :=
  fold_left (fun combined size =>
               let all_eps := (dict_get_list r2_raw size
                                 ++ dict_get_list r3_raw size)%list in
               match all_eps with
               | [] => combined
               | _ => dict_set combined size (average all_eps)
               end) top2_sizes [].

(** [max(d, key=lambda s: (d[s], s))]: over the keys of [d], each looked
    up in [d], that is over its items. *)
Definition best_of (d : dict Py.float) : option Z :=
  fst <$> Py.max_by key_gt d.

(** The winner selection that ends [_run_impl]. *)
Definition pick_winner (top3_sizes top2_sizes : list Z)
    (r2_raw r3_raw : dict (list Py.float)) (r2_avg : dict Py.float) : M Z :=
  let combined := combined_of top2_sizes r2_raw r3_raw in
  match best_of combined with
  | Some optimal => ret optimal
  | None =>
      match best_of r2_avg with
      | Some optimal => ret optimal
      | None => item0 top3_sizes
      end
  end.

(** [_run_impl()] *)
Definition _run_impl (w : env) (entries : list TranslationEntry) : M unit :=
  let* cloud := getattr_is_cloud w in
  if cloud then emit (finished 30)
  else
    let available := eligible entries in
    if Py.len available <? MIN_ENTRIES then emit (finished 1)
    else
      let* warm := warmup w available 0 in
      match warm with
      | None => ret tt
      | Some offset =>
          let* '(offset, r1_results) :=
            survey w available SURVEY_STEPS offset [] in
          match r1_results with
          | [] => let* s := item0 SURVEY_STEPS in emit (finished s)
          | _ =>
              let top3_sizes := top3_sizes_of r1_results in
              let* consumed := get_consumed in
              emit (progress (r1_done top3_sizes consumed));;
              let* '(offset, r2_raw) :=
                round w available r2_semis top3_sizes offset [] in
              let r2_avg := r2_avg_of r2_raw in
              match r2_avg with
              | [] =>
                  let* optimal := item0 top3_sizes in
                  emit (progress (optimal_r1_only optimal));;
                  emit (finished optimal)
              | _ =>
                  let top2_sizes := top2_sizes_of r2_avg in
                  let* consumed := get_consumed in
                  emit (progress (r2_done top2_sizes consumed));;
                  let* '(offset, r3_raw) :=
                    round w available r3_finals top2_sizes offset [] in
                  let* optimal :=
                    pick_winner top3_sizes top2_sizes r2_raw r3_raw r2_avg in
                  let* consumed := get_consumed in
                  emit (progress (winner optimal consumed));;
                  emit (finished optimal)
              end
          end
      end.

(** [run()] *)
Definition run (w : env) (entries : list TranslationEntry) : M unit :=
  try_except (_run_impl w entries)
    (fun e => emit (error (str_of e));;
              let* s := item0 SURVEY_STEPS in
              emit (finished s)).

Definition is_finished (s : signal) : bool :=
  match s with finished _ => true | _ => false end.

End AutoTunerWorker.

(** ** What is to hold of a calibration run *)

Module Calibration.
Import AutoTunerWorker.

(** From a state where [P] holds, [c] ends in a state where [Q] holds of its
    value, or raises in a state where [E] holds of the exception. *)
Definition triple {A} (P : state -> Prop) (c : M A)
    (Q : A -> state -> Prop) (E : exn -> state -> Prop) : Prop :=
  forall st, P st ->
    match c st with
    | (inr a, st') => Q a st'
    | (inl e, st') => E e st'
    end.

Definition never : exn -> state -> Prop := fun _ _ => False.

(** The entry budget when the next batch would start at [offset]: the
    batches handed to the client so far, each as long as its batch size, are
    the consecutive slices of [available] up to [offset], and no more entries
    were counted as consumed than were handed out. *)
Record budget (available : list TranslationEntry) (offset : Z) (st : state)
    : Prop := Budget {
  offset_range : 0 <= offset <= Py.len available;
  batches_prefix :
    concat (map fst (batches st)) = take (Z.to_nat offset) available;
  batches_full : Forall (fun b => Py.len b.1 = b.2) (batches st);
  consumed_range : 0 <= _consumed st <= offset
}.

(** No [finished] was emitted so far. *)
Definition quiet (st : state) : Prop :=
  Forall (fun s => is_finished s = false) (emitted st).

Definition within (available : list TranslationEntry) (offset : Z)
    (st : state) : Prop :=
  budget available offset st /\ quiet st.

(** [finished] was emitted once, as the last signal. *)
Definition finished_last (st : state) : Prop :=
  exists before optimal,
    emitted st = before ++ [finished optimal]
    /\ Forall (fun s => is_finished s = false) before.

Definition complete (available : list TranslationEntry) (st : state) : Prop :=
  (exists offset, budget available offset st) /\ finished_last st.

(** All samples of a size over rounds 2 and 3, and their average. *)
Definition all_samples (r2_raw r3_raw : dict (list Py.float)) (size : Z) : list Py.float :=
  dict_get_list r2_raw size ++ dict_get_list r3_raw size.

Definition combined_average (r2_raw r3_raw : dict (list Py.float)) (size : Z) : Py.float :=
  average (all_samples r2_raw r3_raw size).

(** The sizes of a list of results or of a dict are batch sizes. *)
Definition sizes_ok {V} (d : list (Z * V)) : Prop :=
  Forall (fun kv => 0 <= kv.1) d.

(** A throughput as [_timed_translate] gives it: a number, not NaN, that
    is not negative. *)
Definition throughput (x : Py.float) : Prop :=
  PrimFloat.leb 0%float x = true.

(** The same in the specification of binary64: a zero, a positive number,
    or the positive infinity. *)
Definition sf_nonneg (x : spec_float) : Prop :=
  match x with
  | S754_zero _ | S754_infinity false | S754_finite false _ _ => True
  | _ => False
  end.

(** The samples of a round as its loops leave them: throughputs, at most
    [REPS] of them for a size. *)
Definition samples_ok (raw : dict (list Py.float)) : Prop :=
  Forall (fun kv => Forall throughput kv.2 /\ Py.len kv.2 <= REPS) raw.

(** The samples while the repetitions of [size] run, [left] of them still
    to come. *)
Definition samples_open (size left : Z) (raw : dict (list Py.float)) : Prop :=
  Forall (fun kv => Forall throughput kv.2
                    /\ Py.len kv.2 + (if kv.1 =? size then left else 0)
                       <= REPS) raw.

End Calibration.

(** ** Sample data *)

Module Sample.

Definition item (name : string) (text translated : string) (s : status)
    : TranslationEntry :=
  {| id := Py.lit name; original := Py.lit text;
     translation := Py.lit translated; context := []; field := [];
     entry_status := s |}.

Definition e1 := item "Map001/1" "konnichiwa" "" untranslated.
Definition e2 := item "Map001/2" "sayounara" "" untranslated.
Definition e3 := item "Map001/3" "arigatou" "thanks" untranslated.
Definition e4 := item "Map001/4" "hai" "yes" translated.

Definition timeout : exn := Exn connection_error (Py.lit "timed out").
Definition key_error : exn := Exn other_error (Py.lit "'message'").

(** A client that fails on the second item of a chunk with a connection
    error and answers the others. *)
Definition flaky : TranslationWorker.env :=
  {| TranslationWorker.cancelled := fun _ => false;
     TranslationWorker.client_translate := fun i text _ _ =>
       match i with 1%nat => inl timeout | _ => inr (Py.lit "ok") end;
     TranslationWorker.client_polish := fun i text =>
       match i with 1%nat => inl timeout | _ => inr (Py.lit "ok") end |}.

(** The same with a flag that is seen set from the third item on. *)
Definition flaky_cancelled : TranslationWorker.env :=
  {| TranslationWorker.cancelled := fun i => (2 <=? i)%nat;
     TranslationWorker.client_translate :=
       TranslationWorker.client_translate flaky;
     TranslationWorker.client_polish :=
       TranslationWorker.client_polish flaky |}.

(** A client object whose [is_cloud] property raises; it is never called. *)
Definition broken_client : AutoTunerWorker.env :=
  {| AutoTunerWorker.is_cloud := inl key_error;
     AutoTunerWorker.cancelled := fun _ => false;
     AutoTunerWorker.translate_batch := fun _ _ => inl key_error;
     AutoTunerWorker.elapsed := fun _ => 1%float |}.


(** Samples of round 2 for two finalists, 5 and 10: the same three
    throughputs, 1/10, 1/5 and 1/20 entries per second, measured in two
    different orders. *)
Definition r2_close : AutoTunerWorker.dict (list Py.float) :=
  [(5, [PrimFloat.div 1 10; PrimFloat.div 1 5; PrimFloat.div 1 20]%float);
   (10, [PrimFloat.div 1 5; PrimFloat.div 1 20; PrimFloat.div 1 10]%float)].

(** A local client that answers every line of a batch, each call taking one
    second more than the one before. *)
Definition steady : AutoTunerWorker.env :=
  {| AutoTunerWorker.is_cloud := inr false;
     AutoTunerWorker.cancelled := fun _ => false;
     AutoTunerWorker.translate_batch := fun _ payload =>
       inr (map (fun p => (p.1.1.1, Py.lit "ok")) payload);
     AutoTunerWorker.elapsed := fun k => Py.float_of_int (Z.of_nat (S k)) |}.

(** [n] entries waiting for a translation. *)
Definition backlog (n : nat) : list TranslationEntry :=
  map (fun i => item "Map002" "hai" "" untranslated) (seq 0 n).

(** An engine whose run is under way. *)
Definition busy : TranslationEngine.engine :=
  TranslationEngine.translate_batch [e1; e2] TranslationEngine.init.

End Sample.

(** ** utils.py *)

Module Utils.

Definition slash : N := 47.
Definition lparen : N := 40.

(** [s.rfind(c)] for a one-character [c]: the highest index where [c] is,
    or -1. *)
Fixpoint rfind_from (c : N) (s : Py.str) (i found : Z) : Z :=
  match s with
  | [] => found
  | d :: s' => rfind_from c s' (i + 1) (if (d =? c)%N then i else found)
  end.

Definition rfind (c : N) (s : Py.str) : Z := rfind_from c s 0 (-1).

(** [s.find(c)] for a one-character [c]: the lowest index where [c] is,
    or -1. *)
Fixpoint find_from (c : N) (s : Py.str) (i : Z) : Z :=
  match s with
  | [] => -1
  | d :: s' => if (d =? c)%N then i else find_from c s' (i + 1)
  end.

Definition find (c : N) (s : Py.str) : Z := find_from c s 0.

(** [s.split(c)] for a one-character [c]: the pieces between the
    occurrences of [c], empty pieces included; one piece at least. *)
Fixpoint split (c : N) (s : Py.str) : list Py.str :=
  match s with
  | [] => [[]]
  | d :: s' =>
      if (d =? c)%N then [] :: split c s'
      else match split c s' with
           | piece :: pieces => (d :: piece) :: pieces
           | [] => [[d]]
           end
  end.

(** [sep.join(parts)] *)
Fixpoint join (sep : Py.str) (parts : list Py.str) : Py.str :=
  match parts with
  | [] => []
  | [part] => part
  | part :: rest => part ++ sep ++ join sep rest
  end.

(** [event_prefix(entry_id)] *)
Definition event_prefix (entry_id : Py.str) : Py.str :=
  let idx := rfind slash entry_id in
  if 0 <? idx then Py.slice entry_id 0 idx else [].

(** The body of the loop of [extract_event_context]: a part without the
    event name in parentheses. *)
Definition strip_name (part : Py.str) : Py.str :=
  let paren := find lparen part in
  if 0 <? paren then Py.slice part 0 paren else part.

(** [extract_event_context(entry_id)] *)
Definition extract_event_context (entry_id : Py.str) : Py.str :=
  let parts := split slash entry_id in
  if Py.len parts <? 3 then []
  else
    let middle := Py.slice parts 1 (-1) in
    let cleaned := map strip_name middle in
    join [slash] cleaned.

End Utils.

(** ** widgets/main_window.py: the callers of the engine *)

Module MainWindow.

Definition done_status (s : status) : bool :=
  bool_decide (s = translated) || bool_decide (s = reviewed).

(** An entry that has a translation to remember: [e.status in
    ("translated", "reviewed") and e.translation]. *)
Definition gives (e : TranslationEntry) : bool :=
  done_status (entry_status e) && Py.truthy (translation e).

(** The body of the first loop of [_batch_translate]. *)
Definition remember (translated_map : gmap Py.str Py.str)
    (e : TranslationEntry) : gmap Py.str Py.str :=
  if gives e then <[original e := translation e]> translated_map
  else translated_map.

(** The first loop of [_batch_translate]: [translated_map], from source text
    to translation; a later entry replaces an earlier one. *)
Definition translated_map_of (entries : list TranslationEntry)
    : gmap Py.str Py.str :=
  fold_left remember entries ∅.

(** [e.translation = t; e.status = "translated"] *)
Definition fill (e : TranslationEntry) (t : Py.str) : TranslationEntry :=
  {| id := id e; original := original e; translation := t;
     context := context e; field := field e; entry_status := translated |}.

(** The second loop of [_batch_translate]: the entries as it leaves them,
    the calls [trans_table.update_entry(e.id, e.translation)] it makes, and
    [tm_count]. *)
Fixpoint fill_duplicates (translated_map : gmap Py.str Py.str)
    (entries : list TranslationEntry)
    : list TranslationEntry * list (Py.str * Py.str) * Z :=
  match entries with
  | [] => ([], [], 0)
  | e :: rest =>
      let '(es, updates, tm_count) := fill_duplicates translated_map rest in
      match translated_map !! original e with
      | Some t =>
          if bool_decide (entry_status e = untranslated)
          then (fill e t :: es, (id e, t) :: updates, 1 + tm_count)
          else (e :: es, updates, tm_count)
      | None => (e :: es, updates, tm_count)
      end
  end.

(** The translation memory of [_batch_translate]: both loops. *)
Definition translation_memory (entries : list TranslationEntry)
    : list TranslationEntry * list (Py.str * Py.str) * Z :=
  fill_duplicates (translated_map_of entries) entries.

(** [_batch_translate()], as far as the entries of the project and the
    engine go: the result of [client.is_available()] is [is_available]; the
    message boxes, the progress bar and the status bar are left out. *)
Definition _batch_translate (is_available : bool)
    (entries : list TranslationEntry) (engine : TranslationEngine.engine)
    : list TranslationEntry * TranslationEngine.engine :=
  if negb is_available then (entries, engine)
  else
    let '(entries, _, _) := translation_memory entries in
    match TranslationEngine.to_translate_of entries with
    | [] => (entries, engine)
    | _ => (entries, TranslationEngine.translate_batch entries engine)
    end.

(** The loop of [_translate_selected] that forces a new translation. *)
Definition mark_untranslated (e : TranslationEntry) : TranslationEntry :=
  if done_status (entry_status e) then set_status e untranslated else e.

(** [_translate_selected(entry_ids)] from the point where the entries of the
    ids are found ([entries], those that exist), with the same omissions. *)
Definition _translate_selected (is_available : bool)
    (entries : list TranslationEntry) (engine : TranslationEngine.engine)
    : list TranslationEntry * TranslationEngine.engine :=
  if negb is_available then (entries, engine)
  else
    match entries with
    | [] => (entries, engine)
    | _ =>
        let entries := map mark_untranslated entries in
        (entries, TranslationEngine.translate_batch entries engine)
    end.

End MainWindow.

(** ** Workers and engine together *)

Module Pool.

(** The signals among the effects of a worker. *)
Definition signals_of (effs : list TranslationWorker.effect)
    : list TranslationWorker.signal :=
  omap (fun f => match f with
                 | TranslationWorker.emit s => Some s
                 | _ => None
                 end) effs.

(** The signals of the run of one worker of the engine in the environment
    [w]. *)
Definition worker_signals (w : TranslationWorker.env)
    (worker : TranslationEngine.worker) : list TranslationWorker.signal :=
  signals_of (TranslationWorker.effects
                (TranslationWorker.run w (TranslationEngine.w_mode worker)
                   (TranslationEngine.w_entries worker))).

Definition is_item_processed (s : TranslationWorker.signal) : bool :=
  match s with TranslationWorker.item_processed _ => true | _ => false end.

Definition is_worker_finished (s : TranslationWorker.signal) : bool :=
  match s with TranslationWorker.finished => true | _ => false end.

(** The [progress] signals of the engine among its signals, as
    (current, total, text). *)
Definition progress_of (sigs : list TranslationEngine.signal)
    : list (Z * Z * Py.str) :=
  omap (fun s => match s with
                 | TranslationEngine.progress c t x => Some (c, t, x)
                 | _ => None
                 end) sigs.

(** The texts of the [item_processed] signals of the workers. *)
Definition texts_of (sigs : list TranslationWorker.signal) : list Py.str :=
  omap (fun s => match s with
                 | TranslationWorker.item_processed x => Some x
                 | _ => None
                 end) sigs.

(** What a worker in mode [m] may do to an entry: nothing, or, in translate
    mode, mark an untranslated entry with a blank source text as skipped. *)
Definition kept_or_skipped (m : TranslationWorker.mode)
    (e e' : TranslationEntry) : Prop :=
  e' = e
  \/ (m = TranslationWorker.translate /\ entry_status e = untranslated
      /\ forallb Py.isspace (original e) = true
      /\ e' = set_status e skipped).

(** Tests on the effects of a worker. *)
Definition eff_item_processed (f : TranslationWorker.effect) : bool :=
  match f with
  | TranslationWorker.emit (TranslationWorker.item_processed _) => true
  | _ => false
  end.

Definition eff_entry_done (f : TranslationWorker.effect) : bool :=
  match f with
  | TranslationWorker.emit (TranslationWorker.entry_done _ _) => true
  | _ => false
  end.

Definition eff_error (f : TranslationWorker.effect) : bool :=
  match f with
  | TranslationWorker.emit (TranslationWorker.error _ _) => true
  | _ => false
  end.

Definition eff_call (f : TranslationWorker.effect) : bool :=
  match f with
  | TranslationWorker.emit _ => false
  | _ => true
  end.

(** A client call that a worker in mode [m] may make for its chunk: in
    translate mode a [translate] call with the source text, context and field
    of an untranslated entry whose source text is not blank; in polish mode a
    [polish] call with the translation of an entry, not blank. *)
Definition call_for (m : TranslationWorker.mode)
    (entries : list TranslationEntry) (f : TranslationWorker.effect) : Prop :=
  match f with
  | TranslationWorker.emit _ => True
  | TranslationWorker.call_translate text ctx fld =>
      m = TranslationWorker.translate
      /\ exists e, e ∈ entries /\ entry_status e = untranslated
                   /\ forallb Py.isspace (original e) = false
                   /\ text = original e /\ ctx = context e /\ fld = field e
  | TranslationWorker.call_polish text =>
      m = TranslationWorker.polish
      /\ exists e, e ∈ entries /\ text = translation e
                   /\ forallb Py.isspace text = false
  end.

(** The ids of the [entry_done] effects of a worker. *)
Definition done_ids (effs : list TranslationWorker.effect) : list Py.str :=
  omap (fun f => match f with
                 | TranslationWorker.emit (TranslationWorker.entry_done i _) =>
                     Some i
                 | _ => None
                 end) effs.

End Pool.

(** ** What a calibration run leaves behind *)

Module Ledger.
Import AutoTunerWorker.

Definition is_entry_done (s : signal) : bool :=
  match s with entry_done _ _ => true | _ => false end.

Definition is_item_processed (s : signal) : bool :=
  match s with item_processed _ => true | _ => false end.

(** The two signals of [_translate_and_emit]. *)
Definition is_result (s : signal) : bool :=
  is_entry_done s || is_item_processed s.

(** The books of the worker balance: [_consumed] is the number of
    [entry_done] signals and the number of [item_processed] signals, and
    every call of [_translate_and_emit] has called the client once. *)
Definition balanced (st : state) : Prop :=
  Z.of_nat (count_of is_entry_done (emitted st)) = _consumed st
  /\ Z.of_nat (count_of is_item_processed (emitted st)) = _consumed st
  /\ calls st = length (batches st).

(** The arguments of the [entry_done] signals, in the order of emission. *)
Definition announced (sigs : list signal) : list (Py.str * Py.str) :=
  omap (fun s => match s with
                 | entry_done entry_id translation =>
                     Some (entry_id, translation)
                 | _ => None
                 end) sigs.

(** Every announced translation is not empty and belongs to an entry of a
    batch that was handed to [_translate_and_emit]. *)
Definition sourced (st : state) : Prop :=
  forall entry_id translation,
    (entry_id, translation) ∈ announced (emitted st) ->
    Py.truthy translation = true
    /\ exists batch e, batch ∈ batches st /\ e ∈ batch.1 /\ id e = entry_id.

(** The sizes a run can report, by the client and the number of eligible
    entries. *)
Definition report_range (w : env) (entries : list TranslationEntry) : list Z :=
  match is_cloud w with
  | inl _ => [5]
  | inr true => [30]
  | inr false =>
      if Py.len (eligible entries) <? MIN_ENTRIES then [1] else SURVEY_STEPS
  end.

(** The run has ended with [finished(n)], for an [n] of [range], in a state
    [st0] before that signal where [I] holds. *)
Definition reports (I : state -> Prop) (range : list Z) (st : state) : Prop :=
  exists st0 n, I st0 /\ n ∈ range /\ st = (emit (finished n) st0).2.

(** The keys of a list of results or of a dict are survey steps. *)
Definition surveyed {V} (d : list (Z * V)) : Prop :=
  Forall (fun kv => kv.1 ∈ SURVEY_STEPS) d.

(** [sum(l)] on integers. *)
Definition sum (l : list Z) : Z := fold_right Z.add 0 l.

End Ledger.

(** * Properties *)

(** ** The chunk partitioner *)

Section Partitioner.
Import TranslationEngine.
Context {A : Type}.
Implicit Types (items : list A) (chunks : list (list A)).

Lemma len_nonneg items : 0 <= Py.len items.
Proof. unfold Py.len. lia. Qed.

Lemma slice_inside items lo hi :
  0 <= lo -> lo <= hi -> hi <= Py.len items ->
  Py.slice items lo hi = take (Z.to_nat (hi - lo)) (drop (Z.to_nat lo) items).
Proof.
  intros Hlo Hle Hhi. unfold Py.slice.
  destruct (Z.ltb_spec hi 0); [lia|].
  destruct (Z.ltb_spec lo 0); [lia|].
  by rewrite !Z.min_l by lia.
Qed.

Lemma range_snoc (m : nat) :
  Py.range (Z.of_nat (S m)) = Py.range (Z.of_nat m) ++ [Z.of_nat m].
Proof.
  unfold Py.range. rewrite !Nat2Z.id, seq_S, map_app. reflexivity.
Qed.

(** The state of the loop of [_split_chunks] after [m] iterations. *)
Lemma split_loop items (k r n : Z) (m : nat) :
  0 <= k -> 0 <= r -> k * n + r = Py.len items -> Z.of_nat m <= n ->
  exists chunks start,
    fold_left (split_step items k r) (Py.range (Z.of_nat m)) ([], 0)
      = (chunks, start)
    /\ start = k * Z.of_nat m + Z.min (Z.of_nat m) r
    /\ length chunks = m
    /\ concat chunks = take (Z.to_nat start) items
    /\ forall (i : nat) c, chunks !! i = Some c ->
         Py.len c = if Z.of_nat i <? r then k + 1 else k.
Proof.
  intros Hk Hr Hlen. induction m as [|m IH]; intros Hm.
  - exists [], 0. repeat split; try done. simpl. lia.
  - destruct IH as (chunks & start & Hfold & Hstart & Hcount & Hcat & Hsizes);
      [lia|].
    rewrite range_snoc, fold_left_app, Hfold. cbn [fold_left split_step].
    set (size := k + (if Z.of_nat m <? r then 1 else 0)).
    assert (Hsize : 0 <= size) by (unfold size; destruct (_ <? _); lia).
    assert (Hnext : start + size = k * Z.of_nat (S m) + Z.min (Z.of_nat (S m)) r).
    { unfold size. destruct (Z.ltb_spec (Z.of_nat m) r); lia. }
    assert (Hfit : start + size <= Py.len items) by nia.
    assert (Hchunk : Py.len (Py.slice items start (start + size)) = size).
    { rewrite slice_inside by lia. unfold Py.len in *.
      rewrite length_take, length_drop. lia. }
    eexists _, _. split; [reflexivity|]. split; [exact Hnext|].
    split; [rewrite length_app; simpl; lia|]. split.
    + rewrite concat_app, Hcat. simpl. rewrite app_nil_r.
      rewrite slice_inside by lia.
      replace (Z.to_nat (start + size))
        with (Z.to_nat start + Z.to_nat (start + size - start))%nat by lia.
      by rewrite take_take_drop.
    + intros i c Hi. apply lookup_app_Some in Hi as [Hi|[Hge Hi]].
      * by apply Hsizes.
      * apply list_lookup_singleton_Some in Hi as [Hi <-].
        rewrite Hchunk. unfold size.
        replace i with m by lia.
        destruct (_ <? _); lia.
Qed.

(** The whole loop, for [1 < n]. *)
Lemma split_many items (n : Z) :
  1 < n ->
  let k := Py.len items / n in
  let r := Py.len items mod n in
  let chunks := _split_chunks items n in
  Py.len chunks = n
  /\ (forall (i : nat) c, chunks !! i = Some c ->
        Py.len c = if Z.of_nat i <? r then k + 1 else k)
  /\ concat chunks = items.
Proof.
  intros Hn k r chunks.
  pose proof (len_nonneg items) as Hlen.
  pose proof (Z.div_mod (Py.len items) n ltac:(lia)) as Hdm.
  pose proof (Z.mod_pos_bound (Py.len items) n ltac:(lia)) as Hmod.
  assert (Hk : 0 <= k) by (apply Z.div_pos; lia).
  destruct (split_loop items k r n (Z.to_nat n))
    as (cs & start & Hfold & Hstart & Hcount & Hcat & Hsizes);
    [lia | unfold r; lia | unfold k, r; lia | lia |].
  rewrite Z2Nat.id in Hfold, Hstart by lia.
  assert (chunks = cs) as ->.
  { unfold chunks, _split_chunks. destruct (Z.leb_spec n 1); [lia|].
    fold k r. by rewrite Hfold. }
  split; [unfold Py.len; lia|]. split; [exact Hsizes|].
  assert (Hall : start = Py.len items).
  { fold k r in Hdm, Hmod. rewrite Hstart, Z.min_r by lia. lia. }
  rewrite Hcat, Hall. apply take_ge. unfold Py.len. lia.
Qed.
End Partitioner.

(** From one chunk on, the chunks are as many as asked for and, taken in
    order, make up the list. *)
Lemma split_chunks_count_concat {A} (items : list A) (n : Z) :
  1 <= n ->
  Py.len (TranslationEngine._split_chunks items n) = n
  /\ concat (TranslationEngine._split_chunks items n) = items.
Proof.
  intros Hn. destruct (Z.eq_dec n 1) as [->|Hne].
  - split; [reflexivity|]. simpl. apply app_nil_r.
  - destruct (split_many items n ltac:(lia)) as (H1 & _ & H2). by split.
Qed.

(** C1. For every list [items] and every [n >= 1]: when [n <= 1],
    [_split_chunks(items, n)] is the single chunk [[items]]; otherwise, with
    [k, r = divmod(len(items), n)], it is [n] chunks in order, the first [r]
    of length [k + 1] and the other [n - r] of length [k]; in both cases the
    chunks concatenated in order are [items], so that their lengths sum to
    [len(items)]. *)
Theorem split_chunks_spec {A} (items : list A) (n : Z) :
  1 <= n ->
  (n <= 1 -> TranslationEngine._split_chunks items n = [items])
  /\ (1 < n ->
      let k := Py.len items / n in
      let r := Py.len items mod n in
      let chunks := TranslationEngine._split_chunks items n in
      Py.len chunks = n
      /\ (forall (i : nat) c, chunks !! i = Some c ->
            Py.len c = if Z.of_nat i <? r then k + 1 else k))
  /\ concat (TranslationEngine._split_chunks items n) = items
  /\ list_sum (map length (TranslationEngine._split_chunks items n))
     = length items.
Proof.
  intros Hn. split; [|split].
  - intros Hle. unfold TranslationEngine._split_chunks.
    by destruct (Z.leb_spec n 1); [|lia].
  - intros Hmany. destruct (split_many items n Hmany) as (Hcount & Hsizes & _).
    by split.
  - destruct (split_chunks_count_concat items n Hn) as [_ Hcat].
    split; [done|]. by rewrite <- length_concat, Hcat.
Qed.

Lemma split_chunks_spec_witness :
  1 <= 2
  /\ TranslationEngine._split_chunks [1; 2; 3; 4; 5; 6; 7] 2
     = [[1; 2; 3; 4]; [5; 6; 7]]
  /\ concat (TranslationEngine._split_chunks [1; 2; 3; 4; 5; 6; 7] 2)
     = [1; 2; 3; 4; 5; 6; 7].
Proof.
  split; [lia|]. split; [reflexivity|].
  exact (proj1 (proj2 (proj2
           (split_chunks_spec [1; 2; 3; 4; 5; 6; 7] 2 ltac:(lia))))).
Defined.

(** C6, the claim as stated fails: two chunks asked for one item are two
    chunks, the second one empty, and not [min(2, 1) = 1] chunk; and for no
    item at all, also when [min(n, 0)] chunks are asked for as the engine
    would, there is one (empty) chunk and not [min(n, 0) = 0]. *)
Lemma chunk_count_not_min :
  TranslationEngine._split_chunks [7] 2 = [[7]; []]
  /\ Py.len (TranslationEngine._split_chunks [7] 2) <> Z.min 2 (Py.len [7])
  /\ Py.len (TranslationEngine._split_chunks (@nil Z) (Py.min 3 (Py.len (@nil Z))))
     <> Z.min 3 (Py.len (@nil Z)).
Proof. split; [reflexivity|]. split; discriminate. Qed.

(** C6, amended. For every list [items] of length [L] and every [n >= 1],
    [_split_chunks(items, n)] is exactly [n] chunks, which is [min(n, L)]
    whenever [n <= L]; the chunk lengths sum to [L] and any two differ by at
    most 1.  Called as the engine calls it, with [min(n, L)] chunks asked
    for a non-empty list, it gives exactly [min(n, L)] chunks. *)
Theorem chunk_count_balanced {A} (items : list A) (n : Z) :
  1 <= n ->
  let chunks := TranslationEngine._split_chunks items n in
  Py.len chunks = n
  /\ (n <= Py.len items -> Py.len chunks = Z.min n (Py.len items))
  /\ list_sum (map length chunks) = length items
  /\ (forall c1 c2, c1 ∈ chunks -> c2 ∈ chunks -> Py.len c1 - Py.len c2 <= 1)
  /\ (1 <= Py.len items ->
      Py.len (TranslationEngine._split_chunks items (Py.min n (Py.len items)))
      = Z.min n (Py.len items)).
Proof.
  intros Hn. cbv zeta.
  assert (Hcount : forall m, 1 <= m ->
            Py.len (TranslationEngine._split_chunks items m) = m).
  { intros m Hm. destruct (Z.eq_dec m 1) as [->|Hne]; [reflexivity|].
    by destruct (split_many items m ltac:(lia)) as (H & _). }
  assert (Hcat : concat (TranslationEngine._split_chunks items n) = items).
  { destruct (Z.eq_dec n 1) as [->|Hne].
    - simpl. apply app_nil_r.
    - by destruct (split_many items n ltac:(lia)) as (_ & _ & H). }
  split; [by apply Hcount|].
  split; [intros; rewrite Hcount; lia|].
  split; [by rewrite <- length_concat, Hcat|]. split.
  - intros c1 c2 H1 H2. destruct (Z.eq_dec n 1) as [->|Hne].
    + simpl in H1, H2.
      apply list_elem_of_singleton in H1, H2. subst. lia.
    + destruct (split_many items n ltac:(lia)) as (_ & Hsizes & _).
      apply list_elem_of_lookup in H1 as [i1 H1], H2 as [i2 H2].
      rewrite (Hsizes _ _ H1), (Hsizes _ _ H2).
      repeat destruct (_ <? _); lia.
  - intros HL. unfold Py.min.
    destruct (Z.ltb_spec (Py.len items) n); rewrite Hcount; lia.
Qed.

Lemma chunk_count_balanced_witness :
  1 <= 3
  /\ Py.len (TranslationEngine._split_chunks [1; 2; 3; 4; 5; 6; 7] 3) = 3.
Proof.
  split; [lia|].
  exact (proj1 (chunk_count_balanced [1; 2; 3; 4; 5; 6; 7] 3 ltac:(lia))).
Defined.

(** ** The worker of one chunk *)

Lemma count_of_app {A} (p : A -> bool) (l1 l2 : list A) :
  count_of p (l1 ++ l2) = (count_of p l1 + count_of p l2)%nat.
Proof. unfold count_of. by rewrite List.filter_app, length_app. Qed.

Lemma count_of_cons {A} (p : A -> bool) (x : A) (l : list A) :
  count_of p (x :: l) = ((if p x then 1 else 0) + count_of p l)%nat.
Proof. unfold count_of. simpl. by destruct (p x). Qed.

Lemma count_of_none {A} (p : A -> bool) (l : list A) :
  Forall (fun x => p x = false) l -> count_of p l = 0%nat.
Proof.
  induction 1 as [|x l Hx _ IH]; [done|]. by rewrite count_of_cons, Hx.
Qed.

Section Worker.
Import TranslationWorker.
Variable w : env.
Variable m : mode.

Lemma client_call_caught i entry e :
  client_errors_only w -> (client_call w m i entry).2 = inl e -> caught e = true.
Proof.
  intros [Ht Hp]. unfold client_call. destruct m; simpl; eauto.
Qed.

(** The loop emits no [finished]. *)
Lemma loop_effects_quiet entries :
  forall i, Forall (fun f => is_finished f = false) (effects (loop w m i entries)).
Proof.
  unfold effects.
  induction entries as [|entry rest IH]; intros i; simpl; [constructor|].
  destruct (cancelled w i); [constructor|].
  destruct (skip_test m entry) as [[entry' text]|] eqn:Hskip.
  - specialize (IH (S i)).
    destruct (loop w m (S i) rest) as [[effs es] r]. simpl in *.
    by constructor.
  - destruct (client_call w m i entry) as [made reply] eqn:Hcall.
    assert (Hmade : is_finished made = false).
    { unfold client_call in Hcall. by destruct m; inversion Hcall. }
    specialize (IH (S i)).
    destruct reply as [e|result]; [destruct (caught e)|];
      destruct (loop w m (S i) rest) as [[effs es] r]; simpl in *;
      by repeat constructor.
Qed.

(** Only an exception that [run] does not handle leaves the loop. *)
Lemma loop_raised_uncaught entries :
  forall i e, raised (loop w m i entries) = Some e -> caught e = false.
Proof.
  unfold raised.
  induction entries as [|entry rest IH]; intros i e; simpl; [done|].
  destruct (cancelled w i); [done|].
  destruct (skip_test m entry) as [[entry' text]|] eqn:Hskip.
  - specialize (IH (S i) e).
    by destruct (loop w m (S i) rest) as [[effs es] r].
  - destruct (client_call w m i entry) as [made reply] eqn:Hcall.
    specialize (IH (S i) e).
    destruct reply as [e'|result]; [destruct (caught e') eqn:He'|];
      try (by destruct (loop w m (S i) rest) as [[effs es] r]).
    simpl. by intros [= <-].
Qed.

(** Under the contract of the client the loop raises nothing. *)
Lemma loop_quiet entries :
  client_errors_only w ->
  forall i,
    raised (loop w m i entries) = None
    /\ Forall (fun f => is_finished f = false) (effects (loop w m i entries)).
Proof.
  intros Hc i. split; [|apply loop_effects_quiet].
  unfold raised.
  revert i. induction entries as [|entry rest IH]; intros i; simpl; [done|].
  destruct (cancelled w i); [done|].
  destruct (skip_test m entry) as [[entry' text]|] eqn:Hskip.
  - specialize (IH (S i)).
    by destruct (loop w m (S i) rest) as [[effs es] r].
  - destruct (client_call w m i entry) as [made reply] eqn:Hcall.
    specialize (IH (S i)).
    destruct reply as [e|result].
    + rewrite (client_call_caught i entry e Hc) by (by rewrite Hcall).
      by destruct (loop w m (S i) rest) as [[effs es] r].
    + by destruct (loop w m (S i) rest) as [[effs es] r].
Qed.
End Worker.

(** C3. When the client raises only errors of the classes the loop catches
    ([ConnectionError], [requests.RequestException], [ValueError],
    [OSError]), then whatever the chunk, the mode, the moments at which the
    cancellation flag is seen set, and the items whose client call fails,
    [TranslationWorker.run] returns normally and emits [finished] exactly
    once, as its last signal. *)
Theorem worker_finished_exactly_once
    (w : TranslationWorker.env) (m : TranslationWorker.mode)
    (entries : list TranslationEntry) :
  TranslationWorker.client_errors_only w ->
  let o := TranslationWorker.run w m entries in
  TranslationWorker.raised o = None
  /\ count_of TranslationWorker.is_finished (TranslationWorker.effects o) = 1%nat
  /\ exists before,
       TranslationWorker.effects o
         = before ++ [TranslationWorker.emit TranslationWorker.finished]
       /\ Forall (fun f => TranslationWorker.is_finished f = false) before.
Proof.
  intros Hc. cbv zeta. unfold TranslationWorker.run.
  destruct (loop_quiet w m entries Hc 0%nat) as [Hr Hf].
  unfold TranslationWorker.raised, TranslationWorker.effects in *.
  destruct (TranslationWorker.loop w m 0 entries) as [[effs es] r].
  simpl in *. subst r. simpl. split; [done|]. split; [|by exists effs].
  unfold count_of. rewrite List.filter_app, length_app. simpl.
  replace (List.filter TranslationWorker.is_finished effs) with (@nil TranslationWorker.effect);
    [done|].
  clear -Hf. induction Hf as [|f l Hfalse _ IH]; [done|].
  simpl. by rewrite Hfalse.
Qed.

Lemma worker_finished_exactly_once_witness :
  TranslationWorker.client_errors_only Sample.flaky_cancelled
  /\ TranslationWorker.raised
       (TranslationWorker.run Sample.flaky_cancelled TranslationWorker.translate
          [Sample.e1; Sample.e2; Sample.e3]) = None.
Proof.
  assert (H : TranslationWorker.client_errors_only Sample.flaky_cancelled).
  { split; simpl.
    - intros [|[|i]] text ctx fld e He; by inversion He.
    - intros [|[|i]] text e He; by inversion He. }
  split; [exact H|].
  exact (proj1 (worker_finished_exactly_once Sample.flaky_cancelled
                  TranslationWorker.translate
                  [Sample.e1; Sample.e2; Sample.e3] H)).
Defined.

(** Without the contract: an exception leaves [run] only if it is of a class
    that [run] does not handle, and then [finished] is not emitted at all. *)
Lemma worker_finished_unless_raised
    (w : TranslationWorker.env) (m : TranslationWorker.mode)
    (entries : list TranslationEntry) :
  let o := TranslationWorker.run w m entries in
  match TranslationWorker.raised o with
  | None =>
      count_of TranslationWorker.is_finished (TranslationWorker.effects o) = 1%nat
  | Some e =>
      TranslationWorker.caught e = false
      /\ count_of TranslationWorker.is_finished (TranslationWorker.effects o)
         = 0%nat
  end.
Proof.
  cbv zeta. unfold TranslationWorker.run.
  pose proof (loop_effects_quiet w m entries 0%nat) as Hq.
  pose proof (loop_raised_uncaught w m entries 0%nat) as Hr.
  unfold TranslationWorker.raised, TranslationWorker.effects in *.
  destruct (TranslationWorker.loop w m 0 entries) as [[effs es] [e|]];
    simpl in *.
  - split; [by apply Hr|]. by apply count_of_none.
  - rewrite count_of_app, count_of_none by done. reflexivity.
Qed.

(** C3, the claim as stated fails: a client that raises [KeyError] on the
    first item ends the run of a chunk of two with that exception, and no
    [finished] is emitted. *)
Example worker_other_exception_escapes :
  let w := {| TranslationWorker.cancelled := fun _ => false;
              TranslationWorker.client_translate :=
                fun _ _ _ _ => inl Sample.key_error;
              TranslationWorker.client_polish :=
                fun _ _ => inl Sample.key_error |} in
  let o := TranslationWorker.run w TranslationWorker.translate
             [Sample.e1; Sample.e2] in
  TranslationWorker.raised o = Some Sample.key_error
  /\ count_of TranslationWorker.is_finished (TranslationWorker.effects o) = 0%nat.
Proof. split; reflexivity. Qed.

(** C7. When the client call made for an item fails with a client-side
    error, the worker emits [error] with the id of that item and the text of
    the exception, and goes on with the next item: the rest of the chunk is
    processed as it would be had the loop reached it in any other way. *)
Theorem worker_item_failure_continues
    (w : TranslationWorker.env) (m : TranslationWorker.mode) (i : nat)
    (entry : TranslationEntry) (rest : list TranslationEntry) (e : exn) :
  TranslationWorker.cancelled w i = false ->
  TranslationWorker.skip_test m entry = None ->
  (TranslationWorker.client_call w m i entry).2 = inl e ->
  TranslationWorker.caught e = true ->
  let after := TranslationWorker.loop w m (S i) rest in
  TranslationWorker.loop w m i (entry :: rest)
  = (TranslationWorker.emit
       (TranslationWorker.item_processed (TranslationWorker.preview m entry))
     :: (TranslationWorker.client_call w m i entry).1
     :: TranslationWorker.emit
          (TranslationWorker.error (id entry) (exn_str e))
     :: TranslationWorker.effects after,
     entry :: TranslationWorker.entries_after after,
     TranslationWorker.raised after).
Proof.
  intros Hrun Hskip Hcall Hcaught. simpl. rewrite Hrun, Hskip.
  destruct (TranslationWorker.client_call w m i entry) as [made reply].
  simpl in Hcall. subst reply. rewrite Hcaught.
  by destruct (TranslationWorker.loop w m (S i) rest) as [[effs es] r].
Qed.

Lemma worker_item_failure_continues_witness :
  TranslationWorker.effects
    (TranslationWorker.loop Sample.flaky TranslationWorker.translate 1
       [Sample.e2; Sample.e3])
  = [TranslationWorker.emit (TranslationWorker.item_processed (Py.lit "sayounara"));
     TranslationWorker.call_translate (Py.lit "sayounara") [] [];
     TranslationWorker.emit
       (TranslationWorker.error (Py.lit "Map001/2") (Py.lit "timed out"));
     TranslationWorker.emit (TranslationWorker.item_processed (Py.lit "arigatou"));
     TranslationWorker.call_translate (Py.lit "arigatou") [] [];
     TranslationWorker.emit
       (TranslationWorker.entry_done (Py.lit "Map001/3") (Py.lit "ok"))].
Proof.
  rewrite (worker_item_failure_continues Sample.flaky
             TranslationWorker.translate 1 Sample.e2 [Sample.e3]
             Sample.timeout eq_refl eq_refl eq_refl eq_refl).
  reflexivity.
Defined.

(** ** Blank texts *)

Lemma lstrip_nil_iff (s : Py.str) :
  Py.lstrip s = [] <-> forallb Py.isspace s = true.
Proof.
  induction s as [|c s IH]; simpl; [done|].
  destruct (Py.isspace c); simpl; [exact IH|]. split; discriminate.
Qed.

Lemma lstrip_head (s : Py.str) c s' :
  Py.lstrip s = c :: s' -> Py.isspace c = false.
Proof.
  induction s as [|d s IH]; simpl; [discriminate|].
  destruct (Py.isspace d) eqn:Hd; [exact IH|]. by intros [= <- _].
Qed.

(** [s.strip()] is empty exactly when [s] is empty or all whitespace. *)
Lemma strip_nil_iff (s : Py.str) :
  Py.strip s = [] <-> forallb Py.isspace s = true.
Proof.
  unfold Py.strip. rewrite <- lstrip_nil_iff. split.
  - intros H. apply (f_equal (@rev N)) in H. rewrite rev_involutive in H.
    simpl in H. apply lstrip_nil_iff in H.
    destruct (Py.lstrip s) as [|c s'] eqn:Hs; [done|].
    apply lstrip_head in Hs.
    rewrite forallb_forall in H. specialize (H c).
    rewrite H in Hs; [discriminate|]. apply in_rev. rewrite rev_involutive.
    by left.
  - by intros ->.
Qed.

Lemma truthy_strip (s : Py.str) :
  Py.truthy (Py.strip s) = negb (forallb Py.isspace s).
Proof.
  destruct (forallb Py.isspace s) eqn:H.
  - apply strip_nil_iff in H. by rewrite H.
  - destruct (Py.strip s) eqn:Hs; [|done].
    apply strip_nil_iff in Hs. congruence.
Qed.

(** C10. In polish mode the worker skips an item exactly when its
    translation is empty or all whitespace, whatever its status: an entry
    with any other translation gets a [polish] call on that translation, also
    with status untranslated or skipped.  The test of the status belongs to
    translate mode, where a translated, reviewed or skipped entry is skipped
    without a call. *)
Theorem polish_skip_depends_on_text_only
    (w : TranslationWorker.env) (i : nat)
    (entry : TranslationEntry) (rest : list TranslationEntry) :
  TranslationWorker.cancelled w i = false ->
  (forall s,
      TranslationWorker.skip_test TranslationWorker.polish (set_status entry s)
      = if forallb Py.isspace (translation entry)
        then Some (set_status entry s, Py.lit "(skipped)") else None)
  /\ (forallb Py.isspace (translation entry) = false ->
      forall s, exists more,
        TranslationWorker.effects
          (TranslationWorker.loop w TranslationWorker.polish i
             (set_status entry s :: rest))
        = TranslationWorker.emit
            (TranslationWorker.item_processed
               (TranslationWorker.preview TranslationWorker.polish entry))
          :: TranslationWorker.call_polish (translation entry) :: more)
  /\ (forall s, s <> untranslated ->
      TranslationWorker.skip_test TranslationWorker.translate (set_status entry s)
      = Some (set_status entry s, Py.lit "(skipped)")).
Proof.
  intros Hrun.
  assert (Hskip : forall s,
      TranslationWorker.skip_test TranslationWorker.polish (set_status entry s)
      = if forallb Py.isspace (translation entry)
        then Some (set_status entry s, Py.lit "(skipped)") else None).
  { intros s. unfold TranslationWorker.skip_test. simpl translation.
    rewrite truthy_strip.
    destruct (translation entry) as [|c t]; [reflexivity|].
    simpl Py.truthy. by destruct (forallb Py.isspace (c :: t)). }
  split; [exact Hskip|]. split.
  - intros Htext s. cbn [TranslationWorker.loop].
    rewrite Hrun, Hskip, Htext.
    unfold TranslationWorker.client_call. simpl translation.
    destruct (TranslationWorker.client_polish w i (translation entry)) as [e|r].
    + destruct (TranslationWorker.caught e).
      * destruct (TranslationWorker.loop w _ (S i) rest) as [[effs es] r'].
        by eexists.
      * by eexists.
    + destruct (TranslationWorker.loop w _ (S i) rest) as [[effs es] r'].
      by eexists.
  - intros s Hs. unfold TranslationWorker.skip_test. by destruct s.
Qed.

Lemma polish_skip_depends_on_text_only_witness :
  TranslationWorker.skip_test TranslationWorker.polish
    (set_status Sample.e3 skipped) = None.
Proof.
  exact (proj1 (polish_skip_depends_on_text_only Sample.flaky 0 Sample.e3 []
                  eq_refl) skipped).
Defined.

(** ** The engine: counters and checkpoints *)

Section Checkpoints.
Import TranslationEngine.

(** One more completion crosses a multiple of the interval exactly when
    the new count is such a multiple. *)
Lemma next_multiple (c : Z) :
  (c + 1) / CHECKPOINT_INTERVAL
  = c / CHECKPOINT_INTERVAL
    + (if (c + 1) mod CHECKPOINT_INTERVAL =? 0 then 1 else 0).
Proof.
  unfold CHECKPOINT_INTERVAL.
  destruct (Z.eqb_spec ((c + 1) mod 25) 0);
    Z.div_mod_to_equations; lia.
Qed.

(** What one delivered signal does to the completion counter and to the
    number of checkpoints emitted. *)
Lemma deliver_step (st : engine) (s : TranslationWorker.signal) :
  _translate_count (deliver st s)
  = _translate_count st + (if is_entry_done s then 1 else 0)
  /\ count_of is_checkpoint (emitted (deliver st s))
     = (count_of is_checkpoint (emitted st)
        + (if is_entry_done s
              && ((_translate_count st + 1) mod CHECKPOINT_INTERVAL =? 0)%Z
           then 1 else 0))%nat.
Proof.
  destruct s as [i t|text| |i msg]; simpl.
  - unfold _on_entry_done. simpl.
    destruct (_ =? 0); simpl; rewrite ?count_of_app; simpl;
      split; try lia; unfold count_of; simpl; lia.
  - rewrite count_of_app. unfold count_of at 2. simpl. lia.
  - unfold _on_worker_finished.
    destruct (_ <=? _); simpl; rewrite ?count_of_app; simpl;
      split; try lia; unfold count_of; simpl; lia.
  - rewrite count_of_app. unfold count_of at 2. simpl. lia.
Qed.

Lemma deliver_all_counts (signals : list TranslationWorker.signal) :
  forall st : engine,
    let done := Z.of_nat (count_of is_entry_done signals) in
    let c := _translate_count st in
    _translate_count (deliver_all st signals) = c + done
    /\ Z.of_nat (count_of is_checkpoint (emitted (deliver_all st signals)))
       = Z.of_nat (count_of is_checkpoint (emitted st))
         + ((c + done) / CHECKPOINT_INTERVAL - c / CHECKPOINT_INTERVAL).
Proof.
  induction signals as [|s signals IH]; intros st; cbv zeta.
  - simpl. split; [unfold count_of; simpl; lia|].
    unfold count_of at 3. simpl. rewrite Z.add_0_r. lia.
  - unfold deliver_all in *. cbn [fold_left].
    destruct (IH (deliver st s)) as [Hc Hk].
    destruct (deliver_step st s) as [Hc1 Hk1].
    rewrite Hc, Hk, Hc1, Hk1, count_of_cons.
    destruct (is_entry_done s); simpl andb.
    + pose proof (next_multiple (_translate_count st)) as Hn.
      replace (_translate_count st + 1
               + Z.of_nat (count_of is_entry_done signals))
        with (_translate_count st
              + Z.of_nat (1 + count_of is_entry_done signals)) by lia.
      split; [lia|].
      destruct (_ =? 0); lia.
    + rewrite !Z.add_0_r, Nat.add_0_r. simpl. split; lia.
Qed.
End Checkpoints.

(** C4. In a run of the engine the completion counter, zero at the start,
    counts the [entry_done] signals of the workers and nothing else; the
    signal that makes it a multiple of 25 gets one [checkpoint] emitted, any
    other signal none, so that after [d] completions [d / 25] checkpoints
    were emitted: 3 of them, after the 25th, 50th and 75th completion, in a
    run with 77 completions. *)
Theorem checkpoint_cadence
    (st : TranslationEngine.engine) (signals : list TranslationWorker.signal) :
  TranslationEngine._translate_count st = 0 ->
  let checkpoints l :=
    count_of TranslationEngine.is_checkpoint
      (TranslationEngine.emitted (TranslationEngine.deliver_all st l)) in
  let completions l := Z.of_nat (count_of TranslationEngine.is_entry_done l) in
  TranslationEngine._translate_count (TranslationEngine.deliver_all st signals)
  = completions signals
  /\ Z.of_nat (checkpoints signals)
     = Z.of_nat (checkpoints [])
       + completions signals / TranslationEngine.CHECKPOINT_INTERVAL
  /\ (forall before s after, signals = before ++ s :: after ->
        checkpoints (before ++ [s])
        = (checkpoints before
           + (if TranslationEngine.is_entry_done s
                 && ((completions before + 1)
                       mod TranslationEngine.CHECKPOINT_INTERVAL =? 0)%Z
              then 1 else 0))%nat)
  /\ (completions signals = 77 ->
        checkpoints signals = (checkpoints [] + 3)%nat).
Proof.
  intros Hzero. cbv zeta.
  destruct (deliver_all_counts signals st) as [Hc Hk].
  rewrite Hzero in Hc, Hk. simpl in Hc, Hk. rewrite Z.sub_0_r in Hk.
  split; [exact Hc|]. split; [exact Hk|]. split.
  - intros before s after _.
    replace (TranslationEngine.deliver_all st (before ++ [s]))
      with (TranslationEngine.deliver (TranslationEngine.deliver_all st before) s)
      by (unfold TranslationEngine.deliver_all; by rewrite fold_left_app).
    destruct (deliver_step (TranslationEngine.deliver_all st before) s)
      as [_ ->].
    destruct (deliver_all_counts before st) as [-> _].
    by rewrite Hzero.
  - intros H77. rewrite H77 in Hk.
    change ((0 + 77) / TranslationEngine.CHECKPOINT_INTERVAL) with 3 in Hk.
    simpl TranslationEngine.deliver_all in *. lia.
Qed.

Lemma checkpoint_cadence_witness :
  count_of TranslationEngine.is_checkpoint
    (TranslationEngine.emitted
       (TranslationEngine.deliver_all Sample.busy
          (repeat (TranslationWorker.entry_done [] []) 77)))
  = 3%nat.
Proof.
  exact (proj2 (proj2 (proj2
           (checkpoint_cadence Sample.busy
              (repeat (TranslationWorker.entry_done [] []) 77) eq_refl)))
           eq_refl).
Defined.

(** ** The engine: starting a run *)

(** C5, the claim as stated fails: a call made while a run is under way
    returns without emitting anything, [finished] included. *)
Lemma call_while_running_emits_nothing :
  TranslationEngine.is_running Sample.busy = true
  /\ TranslationEngine.emitted
       (TranslationEngine.translate_batch [Sample.e1] Sample.busy) = []
  /\ TranslationEngine.emitted
       (TranslationEngine.polish_batch [Sample.e4] Sample.busy) = []
  /\ count_of TranslationEngine.is_finished
       (TranslationEngine.emitted
          (TranslationEngine.translate_batch [Sample.e1] Sample.busy)) = 0%nat.
Proof. repeat split. Qed.

(** C5, amended. A call of [translate_batch] or [polish_batch] made while a
    run is under way returns at once and changes nothing: no signal is
    emitted, [finished] included, and the threads, workers and counters stay
    as they are.  A call made while no run is under way, with no entry left
    by the filter of the mode, emits [finished] and changes nothing else: no
    thread and no worker is created, so that no entry is written. *)
Theorem batch_call_without_work
    (entries : list TranslationEntry) (st : TranslationEngine.engine) :
  (TranslationEngine.is_running st = true ->
     TranslationEngine.translate_batch entries st = st
     /\ TranslationEngine.polish_batch entries st = st)
  /\ (TranslationEngine.is_running st = false ->
      (TranslationEngine.to_translate_of entries = [] ->
         TranslationEngine.translate_batch entries st
         = TranslationEngine.emit TranslationEngine.finished st)
      /\ (TranslationEngine.to_polish_of entries = [] ->
           TranslationEngine.polish_batch entries st
           = TranslationEngine.emit TranslationEngine.finished st))
  /\ TranslationEngine._threads
       (TranslationEngine.emit TranslationEngine.finished st)
     = TranslationEngine._threads st
  /\ TranslationEngine._workers
       (TranslationEngine.emit TranslationEngine.finished st)
     = TranslationEngine._workers st
  /\ TranslationEngine.emitted
       (TranslationEngine.emit TranslationEngine.finished st)
     = TranslationEngine.emitted st ++ [TranslationEngine.finished].
Proof.
  unfold TranslationEngine.translate_batch, TranslationEngine.polish_batch.
  split; [by intros ->|]. split; [|done].
  intros ->. by split; intros ->.
Qed.

Lemma batch_call_without_work_witness :
  TranslationEngine.translate_batch [Sample.e1] Sample.busy = Sample.busy
  /\ TranslationEngine.translate_batch [Sample.e4] TranslationEngine.init
     = TranslationEngine.emit TranslationEngine.finished TranslationEngine.init.
Proof.
  split.
  - exact (proj1 (proj1 (batch_call_without_work [Sample.e1] Sample.busy)
                    eq_refl)).
  - exact (proj1 (proj1 (proj2
             (batch_call_without_work [Sample.e4] TranslationEngine.init))
             eq_refl) eq_refl).
Defined.

(** A call that finds work starts one thread and one worker per chunk, as
    many as [min(num_workers, eligible)], and the chunks of the workers in
    order are the eligible entries. *)
Lemma translate_batch_starts_workers
    (entries : list TranslationEntry) (st : TranslationEngine.engine) :
  TranslationEngine.is_running st = false ->
  1 <= TranslationEngine.num_workers st ->
  TranslationEngine.to_translate_of entries <> [] ->
  let st' := TranslationEngine.translate_batch entries st in
  Py.len (TranslationEngine._workers st')
  = Z.min (TranslationEngine.num_workers st)
          (Py.len (TranslationEngine.to_translate_of entries))
  /\ concat (map TranslationEngine.w_entries (TranslationEngine._workers st'))
     = TranslationEngine.to_translate_of entries
  /\ TranslationEngine.emitted st' = TranslationEngine.emitted st.
Proof.
  intros Hidle Hn Hwork. cbv zeta. unfold TranslationEngine.translate_batch.
  rewrite Hidle.
  destruct (TranslationEngine.to_translate_of entries) as [|e l] eqn:Heq;
    [done|].
  unfold TranslationEngine.start_workers. simpl.
  set (items := e :: l) in *.
  assert (HL : 1 <= Py.len items) by (unfold Py.len; simpl; lia).
  assert (Hmin : 1 <= Py.min (TranslationEngine.num_workers st) (Py.len items))
    by (unfold Py.min; destruct (_ <? _); lia).
  destruct (split_chunks_count_concat items _ Hmin) as [Hcount Hcat].
  split; [|split; [|done]].
  - unfold Py.len in *. rewrite length_map.
    rewrite Hcount. unfold Py.min. destruct (Z.ltb_spec (Z.of_nat (length items))
      (TranslationEngine.num_workers st)); lia.
  - by rewrite map_map, map_id.
Qed.


(** ** The calibration run: rules for the computations *)

Section Rules.
Import AutoTunerWorker Calibration.
Context {A B : Type}.

Lemma triple_ret (a : A) (Q : A -> state -> Prop) E :
  triple (Q a) (ret a) Q E.
Proof. by intros st Hst. Qed.

Lemma triple_ret_same (a : A) (P : state -> Prop) E :
  triple P (ret a) (fun _ => P) E.
Proof. by intros st Hst. Qed.

Lemma triple_bind (P : state -> Prop) (c : M A) (k : A -> M B)
    (Q : A -> state -> Prop) (R : B -> state -> Prop) E :
  triple P c Q E -> (forall a, triple (Q a) (k a) R E) ->
  triple P (bind c k) R E.
Proof.
  intros Hc Hk st HP. unfold bind. specialize (Hc st HP).
  destruct (c st) as [[e|a] st']; [done|]. by apply Hk.
Qed.

Lemma triple_try (P : state -> Prop) (c : M A) (h : exn -> M A)
    (Q : A -> state -> Prop) (E E' : exn -> state -> Prop) :
  triple P c Q E -> (forall e, triple (E e) (h e) Q E') ->
  triple P (try_except c h) Q E'.
Proof.
  intros Hc Hh st HP. unfold try_except. specialize (Hc st HP).
  destruct (c st) as [[e|a] st']; [by apply Hh | done].
Qed.

Lemma triple_weaken (P P' : state -> Prop) (c : M A)
    (Q Q' : A -> state -> Prop) (E E' : exn -> state -> Prop) :
  triple P c Q E ->
  (forall st, P' st -> P st) ->
  (forall a st, Q a st -> Q' a st) ->
  (forall e st, E e st -> E' e st) ->
  triple P' c Q' E'.
Proof.
  intros Hc HP HQ HE st HP'. specialize (Hc st (HP st HP')).
  destruct (c st) as [[e|a] st']; auto.
Qed.
End Rules.

Section Primitives.
Import AutoTunerWorker Calibration.
Variable w : env.
Variable available : list TranslationEntry.

Lemma quiet_emit (s : signal) (st : state) :
  is_finished s = false -> quiet st -> quiet (emit s st).2.
Proof.
  intros Hs Hq. unfold quiet in *. simpl. apply Forall_app. split; [done|].
  by constructor.
Qed.

Lemma within_emit (s : signal) offset E :
  is_finished s = false ->
  triple (within available offset) (emit s)
         (fun _ => within available offset) E.
Proof.
  intros Hs st [Hb Hq]. simpl. split; [by destruct Hb | by apply (quiet_emit s st)].
Qed.

Lemma within_read offset E :
  triple (within available offset) (read_cancelled w)
         (fun _ => within available offset) E.
Proof. intros st [Hb Hq]. simpl. split; [by destruct Hb | done]. Qed.

Lemma within_get offset E :
  triple (within available offset) get_consumed
         (fun _ => within available offset) E.
Proof. by intros st Hst. Qed.

Lemma complete_emit_finished offset (n : Z) E :
  triple (within available offset) (emit (finished n))
         (fun _ => complete available) E.
Proof.
  intros st [Hb Hq]. simpl. split.
  - exists offset. by destruct Hb.
  - by exists (emitted st), n.
Qed.

(** [SURVEY_STEPS[0]] is 5 and raises nothing. *)
Lemma item0_survey_steps (st : state) :
  item0 SURVEY_STEPS st = (inr 5, st).
Proof. reflexivity. Qed.
End Primitives.

(** ** The calibration run: one batch *)

(** A dict has each key once. *)
Lemma dict_assign_keys {V} (d : list (Py.str * V)) (k : Py.str) (v : V) :
  (Py.dict_assign d k v).*1 = if decide (k ∈ d.*1) then d.*1 else d.*1 ++ [k].
Proof.
  induction d as [|[k' v'] d IH]; [done|].
  cbn [Py.dict_assign]. rewrite fmap_cons. cbn [fst].
  destruct (decide (k' = k)) as [->|Hne].
  - rewrite decide_True by left. done.
  - rewrite fmap_cons, IH. cbn [fst].
    destruct (decide (k ∈ d.*1)) as [Hin|Hout].
    + rewrite decide_True by (by right). done.
    + rewrite decide_False; [done|].
      intros Hin. apply elem_of_cons in Hin as [->|Hin]; done.
Qed.

Lemma dict_of_keys {V} (pairs : list (Py.str * V)) :
  NoDup (Py.dict_of pairs).*1.
Proof.
  unfold Py.dict_of.
  assert (H : forall d : list (Py.str * V),
            NoDup d.*1 ->
            NoDup (fold_left (fun d kv => Py.dict_assign d kv.1 kv.2)
                     pairs d).*1).
  { induction pairs as [|[k v] pairs IH]; intros d Hd; simpl; [done|].
    apply IH. rewrite dict_assign_keys.
    destruct (decide (k ∈ d.*1)); [done|].
    apply NoDup_app. split; [done|]. split; [|apply NoDup_singleton].
    intros x Hx ->%list_elem_of_singleton. done. }
  apply H. constructor.
Qed.

Section Batch.
Import AutoTunerWorker Calibration.
Variable w : env.
Variable available : list TranslationEntry.

Lemma emit_each_run (sigs : list signal) (st : state) :
  emit_each sigs st
  = (inr tt,
     {| _consumed := _consumed st; emitted := emitted st ++ sigs;
        reads := reads st; calls := calls st; batches := batches st |}).
Proof.
  revert st. induction sigs as [|s sigs IH]; intros st; simpl.
  - unfold ret. rewrite app_nil_r. by destruct st.
  - unfold bind. simpl. rewrite IH. simpl. by rewrite <- app_assoc.
Qed.

(** A key that is not among the items does not matter to the loop over them. *)
Lemma emit_results_delete (key_to_entry : gmap Py.str TranslationEntry)
    (items : list (Py.str * Py.str)) (key : Py.str) :
  key ∉ items.*1 ->
  emit_results (delete key key_to_entry) items = emit_results key_to_entry items.
Proof.
  induction items as [|[k t] items IH]; intros Hk; simpl; [done|].
  rewrite fmap_cons, not_elem_of_cons in Hk. destruct Hk as [Hne Hk].
  rewrite (IH Hk), lookup_delete_ne by done. reflexivity.
Qed.

(** The loop over the items of a dict counts at most one success per key of
    [key_to_entry], and emits no [finished]. *)
Lemma emit_results_bound (items : list (Py.str * Py.str)) :
  forall key_to_entry : gmap Py.str TranslationEntry,
    NoDup items.*1 ->
    0 <= (emit_results key_to_entry items).2 <= Z.of_nat (size key_to_entry)
    /\ Forall (fun s => is_finished s = false)
              (emit_results key_to_entry items).1.
Proof.
  induction items as [|[k t] items IH]; intros key_to_entry Hnd; simpl.
  - split; [lia | constructor].
  - rewrite fmap_cons in Hnd. apply NoDup_cons in Hnd as [Hk Hnd].
    destruct (key_to_entry !! k) as [entry|] eqn:Hlook.
    + pose proof (IH (delete k key_to_entry) Hnd) as [Hs Hf].
      rewrite emit_results_delete in Hs, Hf by done.
      assert (Hsize : size key_to_entry = S (size (delete k key_to_entry))).
      { rewrite <- (insert_delete_id key_to_entry k entry) at 1 by done.
        rewrite map_size_insert_None; [done|]. apply lookup_delete_eq. }
      destruct (emit_results key_to_entry items) as [sigs success].
      simpl in *. destruct (Py.truthy t); simpl.
      * split; [lia|]. by repeat constructor.
      * split; [lia|done].
    + pose proof (IH key_to_entry Hnd) as [Hs Hf].
      by destruct (emit_results key_to_entry items) as [sigs success].
Qed.

Lemma key_to_entry_size (entries : list TranslationEntry) :
  (size (key_to_entry_of entries) <= length entries)%nat.
Proof.
  unfold key_to_entry_of.
  assert (H : forall (l : list (Py.str * TranslationEntry))
                     (m : gmap Py.str TranslationEntry),
            (size (fold_left (fun m kv => <[kv.1 := kv.2]> m) l m)
             <= size m + length l)%nat).
  { induction l as [|kv l IH]; intros m; simpl; [lia|].
    etrans; [apply IH|]. rewrite map_size_insert.
    destruct (m !! kv.1); simpl; lia. }
  etrans; [apply H|]. rewrite map_size_empty, length_imap. lia.
Qed.

(** Handing the next slice of the eligible entries to the client keeps the
    budget, whether the client answers or raises. *)
Lemma translate_and_emit_within (offset n : Z) :
  0 <= n -> offset + n <= Py.len available ->
  let keeps := fun (_ : exn) st => within available (offset + n) st in
  triple (within available offset)
         (_translate_and_emit w (Py.slice available offset (offset + n)) n)
         (fun _ st => within available (offset + n) st)
         keeps.
Proof.
  intros Hsize Hfit keeps st [[Hrange Hprefix Hfull Hcons] Hq].
  assert (Hslice : Py.slice available offset (offset + n)
                   = take (Z.to_nat n) (drop (Z.to_nat offset) available)).
  { rewrite slice_inside by lia. f_equal. lia. }
  assert (Hlen : Py.len (Py.slice available offset (offset + n)) = n).
  { rewrite Hslice. unfold Py.len in *. rewrite length_take, length_drop. lia. }
  assert (Hnew : concat (map fst (batches st
                   ++ [(Py.slice available offset (offset + n), n)]))
                 = take (Z.to_nat (offset + n)) available).
  { rewrite map_app, concat_app, Hprefix. simpl. rewrite app_nil_r, Hslice.
    replace (Z.to_nat (offset + n))
      with (Z.to_nat offset + Z.to_nat n)%nat by lia.
    by rewrite take_take_drop. }
  assert (Hfull' : Forall (fun b => Py.len b.1 = b.2)
                     (batches st
                      ++ [(Py.slice available offset (offset + n), n)])).
  { apply Forall_app. split; [done|]. by constructor. }
  unfold _translate_and_emit, bind, enter_batch, call_client. simpl.
  destruct (translate_batch w (calls st) _) as [e|results].
  - split; [|done]. by split; simpl; try lia.
  - pose proof (emit_results_bound (Py.dict_of results)
                  (key_to_entry_of (Py.slice available offset (offset + n)))
                  (dict_of_keys results)) as [Hs Hf].
    pose proof (key_to_entry_size (Py.slice available offset (offset + n)))
      as Hk.
    destruct (emit_results _ (Py.dict_of results)) as [sigs success].
    rewrite emit_each_run. simpl in *. unfold Py.len in Hlen.
    split; [split; simpl; try done; lia|].
    unfold quiet. simpl. apply Forall_app. by split.
Qed.

(** [_timed_translate] on the next slice keeps the budget and never raises. *)
Lemma timed_translate_within (offset n : Z) :
  0 <= n -> offset + n <= Py.len available ->
  triple (within available offset)
         (_timed_translate w (Py.slice available offset (offset + n)) n)
         (fun _ st => within available (offset + n) st)
         never.
Proof.
  intros Hsize Hfit. unfold _timed_translate.
  eapply triple_try.
  - eapply triple_bind; [by apply translate_and_emit_within|].
    intros [k success]. simpl. apply triple_ret_same.
  - intros e. simpl. eapply triple_bind; [by apply within_emit|].
    intros ?. apply triple_ret_same.
Qed.
End Batch.

(** ** The calibration run: rankings and dicts keep to the surveyed sizes *)

Lemma insert_desc_Forall {T} (P : T -> Prop) gt (x : T) (l : list T) :
  P x -> Forall P l -> Forall P (Py.insert_desc gt x l).
Proof.
  intros Hx Hl. induction Hl as [|y l Hy Hl IH]; simpl.
  - by constructor.
  - destruct (gt y x); by repeat constructor.
Qed.

Lemma sorted_desc_Forall {T} (P : T -> Prop) gt (l : list T) :
  Forall P l -> Forall P (Py.sorted_desc gt l).
Proof.
  induction 1 as [|x l Hx Hl IH]; simpl; [constructor|].
  by apply insert_desc_Forall.
Qed.

Section Sizes.
Import AutoTunerWorker Calibration.
Context {V : Type}.

Lemma dict_set_sizes (d : dict V) (k : Z) (v : V) :
  sizes_ok d -> 0 <= k -> sizes_ok (dict_set d k v).
Proof.
  intros Hd Hk. induction Hd as [|[k' v'] d Hk' Hd IH]; simpl.
  - by repeat constructor.
  - destruct (k' =? k); by constructor.
Qed.

Lemma dict_append_sizes (d : dict (list V)) (k : Z) (x : V) :
  sizes_ok d -> sizes_ok (dict_append d k x).
Proof.
  intros Hd. induction Hd as [|[k' l] d Hk' Hd IH]; simpl; [constructor|].
  destruct (k' =? k); by constructor.
Qed.

Lemma ranked_sizes gt (n : nat) (d : list (Z * V)) :
  sizes_ok d -> Forall (fun s => 0 <= s) (map fst (take n (Py.sorted_desc gt d))).
Proof.
  intros Hd. apply Forall_map, Forall_take. by apply sorted_desc_Forall.
Qed.
End Sizes.

Lemma r2_avg_sizes (r2_raw : AutoTunerWorker.dict (list Py.float)) :
  Calibration.sizes_ok r2_raw ->
  Calibration.sizes_ok (AutoTunerWorker.r2_avg_of r2_raw).
Proof.
  unfold AutoTunerWorker.r2_avg_of. intros Hraw.
  assert (H : forall avg : AutoTunerWorker.dict Py.float,
            Calibration.sizes_ok avg ->
            Calibration.sizes_ok
              (fold_left (fun avg '(size, eps_list) =>
                            match eps_list with
                            | [] => avg
                            | _ => AutoTunerWorker.dict_set avg size
                                     (AutoTunerWorker.average eps_list)
                            end) r2_raw avg)).
  { induction Hraw as [|[k l] d Hk Hd IH]; intros avg Havg; simpl; [done|].
    apply IH. destruct l; [done|]. by apply dict_set_sizes. }
  apply H. constructor.
Qed.

(** ** The calibration run: the loops *)

Section Loops.
Import AutoTunerWorker Calibration.
Variable w : env.
Variable available : list TranslationEntry.

Ltac step :=
  eapply triple_bind;
  [ first [ apply within_read | apply within_get
          | apply within_emit; reflexivity ]
  | intros ? ].

(** Round 1 keeps the budget, records surveyed sizes only, never raises. *)
Lemma survey_within (steps : list Z) :
  Forall (fun s => 0 <= s) steps ->
  forall offset r1_results,
    sizes_ok r1_results ->
    triple (within available offset)
           (survey w available steps offset r1_results)
           (fun res st => within available res.1 st /\ sizes_ok res.2)
           never.
Proof.
  induction 1 as [|step_size steps Hpos Hsteps IH];
    intros offset r1_results Hr1; simpl.
  - by intros st Hst.
  - step. destruct a; [by intros st Hst|].
    destruct (Z.ltb_spec (Py.len available) (offset + step_size));
      [by intros st Hst|].
    step. step.
    eapply triple_bind; [by apply timed_translate_within|].
    intros [eps elapsed]. step.
    apply IH. apply Forall_app. split; [done|]. by repeat constructor.
Qed.

(** The repetitions of one size in rounds 2 and 3. *)
Lemma repetitions_within text (size : Z) (reps : list Z) :
  0 <= size ->
  forall offset raw,
    sizes_ok raw ->
    triple (within available offset)
           (repetitions w available text size reps offset raw)
           (fun res st => within available res.1 st /\ sizes_ok res.2)
           never.
Proof.
  intros Hsize. induction reps as [|rep reps IH]; intros offset raw Hraw; simpl.
  - by intros st Hst.
  - step. destruct a; [by intros st Hst|].
    destruct (Z.ltb_spec (Py.len available) (offset + size));
      [by intros st Hst|].
    step. step.
    eapply triple_bind; [by apply timed_translate_within|].
    intros [eps elapsed]. step.
    apply IH. by apply dict_append_sizes.
Qed.

(** Rounds 2 and 3. *)
Lemma round_within text (sizes : list Z) :
  Forall (fun s => 0 <= s) sizes ->
  forall offset raw,
    sizes_ok raw ->
    triple (within available offset)
           (round w available text sizes offset raw)
           (fun res st => within available res.1 st /\ sizes_ok res.2)
           never.
Proof.
  induction 1 as [|size sizes Hpos Hsizes IH]; intros offset raw Hraw;
    cbn [round].
  - by intros st Hst.
  - step. destruct a; [by intros st Hst|].
    eapply triple_bind.
    + apply repetitions_within; [done|]. by apply dict_set_sizes.
    + intros [offset' raw'] st [Hin Hok]. by apply IH.
Qed.
End Loops.

(** ** The calibration run: the whole procedure *)

Section Procedure.
Import AutoTunerWorker Calibration.
Variable w : env.
Variable entries : list TranslationEntry.
Let available := eligible entries.

Ltac step :=
  eapply triple_bind;
  [ first [ apply within_read | apply within_get
          | apply within_emit; reflexivity ]
  | intros ? ].

Lemma survey_steps_sizes : Forall (fun s => 0 <= s) SURVEY_STEPS.
Proof. repeat constructor; done. Qed.

(** Indexing a list changes nothing, whether it raises or not. *)
Lemma item0_keeps (l : list Z) (P : state -> Prop) :
  triple P (item0 l) (fun _ => P) (fun _ => P).
Proof. intros st HP. by destruct l. Qed.

(** [SURVEY_STEPS[0]] raises nothing. *)
Lemma survey_first_keeps (P : state -> Prop) E :
  triple P (item0 SURVEY_STEPS) (fun _ => P) E.
Proof. by intros st HP. Qed.

Lemma pick_winner_keeps top3_sizes top2_sizes r2_raw r3_raw r2_avg
    (P : state -> Prop) :
  triple P (pick_winner top3_sizes top2_sizes r2_raw r3_raw r2_avg)
         (fun _ => P) (fun _ => P).
Proof.
  unfold pick_winner.
  destruct (best_of (combined_of _ _ _)); [by intros st HP|].
  destruct (best_of r2_avg); [by intros st HP|]. apply item0_keeps.
Qed.

(** The warmup keeps the budget; when its batch call raises, [finished] is
    emitted and the procedure is over. *)
Lemma warmup_within :
  triple (within available 0) (warmup w available 0)
         (fun warm st =>
            match warm with
            | Some offset => within available offset st
            | None => complete available st
            end)
         never.
Proof.
  unfold warmup. step.
  destruct (negb a && (0 + WARMUP_SIZE <=? Py.len available)) eqn:Hgo;
    [|by intros st Hst].
  apply andb_prop in Hgo as [_ Hfit]. apply Z.leb_le in Hfit.
  step. eapply triple_try.
  - eapply triple_bind; [by apply translate_and_emit_within|].
    intros ?. by intros st Hst.
  - intros e. cbv beta. eapply triple_bind; [apply survey_first_keeps|].
    intros s. eapply triple_bind; [apply complete_emit_finished|].
    intros ?. by intros st Hst.
Qed.

(** [_run_impl] ends with the budget kept and [finished] emitted once, as
    the last signal; if it raises, the budget is kept and no [finished] was
    emitted. *)
Lemma run_impl_complete :
  triple (fun st => st = init) (_run_impl w entries)
         (fun _ => complete available)
         (fun _ st => exists offset, within available offset st).
Proof.
  set (E := fun (_ : exn) st => exists offset, within available offset st).
  assert (Hinit : within available 0 init).
  { split; [|constructor]. pose proof (len_nonneg available).
    split; simpl; try done; try lia; constructor. }
  assert (Hraise : forall offset (e : exn) st,
            within available offset st -> E e st) by (intros; by eexists).
  unfold _run_impl. fold available.
  eapply triple_bind with (Q := fun _ st => st = init).
  { intros st ->. unfold getattr_is_cloud. destruct (is_cloud w); [|done].
    by exists 0. }
  intros cloud. destruct cloud.
  { intros st ->. by apply (complete_emit_finished available 0 30 E). }
  destruct (Py.len available <? MIN_ENTRIES).
  { intros st ->. by apply (complete_emit_finished available 0 1 E). }
  eapply triple_bind.
  { eapply triple_weaken; [apply warmup_within| | |]; [by intros st ->|done|done]. }
  intros [offset|]; [|by intros st Hst].
  eapply triple_bind.
  { eapply triple_weaken;
      [apply (survey_within w available SURVEY_STEPS survey_steps_sizes
                offset []); constructor
      | done | done | done]. }
  intros [offset1 r1_results]. cbv beta iota.
  destruct r1_results as [|r1 r1_rest].
  { intros st [Hst _]. simpl in Hst. revert st Hst.
    eapply triple_bind; [apply survey_first_keeps|].
    intros s. apply complete_emit_finished. }
  set (r1_results := r1 :: r1_rest).
  intros st [Hst Hr1]. simpl in Hst, Hr1.
  assert (Htop3 : Forall (fun s => 0 <= s) (top3_sizes_of r1_results))
    by (by apply ranked_sizes).
  revert st Hst. step. step.
  eapply triple_bind.
  { eapply triple_weaken;
      [apply (round_within w available r2_semis _ Htop3 offset1 []); constructor
      | done | done | done]. }
  intros [offset2 r2_raw]. cbv beta iota.
  intros st [Hst Hr2]. simpl in Hst, Hr2.
  assert (Havg : sizes_ok (r2_avg_of r2_raw)) by (by apply r2_avg_sizes).
  destruct (r2_avg_of r2_raw) as [|avg avg_rest] eqn:Hr2_avg.
  { revert st Hst. eapply triple_bind.
    - eapply triple_weaken; [apply (item0_keeps (top3_sizes_of r1_results))
                            |done|done|].
      intros e st Hst. by apply (Hraise offset2).
    - intros optimal. step. apply complete_emit_finished. }
  rewrite <- Hr2_avg in *.
  assert (Htop2 : Forall (fun s => 0 <= s) (top2_sizes_of (r2_avg_of r2_raw)))
    by (by apply ranked_sizes).
  revert st Hst. step. step.
  eapply triple_bind.
  { eapply triple_weaken;
      [apply (round_within w available r3_finals _ Htop2 offset2 []); constructor
      | done | done | done]. }
  intros [offset3 r3_raw]. cbv beta iota.
  intros st [Hst _]. simpl in Hst. revert st Hst.
  eapply triple_bind.
  { eapply triple_weaken; [apply pick_winner_keeps|done|done|].
    intros e st Hst. by apply (Hraise offset3). }
  intros optimal. step. step. apply complete_emit_finished.
Qed.

(** [run] never raises and ends with the budget kept and [finished] emitted
    once, as the last signal. *)
Lemma run_complete :
  triple (fun st => st = init) (run w entries)
         (fun _ => complete available) never.
Proof.
  unfold run. eapply triple_try; [apply run_impl_complete|].
  intros e st [offset Hst]. revert st Hst.
  eapply triple_bind; [by apply within_emit|]. intros ?.
  eapply triple_bind; [apply survey_first_keeps|].
  intros s. apply complete_emit_finished.
Qed.
End Procedure.

(** In a list that splits as [left ++ middle ++ right], the slice between
    the two cuts is [middle]. *)
(** With exactly 107 eligible entries the warmup takes 2 entries and the
    survey takes all six sizes; nothing is left for rounds 2 and 3, and the
    best surveyed size is reported. *)
Example calibration_exact_fit :
  let '(result, st) :=
    AutoTunerWorker.run Sample.steady (Sample.backlog 107) AutoTunerWorker.init in
  result = inr tt
  /\ map snd (AutoTunerWorker.batches st) = [2; 5; 10; 15; 20; 25; 30]
  /\ AutoTunerWorker._consumed st = 107
  /\ List.filter AutoTunerWorker.is_finished (AutoTunerWorker.emitted st)
     = [AutoTunerWorker.finished 30].
Proof. vm_compute. repeat split. Qed.

Lemma slice_middle {A} (left middle right : list A) :
  Py.slice (left ++ middle ++ right) (Py.len left) (Py.len left + Py.len middle)
  = middle.
Proof.
  rewrite slice_inside.
  - replace (Z.to_nat (Py.len left + Py.len middle - Py.len left))
      with (length middle) by (unfold Py.len; lia).
    replace (Z.to_nat (Py.len left)) with (length left) by (unfold Py.len; lia).
    by rewrite drop_app_length, take_app_length.
  - apply len_nonneg.
  - pose proof (len_nonneg middle). lia.
  - unfold Py.len. rewrite !length_app. lia.
Qed.

(** C2. In every calibration run, from a fresh worker, every batch handed
    to the client (warmup, survey, semifinal or final) is the slice of the
    eligible entries that starts where the batch before it ended and has the
    full batch size, and it is taken only where that slice ends within the
    eligible entries; so the entries handed out, and with them the entries
    counted as consumed, never exceed the eligible entries. *)
Theorem calibration_entry_budget
    (w : AutoTunerWorker.env) (entries : list TranslationEntry) :
  let st := (AutoTunerWorker.run w entries AutoTunerWorker.init).2 in
  let available := AutoTunerWorker.eligible entries in
  let handed_out l := Py.len (concat (map fst l)) in
  (forall before batch batch_size after,
      AutoTunerWorker.batches st = before ++ (batch, batch_size) :: after ->
      let offset := handed_out before in
      offset + batch_size <= Py.len available
      /\ batch = Py.slice available offset (offset + batch_size)
      /\ Py.len batch = batch_size)
  /\ AutoTunerWorker._consumed st <= handed_out (AutoTunerWorker.batches st)
  /\ handed_out (AutoTunerWorker.batches st) <= Py.len available
  /\ AutoTunerWorker._consumed st <= Py.len available.
Proof.
  cbv zeta.
  pose proof (run_complete w entries AutoTunerWorker.init eq_refl) as Hrun.
  destruct (AutoTunerWorker.run w entries AutoTunerWorker.init)
    as [[e|[]] st]; [done|].
  destruct Hrun as [[offset [Hrange Hprefix Hfull Hcons]] _]. simpl.
  set (available := AutoTunerWorker.eligible entries) in *.
  assert (Hout : Py.len (concat (map fst (AutoTunerWorker.batches st))) = offset).
  { rewrite Hprefix. unfold Py.len in *. rewrite length_take. lia. }
  split; [|lia].
  intros before batch batch_size after Hsplit.
  rewrite Hsplit in Hprefix, Hfull, Hout.
  apply Forall_app in Hfull as [_ Hfull]. apply Forall_cons in Hfull as [Hb _].
  simpl in Hb.
  rewrite map_app, concat_app in Hprefix, Hout. simpl in Hprefix, Hout.
  assert (Hlen : Py.len (concat (map fst before)) + batch_size <= offset).
  { rewrite <- Hout, <- Hb. unfold Py.len. rewrite !length_app. lia. }
  split; [lia|]. split; [|done].
  rewrite <- (take_drop (Z.to_nat offset) available), <- Hprefix, <- Hb.
  rewrite <- !app_assoc. by rewrite slice_middle.
Qed.

(** C8. [run] is [_run_impl] inside one [try].  Whatever procedure stands
    inside that [try] and at whatever point it raises, the handler catches
    the exception: it emits [error] with the text of the exception, then
    [finished] with [SURVEY_STEPS[0]], changes nothing else of what the
    procedure left, and returns normally.  [SURVEY_STEPS[0]] is 5, the
    smallest survey size; it is not the size 1 that is reported when there
    are too few entries.  With or without an exception, every run of a
    fresh worker returns normally with [finished] emitted exactly once, as
    its last signal. *)
Theorem run_recovers_from_exception
    (w : AutoTunerWorker.env) (entries : list TranslationEntry) :
  let handler := fun e : exn =>
    AutoTunerWorker.bind
      (AutoTunerWorker.emit (AutoTunerWorker.error (AutoTunerWorker.str_of e)))
      (fun _ =>
         AutoTunerWorker.bind
           (AutoTunerWorker.item0 AutoTunerWorker.SURVEY_STEPS)
           (fun s => AutoTunerWorker.emit (AutoTunerWorker.finished s))) in
  let caught e st' :=
    (inr tt,
     {| AutoTunerWorker._consumed := AutoTunerWorker._consumed st';
        AutoTunerWorker.emitted :=
          AutoTunerWorker.emitted st'
          ++ [AutoTunerWorker.error (AutoTunerWorker.str_of e);
              AutoTunerWorker.finished 5];
        AutoTunerWorker.reads := AutoTunerWorker.reads st';
        AutoTunerWorker.calls := AutoTunerWorker.calls st';
        AutoTunerWorker.batches := AutoTunerWorker.batches st' |}) in
  AutoTunerWorker.run w entries
  = AutoTunerWorker.try_except (AutoTunerWorker._run_impl w entries) handler
  /\ (forall (body : AutoTunerWorker.M unit) st e st',
        body st = (inl e, st') ->
        AutoTunerWorker.try_except body handler st = caught e st')
  /\ (forall st e st',
        AutoTunerWorker._run_impl w entries st = (inl e, st') ->
        AutoTunerWorker.run w entries st = caught e st')
  /\ (forall e,
        AutoTunerWorker.is_cloud w = inl e ->
        AutoTunerWorker.run w entries AutoTunerWorker.init
        = caught e AutoTunerWorker.init)
  /\ head AutoTunerWorker.SURVEY_STEPS = Some 5
  /\ Forall (fun s => 5 <= s) AutoTunerWorker.SURVEY_STEPS
  /\ (AutoTunerWorker.run w entries AutoTunerWorker.init).1 = inr tt
  /\ Calibration.finished_last
       (AutoTunerWorker.run w entries AutoTunerWorker.init).2
  /\ count_of AutoTunerWorker.is_finished
       (AutoTunerWorker.emitted
          (AutoTunerWorker.run w entries AutoTunerWorker.init).2) = 1%nat.
Proof.
  cbv zeta.
  assert (Hcatch : forall (body : AutoTunerWorker.M unit) st e st',
            body st = (inl e, st') ->
            AutoTunerWorker.try_except body
              (fun e : exn =>
                 AutoTunerWorker.bind
                   (AutoTunerWorker.emit
                      (AutoTunerWorker.error (AutoTunerWorker.str_of e)))
                   (fun _ =>
                      AutoTunerWorker.bind
                        (AutoTunerWorker.item0 AutoTunerWorker.SURVEY_STEPS)
                        (fun s =>
                           AutoTunerWorker.emit (AutoTunerWorker.finished s))))
              st
            = (inr tt,
               {| AutoTunerWorker._consumed := AutoTunerWorker._consumed st';
                  AutoTunerWorker.emitted :=
                    AutoTunerWorker.emitted st'
                    ++ [AutoTunerWorker.error (AutoTunerWorker.str_of e);
                        AutoTunerWorker.finished 5];
                  AutoTunerWorker.reads := AutoTunerWorker.reads st';
                  AutoTunerWorker.calls := AutoTunerWorker.calls st';
                  AutoTunerWorker.batches := AutoTunerWorker.batches st' |})).
  { intros body st e st' Hraise. unfold AutoTunerWorker.try_except.
    rewrite Hraise. unfold AutoTunerWorker.bind. simpl.
    unfold AutoTunerWorker.emit. simpl. by rewrite <- app_assoc. }
  split; [reflexivity|]. split; [exact Hcatch|].
  split; [intros st e st'; apply Hcatch|].
  split.
  { intros e He. apply Hcatch.
    unfold AutoTunerWorker._run_impl, AutoTunerWorker.bind,
      AutoTunerWorker.getattr_is_cloud. by rewrite He. }
  split; [done|]. split; [by repeat constructor|].
  pose proof (run_complete w entries AutoTunerWorker.init eq_refl) as Hrun.
  destruct (AutoTunerWorker.run w entries AutoTunerWorker.init)
    as [[e'|[]] st'']; [done|].
  destruct Hrun as [_ Hlast]. split; [done|]. split; [done|].
  destruct Hlast as (before & optimal & Hemitted & Hquiet). simpl.
  rewrite Hemitted, count_of_app.
  replace (count_of AutoTunerWorker.is_finished before) with 0%nat; [done|].
  clear -Hquiet. induction Hquiet as [|s l Hs _ IH]; [done|].
  by rewrite count_of_cons, Hs.
Qed.

Lemma run_recovers_from_exception_witness :
  AutoTunerWorker.emitted
    (AutoTunerWorker.run Sample.broken_client [Sample.e1] AutoTunerWorker.init).2
  = [AutoTunerWorker.error (AutoTunerWorker.str_of Sample.key_error);
     AutoTunerWorker.finished 5].
Proof.
  destruct (run_recovers_from_exception Sample.broken_client [Sample.e1])
    as (_ & _ & _ & Hcloud & _).
  rewrite (Hcloud Sample.key_error eq_refl). reflexivity.
Defined.

(** C8, the claim as stated fails: after a failure [run] reports 5, not 1,
    the smallest size the calibrator reports, which it does report when
    there are too few entries. *)
Lemma failure_reports_five :
  AutoTunerWorker._run_impl Sample.broken_client [Sample.e1]
    AutoTunerWorker.init
  = (inl Sample.key_error, AutoTunerWorker.init)
  /\ AutoTunerWorker.emitted
       (AutoTunerWorker.run Sample.broken_client [Sample.e1]
          AutoTunerWorker.init).2
     = [AutoTunerWorker.error (AutoTunerWorker.str_of Sample.key_error);
        AutoTunerWorker.finished 5]
  /\ (AutoTunerWorker.finished 1
      ∉ AutoTunerWorker.emitted
          (AutoTunerWorker.run Sample.broken_client [Sample.e1]
             AutoTunerWorker.init).2)
  /\ AutoTunerWorker.emitted
       (AutoTunerWorker.run Sample.steady [Sample.e1] AutoTunerWorker.init).2
     = [AutoTunerWorker.finished 1].
Proof.
  split; [reflexivity|]. split; [reflexivity|]. split; [|reflexivity].
  intros Hin. apply elem_of_cons in Hin as [Hin|Hin]; [discriminate|].
  apply elem_of_cons in Hin as [Hin|Hin]; [discriminate|].
  by apply not_elem_of_nil in Hin.
Qed.

(** ** Binary64: the order of the numbers *)

Section SpecOrder.




End SpecOrder.

(** ** Binary64: sums and quotients of throughputs *)

Section SpecSign.
Import Calibration.

Lemma shr_1_nonneg mrs : 0 <= shr_m mrs -> 0 <= shr_m (shr_1 mrs).
Proof. destruct mrs as [[|[p|p|]|p] r s]; cbn; lia. Qed.

Lemma iter_pos_keeps {A} (P : A -> Prop) (f : A -> A) :
  (forall x, P x -> P (f x)) ->
  forall p x, P x -> P (SpecFloat.iter_pos f p x).
Proof. intros Hf. induction p as [p IH|p IH|]; cbn; auto. Qed.

Lemma shr_nonneg mrs e n : 0 <= shr_m mrs -> 0 <= shr_m (shr mrs e n).1.
Proof.
  intros Hm. destruct n as [|p|p]; cbn; [done| |done].
  apply (iter_pos_keeps (fun mrs => 0 <= shr_m mrs)); [|done].
  apply shr_1_nonneg.
Qed.

Lemma shr_fexp_nonneg m e l :
  0 <= m -> 0 <= shr_m (shr_fexp prec emax m e l).1.
Proof.
  intros Hm. unfold shr_fexp. apply shr_nonneg.
  by destruct l as [|[]].
Qed.

Lemma round_nearest_even_nonneg m l : 0 <= m -> 0 <= round_nearest_even m l.
Proof.
  intros Hm. destruct l as [|[]]; cbn; try lia. destruct (Z.even m); lia.
Qed.

(** Rounding a magnitude gives a number of the sign asked for. *)
Lemma binary_round_aux_sign sx mx ex lx :
  0 <= mx ->
  match binary_round_aux prec emax sx mx ex lx with
  | S754_zero s | S754_infinity s | S754_finite s _ _ => s = sx
  | S754_nan => False
  end.
Proof.
  intros Hm. unfold binary_round_aux.
  pose proof (shr_fexp_nonneg mx ex lx Hm) as H1.
  destruct (shr_fexp prec emax mx ex lx) as [mrs' e']. cbn [fst] in H1.
  pose proof (shr_fexp_nonneg
                (round_nearest_even (shr_m mrs') (loc_of_shr_record mrs'))
                e' loc_Exact
                (round_nearest_even_nonneg _ _ H1)) as H2.
  destruct (shr_fexp prec emax _ e' loc_Exact) as [mrs'' e'']. cbn [fst] in H2.
  destruct (shr_m mrs'') as [|m|m]; [done| |lia].
  by destruct (e'' <=? emax - prec).
Qed.

Lemma binary_round_aux_nonneg mx ex lx :
  0 <= mx -> sf_nonneg (binary_round_aux prec emax false mx ex lx).
Proof.
  intros Hm. pose proof (binary_round_aux_sign false mx ex lx Hm) as H.
  destruct (binary_round_aux prec emax false mx ex lx) as [s|s| |s m e];
    cbn; try done; by subst s.
Qed.



(** A quotient of a number that is not negative by a positive one, unless
    both are infinite. *)
Lemma SFdiv_nonneg x y :
  sf_nonneg x -> SFltb (S754_zero false) y = true ->
  (x = S754_infinity false -> y = S754_infinity false -> False) ->
  sf_nonneg (SF64div x y).
Proof.
  destruct x as [sx|[]| |[] mx ex], y as [sy|[]| |[] my ey]; try done;
    intros _ _ Hinf; try (by destruct sx); try (exfalso; by apply Hinf).
  unfold SF64div, SFdiv, SFdiv_core_binary. cbn [xorb].
  set (m' := match _ - _ - _ with Z0 => _ | Zpos _ => _ | Zneg _ => _ end).
  assert (Hm' : 0 <= m').
  { unfold m'. destruct (_ - _ - _) as [|s|s]; [done| |done].
    by apply Z.shiftl_nonneg. }
  pose proof (Z.div_pos m' (Z.pos my) Hm' ltac:(lia)) as Hq.
  unfold Z.div in Hq. destruct (Z.div_eucl m' (Z.pos my)) as [q r].
  by apply binary_round_aux_nonneg.
Qed.
End SpecSign.

Section Throughputs.
Import AutoTunerWorker Calibration.

Lemma throughput_spec (x : Py.float) :
  throughput x <-> sf_nonneg (Prim2SF x).
Proof.
  unfold throughput. rewrite FloatAxioms.leb_spec.
  change (Prim2SF 0%float) with (S754_zero false).
  by destruct (Prim2SF x) as [s|[]| |[] m e].
Qed.




(** A count from 1 to 30 is, as a float, a positive number. *)
Lemma float_of_count (n : Z) :
  1 <= n <= 30 ->
  exists m e, Prim2SF (Py.float_of_int n) = S754_finite false m e.
Proof.
  intros Hn.
  assert (H : exists k : nat, (k < 30)%nat /\ n = 1 + Z.of_nat k).
  { exists (Z.to_nat (n - 1)). lia. }
  destruct H as (k & Hk & ->).
  do 30 (destruct k as [|k]; [vm_compute; by eexists _, _|]). lia.
Qed.

Lemma throughput_div (x y : Py.float) :
  throughput x -> Py.float_gt y 0%float = true ->
  (Prim2SF x = S754_infinity false -> Prim2SF y = S754_infinity false ->
   False) ->
  throughput (PrimFloat.div x y).
Proof.
  unfold Py.float_gt. rewrite !throughput_spec, FloatAxioms.div_spec, FloatAxioms.ltb_spec.
  change (Prim2SF 0%float) with (S754_zero false). apply SFdiv_nonneg.
Qed.


(** The throughput of a batch of up to 30 entries is a throughput. *)
Lemma throughput_eps (success : Z) (elapsed : Py.float) :
  success <= 30 ->
  throughput (if Py.float_gt elapsed 0%float && (0 <? success)
              then PrimFloat.div (Py.float_of_int success) elapsed
              else 0%float).
Proof.
  intros Hs. destruct (Py.float_gt elapsed 0%float) eqn:Hel; [|reflexivity].
  destruct (Z.ltb_spec 0 success); [|reflexivity]. cbn [andb].
  destruct (float_of_count success) as (m & e & Hc); [lia|].
  apply throughput_div; [|done|].
  - rewrite throughput_spec, Hc. done.
  - rewrite Hc. discriminate.
Qed.



End Throughputs.

(** ** The winner selection *)

Section Maximum.
Context {T : Type}.
Variable gt : T -> T -> bool.
Variable ok : T -> Prop.
Hypothesis gt_asym :
  forall x y, ok x -> ok y -> gt y x = true -> gt x y = false.
Hypothesis le_trans :
  forall x y z, ok x -> ok y -> ok z ->
    gt x y = false -> gt y z = false -> gt x z = false.



End Maximum.

Section KeyOrder.
Import AutoTunerWorker Calibration.




End KeyOrder.

Section Dicts.
Import AutoTunerWorker.
Context {V : Type}.
Implicit Types (d : dict V) (k : Z) (v : V).



Lemma dict_set_elem d k v k' v' :
  (k', v') ∈ dict_set d k v -> (k', v') ∈ d \/ (k', v') = (k, v).
Proof.
  induction d as [|[k0 v0] d IH]; simpl.
  - intros H. apply list_elem_of_singleton in H. by right.
  - destruct (Z.eqb_spec k0 k) as [->|Hne]; intros H;
      apply elem_of_cons in H as [H|H].
    + by right.
    + left. by right.
    + left. rewrite H. left.
    + destruct (IH H) as [H'|H']; [left; by right | by right].
Qed.



Lemma dict_set_keys d k v :
  NoDup d.*1 -> NoDup (dict_set d k v).*1.
Proof.
  intros Hnd. induction d as [|[k0 v0] d IH]; simpl.
  - apply NoDup_singleton.
  - apply NoDup_cons in Hnd as [Hk0 Hnd].
    destruct (Z.eqb_spec k0 k) as [->|Hne]; simpl.
    + by apply NoDup_cons.
    + apply NoDup_cons. split; [|by apply IH].
      intros Hin. apply list_elem_of_fmap in Hin as ([k1 v1] & Heq & Hin).
      simpl in Heq. subst k1.
      apply dict_set_elem in Hin as [Hin|[= ? ?]]; [|done].
      apply Hk0. apply list_elem_of_fmap. by exists (k0, v1).
Qed.
End Dicts.

Lemma dict_append_keys {V} (d : AutoTunerWorker.dict (list V)) (k : Z) (x : V) :
  (AutoTunerWorker.dict_append d k x).*1 = d.*1.
Proof.
  induction d as [|[k0 l0] d IH]; [done|].
  cbn [AutoTunerWorker.dict_append].
  destruct (k0 =? k); rewrite !fmap_cons; [done|]. by rewrite IH.
Qed.

Lemma insert_desc_length {T} gt (x : T) (l : list T) :
  length (Py.insert_desc gt x l) = S (length l).
Proof.
  induction l as [|y l IH]; simpl; [done|].
  destruct (gt y x); simpl; by rewrite ?IH.
Qed.

Lemma sorted_desc_length {T} gt (l : list T) :
  length (Py.sorted_desc gt l) = length l.
Proof.
  induction l as [|x l IH]; simpl; [done|].
  by rewrite insert_desc_length, IH.
Qed.



Section Finalists.
Import AutoTunerWorker Calibration.
Variables r2_raw r3_raw : dict (list Py.float).


End Finalists.

Section Samples.
Import AutoTunerWorker Calibration.


End Samples.



(** The averages are what the float additions give, in the order of the
    samples: the finalists 5 and 10 have the same three samples in two
    orders, their sums differ in the last bit, and the selection takes 5,
    whose computed average is the higher one; no tie is seen. *)
Example winner_follows_computed_averages :
  let r2_avg := AutoTunerWorker.r2_avg_of Sample.r2_close in
  let combined := Calibration.combined_average Sample.r2_close [] in
  AutoTunerWorker.top2_sizes_of r2_avg = [5; 10]
  /\ Py.float_gt (combined 5) (combined 10) = true
  /\ forall st,
       AutoTunerWorker.pick_winner [5; 10] [5; 10] Sample.r2_close [] r2_avg st
       = (inr 5, st).
Proof. repeat split. Qed.

(** The dicts of samples that rounds 2 and 3 build have each size once, which
    is what the winner selection is given. *)
Section RoundDicts.
Import AutoTunerWorker Calibration.
Variable w : env.
Variable available : list TranslationEntry.
Variable text : Z -> Z -> Z -> Z -> status_text.

Let anything : state -> Prop := fun _ => True.
Let any_exn : exn -> state -> Prop := fun _ _ => True.

Lemma triple_any {A} (c : M A) :
  triple anything c (fun _ => anything) any_exn.
Proof. intros st _. by destruct (c st) as [[e|a] st']. Qed.

Ltac skip := eapply triple_bind; [apply triple_any | ].

Lemma repetitions_keys (size : Z) (reps : list Z) :
  forall offset raw,
    NoDup raw.*1 ->
    triple anything (repetitions w available text size reps offset raw)
           (fun res _ => NoDup res.2.*1) any_exn.
Proof.
  induction reps as [|rep reps IH]; intros offset raw Hraw; simpl.
  - by intros st Hst.
  - skip. intros [|]; [by intros st Hst|].
    destruct (_ <? _); [by intros st Hst|].
    skip. intros consumed. skip. intros ?. skip. intros [eps elapsed].
    skip. intros ?. apply IH. by rewrite dict_append_keys.
Qed.

Lemma round_keys (sizes : list Z) :
  forall offset raw,
    NoDup raw.*1 ->
    triple anything (round w available text sizes offset raw)
           (fun res _ => NoDup res.2.*1) any_exn.
Proof.
  induction sizes as [|size sizes IH]; intros offset raw Hraw; cbn [round].
  - by intros st Hst.
  - skip. intros [|]; [by intros st Hst|].
    eapply triple_bind.
    + apply repetitions_keys. by apply dict_set_keys.
    + intros [offset' raw'] st Hkeys. by apply IH.
Qed.

Lemma round_from_empty_keys (sizes : list Z) (offset : Z) (st : state) :
  match round w available text sizes offset [] st with
  | (inr (_, raw), _) => NoDup raw.*1
  | (inl _, _) => True
  end.
Proof.
  pose proof (round_keys sizes offset [] (NoDup_nil_2 : NoDup ([] : dict (list Py.float)).*1)
                st I) as H.
  by destruct (round w available text sizes offset [] st) as [[e|[o raw]] st'].
Qed.

(** A slice is no longer than the distance of its bounds. *)
Lemma slice_len_le {A} (l : list A) (lo n : Z) :
  0 <= n -> Py.len (Py.slice l lo (lo + n)) <= n.
Proof.
  intros Hn.
  unfold Py.slice, Py.len. cbv zeta. rewrite length_take, length_drop.
  destruct (Z.ltb_spec lo 0), (Z.ltb_spec (lo + n) 0); lia.
Qed.

(** The throughput measured for a batch of up to 30 entries is a number
    that is not negative, whatever the client and the clock do. *)
Lemma timed_translate_throughput (batch : list TranslationEntry) (n : Z) :
  Py.len batch <= 30 ->
  triple anything (_timed_translate w batch n)
         (fun res _ => throughput res.1) any_exn.
Proof.
  intros Hlen st _.
  unfold _timed_translate, try_except, _translate_and_emit, bind,
    enter_batch, call_client. simpl.
  destruct (translate_batch w (calls st) _) as [e|results]; [reflexivity|].
  pose proof (emit_results_bound (Py.dict_of results) (key_to_entry_of batch)
                (dict_of_keys results)) as [Hs _].
  pose proof (key_to_entry_size batch) as Hk.
  destruct (emit_results _ (Py.dict_of results)) as [sigs success].
  rewrite emit_each_run. simpl in *. apply throughput_eps.
  unfold Py.len in Hlen. lia.
Qed.

Lemma triple_assume {A} (fact : Prop) (c : M A) (Q : A -> state -> Prop) :
  (fact -> triple anything c Q any_exn) ->
  triple (fun _ => fact) c Q any_exn.
Proof. intros H st Hfact. by apply H. Qed.

Lemma samples_open_ok (size left : Z) (raw : dict (list Py.float)) :
  0 <= left -> samples_open size left raw -> samples_ok raw.
Proof.
  intros Hleft Hraw. eapply Forall_impl; [exact Hraw|].
  intros [k l] [Hl Hn]. split; [done|]. simpl in *.
  destruct (k =? size); lia.
Qed.

Lemma dict_set_samples (raw : dict (list Py.float)) (size left : Z) :
  left <= REPS -> NoDup raw.*1 -> samples_ok raw ->
  samples_open size left (dict_set raw size []).
Proof.
  intros Hleft Hnd Hraw. unfold samples_open.
  induction Hraw as [|[k l] raw [Hl Hn] Hraw IH]; simpl.
  - constructor; [|constructor]. simpl. rewrite Z.eqb_refl.
    split; [constructor|]. unfold Py.len. simpl. lia.
  - rewrite fmap_cons in Hnd. apply NoDup_cons in Hnd as [Hk Hnd].
    simpl in Hk, Hn.
    destruct (Z.eqb_spec k size) as [->|Hne].
    + constructor.
      * simpl. rewrite Z.eqb_refl. split; [constructor|].
        unfold Py.len. simpl. lia.
      * rewrite Forall_forall in Hraw. apply Forall_forall.
        intros [k' l'] Hin. destruct (Hraw _ Hin) as [Hl' Hn'].
        split; [done|]. simpl in *.
        destruct (Z.eqb_spec k' size) as [->|_]; [|lia].
        exfalso. apply Hk. apply list_elem_of_fmap. by exists (size, l').
    + constructor; [|by apply IH].
      split; [done|]. simpl. destruct (Z.eqb_spec k size); [done|lia].
Qed.

Lemma dict_append_samples (raw : dict (list Py.float)) (size left : Z)
    (eps : Py.float) :
  0 <= left -> throughput eps ->
  samples_open size (left + 1) raw ->
  samples_open size left (dict_append raw size eps).
Proof.
  intros Hleft Heps Hraw. unfold samples_open in *.
  induction Hraw as [|[k l] raw [Hl Hn] Hraw IH]; simpl; [constructor|].
  simpl in Hn. destruct (Z.eqb_spec k size) as [->|Hne].
  - constructor.
    + simpl. rewrite Z.eqb_refl.
      split; [apply Forall_app; split; [done|by constructor]|].
      unfold Py.len in *. rewrite length_app. simpl. lia.
    + eapply Forall_impl; [exact Hraw|]. intros [k' l'] [Hl' Hn'].
      split; [done|]. simpl in *. destruct (k' =? size); lia.
  - constructor; [|exact IH]. split; [done|]. simpl.
    destruct (Z.eqb_spec k size); [done|lia].
Qed.

Lemma repetitions_samples (size : Z) (reps : list Z) :
  0 <= size <= 30 ->
  forall offset raw,
    NoDup raw.*1 -> samples_open size (Py.len reps) raw ->
    triple anything (repetitions w available text size reps offset raw)
           (fun res _ => NoDup res.2.*1 /\ samples_ok res.2) any_exn.
Proof.
  intros Hsize.
  induction reps as [|rep reps IH]; intros offset raw Hnd Hraw; simpl.
  - intros st Hst. split; [done|]. by apply (samples_open_ok size 0).
  - assert (Hstop : NoDup raw.*1 /\ samples_ok raw).
    { split; [done|]. apply (samples_open_ok size (Py.len (rep :: reps)));
        [apply len_nonneg|done]. }
    skip. intros [|]; [by intros st Hst|].
    destruct (_ <? _); [by intros st Hst|].
    skip. intros consumed. skip. intros ?.
    eapply triple_bind.
    { apply timed_translate_throughput.
      pose proof (slice_len_le available offset size). lia. }
    intros [eps elapsed]. apply triple_assume. intros Heps.
    skip. intros ?. apply IH; [by rewrite dict_append_keys|].
    apply dict_append_samples; [apply len_nonneg|done|].
    replace (Py.len reps + 1) with (Py.len (rep :: reps)); [done|].
    unfold Py.len. simpl. lia.
Qed.

Lemma round_samples (sizes : list Z) :
  Forall (fun s => s ∈ SURVEY_STEPS) sizes ->
  forall offset raw,
    NoDup raw.*1 -> samples_ok raw ->
    triple anything (round w available text sizes offset raw)
           (fun res _ => NoDup res.2.*1 /\ samples_ok res.2) any_exn.
Proof.
  induction 1 as [|size sizes Hsize Hsizes IH]; intros offset raw Hnd Hraw;
    cbn [round].
  - by intros st Hst.
  - skip. intros [|]; [by intros st Hst|].
    eapply triple_bind.
    + apply repetitions_samples.
      * assert (Hall : Forall (fun s => 0 <= s <= 30) SURVEY_STEPS)
          by (repeat (apply Forall_cons_2; [lia|]); apply Forall_nil_2).
        rewrite Forall_forall in Hall. by apply Hall.
      * by apply dict_set_keys.
      * by apply dict_set_samples.
    + intros [offset' raw'] st [Hkeys Hok]. by apply IH.
Qed.

(** Started from an empty dict, a round over survey sizes leaves samples
    that are throughputs, at most [REPS] for a size. *)
Lemma round_from_empty_samples (sizes : list Z) (offset : Z) (st : state) :
  Forall (fun s => s ∈ SURVEY_STEPS) sizes ->
  match round w available text sizes offset [] st with
  | (inr (_, raw), _) => samples_ok raw
  | (inl _, _) => True
  end.
Proof.
  intros Hsizes.
  pose proof (round_samples sizes Hsizes offset [] (NoDup_nil_2 : NoDup ([] : dict (list Py.float)).*1)
                (Forall_nil_2 _) st I) as H.
  destruct (round w available text sizes offset [] st) as [[e|[o raw]] st'];
    [done|]. by destruct H.
Qed.
End RoundDicts.

(** * Further properties *)

(** ** utils.py: entry ids *)

Section EntryIds.
Import Utils.
Implicit Types (s p l : Py.str) (c : N).

Lemma rfind_from_absent c s : forall i found,
  c ∉ s -> rfind_from c s i found = found.
Proof.
  induction s as [|d s IH]; intros i found Hc; simpl; [done|].
  apply not_elem_of_cons in Hc as [Hne Hc].
  destruct (N.eqb_spec d c); [congruence|]. by apply IH.
Qed.

Lemma rfind_from_app c s1 s2 : forall i found,
  rfind_from c (s1 ++ s2) i found
  = rfind_from c s2 (i + Py.len s1) (rfind_from c s1 i found).
Proof.
  induction s1 as [|d s1 IH]; intros i found; simpl.
  - f_equal. unfold Py.len. simpl. lia.
  - rewrite IH. f_equal. unfold Py.len. simpl length. lia.
Qed.

Lemma rfind_last c p l :
  c ∉ l -> rfind c (p ++ c :: l) = Py.len p.
Proof.
  intros Hc. unfold rfind. rewrite rfind_from_app. simpl.
  rewrite N.eqb_refl. by rewrite rfind_from_absent.
Qed.

Lemma rfind_absent c s : c ∉ s -> rfind c s = -1.
Proof. apply rfind_from_absent. Qed.

(** A text has no [c], or splits at its last [c]. *)
Lemma last_occurrence c s :
  c ∉ s \/ exists p l, s = p ++ c :: l /\ c ∉ l.
Proof.
  induction s as [|d s IH]; [left; apply not_elem_of_nil|].
  destruct IH as [Hs|(p & l & -> & Hl)].
  - destruct (N.eq_dec d c) as [->|Hne].
    + right. by exists [], s.
    + left. by apply not_elem_of_cons.
  - right. by exists (d :: p), l.
Qed.

Lemma slice_front {A} (xs ys : list A) :
  Py.slice (xs ++ ys) 0 (Py.len xs) = xs.
Proof.
  rewrite slice_inside.
  - rewrite Z.sub_0_r. unfold Py.len. rewrite Nat2Z.id. simpl.
    apply take_app_length.
  - done.
  - apply len_nonneg.
  - unfold Py.len. rewrite length_app. lia.
Qed.

Lemma find_from_absent c s : forall i, c ∉ s -> find_from c s i = -1.
Proof.
  induction s as [|d s IH]; intros i Hc; simpl; [done|].
  apply not_elem_of_cons in Hc as [Hne Hc].
  destruct (N.eqb_spec d c); [congruence|]. by apply IH.
Qed.

Lemma find_from_first c p l : forall i,
  c ∉ p -> find_from c (p ++ c :: l) i = i + Py.len p.
Proof.
  induction p as [|d p IH]; intros i Hc; simpl.
  - rewrite N.eqb_refl. unfold Py.len. simpl. lia.
  - apply not_elem_of_cons in Hc as [Hne Hc].
    destruct (N.eqb_spec d c); [congruence|]. rewrite IH by done.
    unfold Py.len. simpl length. lia.
Qed.

(** A text has no [c], or splits at its first [c]. *)
Lemma first_occurrence c s :
  c ∉ s \/ exists p l, s = p ++ c :: l /\ c ∉ p.
Proof.
  induction s as [|d s IH]; [left; apply not_elem_of_nil|].
  destruct (N.eq_dec d c) as [->|Hne].
  - right. exists [], s. split; [done|apply not_elem_of_nil].
  - destruct IH as [Hs|(p & l & -> & Hp)].
    + left. by apply not_elem_of_cons.
    + right. exists (d :: p), l. split; [done|]. by apply not_elem_of_cons.
Qed.

Lemma split_absent c s : c ∉ s -> split c s = [s].
Proof.
  induction s as [|d s IH]; intros Hc; simpl; [done|].
  apply not_elem_of_cons in Hc as [Hne Hc].
  destruct (N.eqb_spec d c); [congruence|]. by rewrite IH.
Qed.

Lemma split_at_first c p s :
  c ∉ p -> split c (p ++ c :: s) = p :: split c s.
Proof.
  induction p as [|d p IH]; intros Hc; simpl.
  - by rewrite N.eqb_refl.
  - apply not_elem_of_cons in Hc as [Hne Hc].
    destruct (N.eqb_spec d c); [congruence|]. by rewrite IH.
Qed.

(** Splitting what was joined gives the pieces back. *)
Lemma split_join c (parts : list Py.str) :
  parts <> [] -> Forall (fun part => c ∉ part) parts ->
  split c (join [c] parts) = parts.
Proof.
  intros Hne Hparts. induction Hparts as [|part rest Hpart Hrest IH]; [done|].
  destruct rest as [|part' rest]; simpl.
  - by apply split_absent.
  - change (part ++ c :: join [c] (part' :: rest))
      with (part ++ c :: join [c] (part' :: rest)).
    rewrite split_at_first by done. f_equal. by apply IH.
Qed.
End EntryIds.

(** X1. [event_prefix] gives the empty text exactly when the id has no "/"
    after its first character; otherwise it gives the id up to its last "/",
    that "/" left out: the id is the prefix, a "/", and a last segment
    without "/". *)
Theorem event_prefix_spec (entry_id : Py.str) :
  ((Utils.slash ∉ drop 1 entry_id) /\ Utils.event_prefix entry_id = [])
  \/ (exists last,
        (Utils.slash ∉ last)
        /\ Utils.event_prefix entry_id <> []
        /\ entry_id = Utils.event_prefix entry_id ++ Utils.slash :: last).
Proof.
  unfold Utils.event_prefix.
  destruct (last_occurrence Utils.slash entry_id) as [Hno|(p & l & -> & Hl)].
  - left. rewrite rfind_absent by done. split; [|done].
    intros Hin. apply Hno. destruct entry_id; [done|]. by right.
  - rewrite rfind_last by done. destruct p as [|d p].
    + left. by split.
    + right. exists l.
      assert (Hpos : (0 <? Py.len (d :: p)) = true)
        by (apply Z.ltb_lt; unfold Py.len; simpl; lia).
      rewrite Hpos, slice_front. by repeat split.
Qed.

Lemma strip_name_cut (name rest : Py.str) :
  name <> [] -> (Utils.lparen ∉ name) ->
  Utils.strip_name (name ++ Utils.lparen :: rest) = name.
Proof.
  intros Hne Hname. unfold Utils.strip_name, Utils.find.
  rewrite find_from_first by done. rewrite Z.add_0_l.
  assert (Hpos : (0 <? Py.len name) = true).
  { apply Z.ltb_lt. unfold Py.len. destruct name; [done|]. simpl. lia. }
  by rewrite Hpos, slice_front.
Qed.

Lemma strip_name_keep (part : Py.str) :
  (Utils.lparen ∉ part) \/ head part = Some Utils.lparen ->
  Utils.strip_name part = part.
Proof.
  unfold Utils.strip_name, Utils.find. intros [Hno|Hhead].
  - by rewrite find_from_absent.
  - destruct part as [|d part]; [done|]. injection Hhead as ->. reflexivity.
Qed.

Lemma middle_slice {A} (x : A) (middle : list A) (y : A) :
  middle <> [] -> Py.slice (x :: middle ++ [y]) 1 (-1) = middle.
Proof.
  intros Hne. unfold Py.slice, Py.len. simpl length. rewrite length_app.
  simpl length. destruct middle as [|m middle]; [done|]. simpl length.
  change (1 <? 0) with false. change (-1 <? 0) with true. cbv iota.
  rewrite Z.min_l, Z.max_r by lia.
  replace (Z.to_nat (-1 + Z.of_nat (S (S (length middle) + 1)) - 1))
    with (length (m :: middle)) by (simpl; lia).
  change (Z.to_nat 1) with 1%nat. simpl drop.
  apply (take_app_length (m :: middle) [y]).
Qed.

(** X2. [extract_event_context] of an id made of a file name, middle
    segments and an entry type, none with a "/" inside, is the middle
    segments joined by "/", each without what follows its first "(", unless
    it begins with "(" and is kept whole; an id with fewer than three
    segments has the empty context. *)
Theorem extract_event_context_spec
    (file : Py.str) (middle : list Py.str) (last : Py.str) :
  Forall (fun part => Utils.slash ∉ part) (file :: middle ++ [last]) ->
  Utils.extract_event_context (Utils.join [Utils.slash] (file :: middle ++ [last]))
  = Utils.join [Utils.slash] (map Utils.strip_name middle)
  /\ Utils.extract_event_context file = []
  /\ (forall name rest, name <> [] -> (Utils.lparen ∉ name) ->
        Utils.strip_name (name ++ Utils.lparen :: rest) = name)
  /\ (forall part, (Utils.lparen ∉ part) \/ head part = Some Utils.lparen ->
        Utils.strip_name part = part).
Proof.
  intros Hparts. split; [|split; [|split]].
  - unfold Utils.extract_event_context.
    rewrite split_join by done.
    destruct middle as [|m middle]; [reflexivity|].
    assert (Hlong : (Py.len (file :: (m :: middle) ++ [last]) <? 3) = false).
    { apply Z.ltb_ge. unfold Py.len. simpl. rewrite length_app. simpl. lia. }
    rewrite Hlong. by rewrite middle_slice.
  - apply Forall_cons in Hparts as [Hfile _].
    unfold Utils.extract_event_context. by rewrite split_absent.
  - apply strip_name_cut.
  - apply strip_name_keep.
Qed.

Lemma extract_event_context_spec_witness :
  Utils.extract_event_context (Py.lit "Map001.json/Ev3(EV003)/p0/dialog_5")
  = Py.lit "Ev3/p0".
Proof.
  assert (H : Forall (fun part => Utils.slash ∉ part)
                (Py.lit "Map001.json"
                 :: [Py.lit "Ev3(EV003)"; Py.lit "p0"] ++ [Py.lit "dialog_5"])).
  { apply (bool_decide_unpack _). reflexivity. }
  exact (proj1 (extract_event_context_spec (Py.lit "Map001.json")
                  [Py.lit "Ev3(EV003)"; Py.lit "p0"] (Py.lit "dialog_5") H)).
Defined.

(** ** widgets/main_window.py: the translation memory *)

Section TranslationMemory.
Import MainWindow.
Implicit Types (e d : TranslationEntry) (m : gmap Py.str Py.str).

Lemma remember_snoc (entries : list TranslationEntry) e m :
  fold_left remember (entries ++ [e]) m = remember (fold_left remember entries m) e.
Proof. by rewrite fold_left_app. Qed.

(** What the map holds was there before or comes from an entry, the last
    one with that text that has a translation. *)
Lemma remembered_from (entries : list TranslationEntry) m o t :
  fold_left remember entries m !! o = Some t ->
  m !! o = Some t
  \/ exists before d after,
       entries = before ++ d :: after /\ gives d = true /\ original d = o
       /\ translation d = t
       /\ Forall (fun d' => gives d' = true -> original d' <> o) after.
Proof.
  revert t. induction entries as [|e entries IH] using rev_ind; intros t;
    [by left|].
  rewrite remember_snoc. unfold remember at 1.
  destruct (gives e) eqn:He.
  - destruct (decide (original e = o)) as [Heq|Hne].
    + subst o. rewrite lookup_insert_eq. intros [= <-]. right.
      exists entries, e, []. by repeat split.
    + rewrite lookup_insert_ne by done. intros Hlook.
      apply IH in Hlook as [Hlook|(before & d & after & -> & Hd & Ho & Ht & Ha)];
        [by left|].
      right. exists before, d, (after ++ [e]).
      rewrite <- app_assoc. repeat split; try done.
      apply Forall_app. split; [done|]. by repeat constructor.
  - intros Hlook.
    apply IH in Hlook as [Hlook|(before & d & after & -> & Hd & Ho & Ht & Ha)];
      [by left|].
    right. exists before, d, (after ++ [e]).
    rewrite <- app_assoc. repeat split; try done.
    apply Forall_app. split; [done|]. repeat constructor. congruence.
Qed.

(** Every entry that has a translation leaves its text in the map. *)
Lemma remembered (entries : list TranslationEntry) m d :
  d ∈ entries -> gives d = true ->
  is_Some (fold_left remember entries m !! original d).
Proof.
  induction entries as [|e entries IH] using rev_ind; intros Hin Hd.
  - by apply not_elem_of_nil in Hin.
  - rewrite remember_snoc. unfold remember at 1.
    apply elem_of_app in Hin as [Hin|Hin].
    + specialize (IH Hin Hd). destruct (gives e); [|done].
      destruct (decide (original e = original d)) as [->|Hne].
      * rewrite lookup_insert_eq. by eexists.
      * by rewrite lookup_insert_ne.
    + apply list_elem_of_singleton in Hin as ->. rewrite Hd.
      rewrite lookup_insert_eq. by eexists.
Qed.

(** The second loop, entry by entry. *)
Lemma fill_duplicates_each m (entries : list TranslationEntry) :
  Forall2 (fun e e' =>
             match m !! original e with
             | Some t =>
                 if bool_decide (entry_status e = untranslated)
                 then e' = fill e t else e' = e
             | None => e' = e
             end) entries (fill_duplicates m entries).1.1.
Proof.
  induction entries as [|e entries IH]; simpl; [constructor|].
  destruct (fill_duplicates m entries) as [[es updates] n]. simpl in *.
  destruct (m !! original e) as [t|] eqn:Hlook.
  - destruct (bool_decide (entry_status e = untranslated)) eqn:Hst; simpl;
      constructor; try done; by rewrite Hlook, ?Hst.
  - simpl. constructor; [by rewrite Hlook|done].
Qed.

(** An entry left untranslated has a text the map does not know. *)
Lemma left_untranslated m (entries : list TranslationEntry) e' :
  e' ∈ (fill_duplicates m entries).1.1 -> entry_status e' = untranslated ->
  e' ∈ entries /\ m !! original e' = None.
Proof.
  intros Hin Hst. pose proof (fill_duplicates_each m entries) as Heach.
  apply list_elem_of_lookup in Hin as [i Hi].
  destruct (Forall2_lookup_r _ _ _ _ _ Heach Hi) as (e & He & Hrel).
  destruct (m !! original e) as [t|] eqn:Hlook.
  - destruct (bool_decide (entry_status e = untranslated)) eqn:Hun.
    + subst e'. done.
    + subst e'. apply bool_decide_eq_false in Hun. done.
  - subst e'. split; [|done]. apply list_elem_of_lookup. by exists i.
Qed.

(** The second loop changes nothing when no untranslated entry has a text
    of the map. *)
Lemma fill_duplicates_nothing m (entries : list TranslationEntry) :
  Forall (fun e => entry_status e = untranslated -> m !! original e = None)
         entries ->
  fill_duplicates m entries = (entries, [], 0).
Proof.
  induction 1 as [|e entries He _ IH]; simpl; [done|]. rewrite IH.
  destruct (m !! original e) as [t|] eqn:Hlook; [|done].
  destruct (bool_decide (entry_status e = untranslated)) eqn:Hun; [|done].
  apply bool_decide_eq_true in Hun. specialize (He Hun). congruence.
Qed.

Lemma fill_duplicates_count m (entries : list TranslationEntry) :
  let '(es, updates, tm_count) := fill_duplicates m entries in
  tm_count = Z.of_nat (length updates)
  /\ length es = length entries
  /\ map id es = map id entries
  /\ map original es = map original entries
  /\ Z.of_nat (length (filter (fun e => entry_status e = untranslated) es))
     = Z.of_nat (length (filter (fun e => entry_status e = untranslated) entries))
       - tm_count.
Proof.
  induction entries as [|e entries IH]; simpl; [done|].
  destruct (fill_duplicates m entries) as [[es updates] n].
  destruct IH as (Hn & Hlen & Hid & Ho & Hcount).
  destruct (m !! original e) as [t|] eqn:Hlook.
  - destruct (bool_decide (entry_status e = untranslated)) eqn:Hun; simpl.
    + apply bool_decide_eq_true in Hun.
      rewrite (filter_cons_True _ e) by done.
      rewrite filter_cons_False by done.
      simpl length. repeat split; try congruence; lia.
    + apply bool_decide_eq_false in Hun.
      rewrite !filter_cons_False by done.
      repeat split; try congruence; lia.
  - simpl. rewrite !filter_cons. destruct (decide _); simpl;
      repeat split; try congruence; lia.
Qed.
End TranslationMemory.

(** ** The engine: the workers of a run *)

(** Whatever the number asked for, the chunks are one at least and, in
    order, make up the list. *)
Lemma split_chunks_any {A} (items : list A) (n : Z) :
  Py.len (TranslationEngine._split_chunks items n) = Z.max 1 n
  /\ concat (TranslationEngine._split_chunks items n) = items.
Proof.
  destruct (Z.le_gt_cases n 1) as [Hle|Hgt].
  - unfold TranslationEngine._split_chunks.
    destruct (Z.leb_spec n 1); [|lia]. split; [unfold Py.len; simpl; lia|].
    simpl. apply app_nil_r.
  - destruct (split_chunks_count_concat items n ltac:(lia)) as [Hcount Hcat].
    split; [lia|done].
Qed.

Lemma start_workers_spec (m : TranslationWorker.mode)
    (eligible : list TranslationEntry) (st : TranslationEngine.engine) :
  let st' := TranslationEngine.start_workers m eligible st in
  Py.len (TranslationEngine._workers st')
  = Z.max 1 (Z.min (TranslationEngine.num_workers st) (Py.len eligible))
  /\ concat (map TranslationEngine.w_entries (TranslationEngine._workers st'))
     = eligible
  /\ Forall (fun wk => TranslationEngine.w_mode wk = m
                       /\ TranslationEngine.w_cancelled wk = false)
            (TranslationEngine._workers st')
  /\ TranslationEngine.is_running st' = true
  /\ TranslationEngine._total st' = Py.len eligible
  /\ TranslationEngine._progress_count st' = 0
  /\ TranslationEngine._translate_count st' = 0
  /\ TranslationEngine._finished_workers st' = 0
  /\ TranslationEngine.emitted st' = TranslationEngine.emitted st.
Proof.
  cbv zeta. unfold TranslationEngine.start_workers. simpl.
  set (n := Py.min (TranslationEngine.num_workers st) (Py.len eligible)).
  destruct (split_chunks_any eligible n) as [Hcount Hcat].
  assert (Hn : n = Z.min (TranslationEngine.num_workers st) (Py.len eligible)).
  { unfold n, Py.min. destruct (Z.ltb_spec (Py.len eligible)
      (TranslationEngine.num_workers st)); lia. }
  split; [|split; [|split; [|split]]]; try done.
  - unfold Py.len in *. rewrite length_map. lia.
  - by rewrite map_map, map_id.
  - apply Forall_map. by apply Forall_forall.
  - unfold TranslationEngine.is_running. simpl.
    destruct (TranslationEngine._split_chunks eligible n) as [|c cs];
      [unfold Py.len in Hcount; simpl in Hcount; lia | reflexivity].
Qed.

Lemma idle_call_starts_workers
    (entries : list TranslationEntry) (st : TranslationEngine.engine) :
  TranslationEngine.is_running st = false ->
  (TranslationEngine.to_translate_of entries <> [] ->
     TranslationEngine.translate_batch entries st
     = TranslationEngine.start_workers TranslationWorker.translate
         (TranslationEngine.to_translate_of entries) st)
  /\ (TranslationEngine.to_polish_of entries <> [] ->
      TranslationEngine.polish_batch entries st
      = TranslationEngine.start_workers TranslationWorker.polish
          (TranslationEngine.to_polish_of entries) st).
Proof.
  intros Hidle.
  unfold TranslationEngine.translate_batch, TranslationEngine.polish_batch.
  rewrite Hidle. split; intros Hwork.
  - by destruct (TranslationEngine.to_translate_of entries).
  - by destruct (TranslationEngine.to_polish_of entries).
Qed.

(** X3. A call of [translate_batch] or [polish_batch] on an idle engine that
    finds eligible entries starts [min(num_workers, eligible)] workers, one
    worker when [num_workers] is below 1, each in the mode of the call and
    not cancelled; the chunks of the workers, in order, are the eligible
    entries, each entry in one chunk; the engine is running, the total is the
    number of eligible entries, the counters are zero and nothing is emitted. *)
Theorem batch_call_starts_run
    (entries : list TranslationEntry) (st : TranslationEngine.engine) :
  TranslationEngine.is_running st = false ->
  let started m eligible st' :=
    Py.len (TranslationEngine._workers st')
    = Z.max 1 (Z.min (TranslationEngine.num_workers st) (Py.len eligible))
    /\ concat (map TranslationEngine.w_entries (TranslationEngine._workers st'))
       = eligible
    /\ Forall (fun wk => TranslationEngine.w_mode wk = m
                         /\ TranslationEngine.w_cancelled wk = false)
              (TranslationEngine._workers st')
    /\ TranslationEngine.is_running st' = true
    /\ TranslationEngine._total st' = Py.len eligible
    /\ TranslationEngine._progress_count st' = 0
    /\ TranslationEngine._translate_count st' = 0
    /\ TranslationEngine._finished_workers st' = 0
    /\ TranslationEngine.emitted st' = TranslationEngine.emitted st in
  (TranslationEngine.to_translate_of entries <> [] ->
     started TranslationWorker.translate
       (TranslationEngine.to_translate_of entries)
       (TranslationEngine.translate_batch entries st))
  /\ (TranslationEngine.to_polish_of entries <> [] ->
      started TranslationWorker.polish
        (TranslationEngine.to_polish_of entries)
        (TranslationEngine.polish_batch entries st)).
Proof.
  intros Hidle. cbv zeta.
  unfold TranslationEngine.translate_batch, TranslationEngine.polish_batch.
  rewrite Hidle. split; intros Hwork.
  - destruct (TranslationEngine.to_translate_of entries) as [|e l] eqn:Heq;
      [done|]. apply start_workers_spec.
  - destruct (TranslationEngine.to_polish_of entries) as [|e l] eqn:Heq;
      [done|]. apply start_workers_spec.
Qed.

Lemma batch_call_starts_run_witness :
  Py.len (TranslationEngine._workers
            (TranslationEngine.translate_batch
               [Sample.e1; Sample.e4; Sample.e2; Sample.e3]
               TranslationEngine.init)) = 2
  /\ concat (map TranslationEngine.w_entries
               (TranslationEngine._workers
                  (TranslationEngine.translate_batch
                     [Sample.e1; Sample.e4; Sample.e2; Sample.e3]
                     TranslationEngine.init)))
     = [Sample.e1; Sample.e2; Sample.e3].
Proof.
  destruct (proj1 (batch_call_starts_run
                     [Sample.e1; Sample.e4; Sample.e2; Sample.e3]
                     TranslationEngine.init eq_refl) ltac:(discriminate))
    as (Hcount & Hchunks & _).
  split; [exact Hcount | exact Hchunks].
Defined.

(** ** widgets/main_window.py: what the engine is asked to translate *)

Lemma no_duplicate_left_untranslated
    (entries : list TranslationEntry) :
  forall e' d,
    e' ∈ (MainWindow.translation_memory entries).1.1 ->
    entry_status e' = untranslated ->
    d ∈ entries -> MainWindow.gives d = true ->
    original d <> original e'.
Proof.
  unfold MainWindow.translation_memory.
  intros e' d He' Hst Hd Hgives Heq.
  destruct (left_untranslated _ entries e' He' Hst) as [_ Hnone].
  destruct (remembered entries ∅ d Hd Hgives) as [t Ht].
  unfold MainWindow.translated_map_of in Hnone. congruence.
Qed.

(** X4. After the translation memory of [_batch_translate], no entry left
    untranslated has the source text of an entry of the project that is
    translated or reviewed with a translation.  The pass keeps the order, the
    ids and the source texts of the entries; [tm_count] is the number of
    table updates and the number of entries that left the untranslated
    ones. *)
Theorem translation_memory_leaves_no_duplicate
    (entries : list TranslationEntry) :
  let '(es, updates, tm_count) := MainWindow.translation_memory entries in
  (forall e' d,
      e' ∈ es -> entry_status e' = untranslated ->
      d ∈ entries -> MainWindow.gives d = true ->
      original d <> original e')
  /\ tm_count = Py.len updates
  /\ map id es = map id entries
  /\ map original es = map original entries
  /\ Py.len (TranslationEngine.to_translate_of es)
     = Py.len (TranslationEngine.to_translate_of entries) - tm_count.
Proof.
  unfold MainWindow.translation_memory.
  pose proof (fill_duplicates_count (MainWindow.translated_map_of entries)
                entries) as Hcount.
  pose proof (left_untranslated (MainWindow.translated_map_of entries) entries)
    as Hleft.
  destruct (MainWindow.fill_duplicates _ entries) as [[es updates] tm_count].
  simpl in Hleft. destruct Hcount as (Hn & _ & Hid & Ho & Hun).
  split; [|done].
  intros e' d He' Hst Hd Hgives Heq.
  destruct (Hleft e' He' Hst) as [_ Hnone].
  destruct (remembered entries ∅ d Hd Hgives) as [t Ht].
  unfold MainWindow.translated_map_of in Hnone. congruence.
Qed.

(** X5. An entry that the translation memory changes was untranslated, and
    gets the status translated and the translation of the last entry of the
    project with the same source text that is translated or reviewed with a
    translation; nothing else of it changes. *)
Theorem translation_memory_last_wins
    (entries : list TranslationEntry) (i : nat) (e e' : TranslationEntry) :
  entries !! i = Some e ->
  (MainWindow.translation_memory entries).1.1 !! i = Some e' ->
  e' <> e ->
  entry_status e = untranslated
  /\ exists before d after,
       entries = before ++ d :: after
       /\ MainWindow.gives d = true
       /\ original d = original e
       /\ Forall (fun d' => MainWindow.gives d' = true ->
                            original d' <> original e) after
       /\ e' = MainWindow.fill e (translation d)
       /\ Py.truthy (translation e') = true.
Proof.
  intros He He' Hchanged. unfold MainWindow.translation_memory in He'.
  pose proof (fill_duplicates_each (MainWindow.translated_map_of entries)
                entries) as Heach.
  destruct (Forall2_lookup_l _ _ _ _ _ Heach He) as (e2 & He2 & Hrel).
  rewrite He' in He2. injection He2 as <-.
  destruct (MainWindow.translated_map_of entries !! original e) as [t|] eqn:Ht;
    [|done].
  destruct (bool_decide (entry_status e = untranslated)) eqn:Hun; [|done].
  apply bool_decide_eq_true in Hun. split; [done|].
  apply remembered_from in Ht
    as [Ht|(before & d & after & Hsplit & Hd & Ho & Htr & Hafter)];
    [by rewrite lookup_empty in Ht|].
  exists before, d, after. subst e' t. repeat split; try done.
  simpl. unfold MainWindow.gives in Hd. by apply andb_prop in Hd as [_ Hd].
Qed.

Lemma translation_memory_last_wins_witness :
  exists before d after,
    [Sample.item "a" "hai" "yes" translated;
     Sample.item "b" "hai" "" untranslated;
     Sample.item "c" "hai" "yeah" reviewed] = before ++ d :: after
    /\ MainWindow.gives d = true
    /\ original d = original (Sample.item "b" "hai" "" untranslated)
    /\ Forall (fun d' => MainWindow.gives d' = true ->
                         original d' <> original (Sample.item "b" "hai" "" untranslated))
              after
    /\ MainWindow.fill (Sample.item "b" "hai" "" untranslated) (Py.lit "yeah")
       = MainWindow.fill (Sample.item "b" "hai" "" untranslated) (translation d)
    /\ Py.truthy
         (translation
            (MainWindow.fill (Sample.item "b" "hai" "" untranslated)
               (Py.lit "yeah"))) = true.
Proof.
  exact (proj2 (translation_memory_last_wins
                  [Sample.item "a" "hai" "yes" translated;
                   Sample.item "b" "hai" "" untranslated;
                   Sample.item "c" "hai" "yeah" reviewed]
                  1 (Sample.item "b" "hai" "" untranslated)
                  (MainWindow.fill (Sample.item "b" "hai" "" untranslated)
                     (Py.lit "yeah"))
                  eq_refl eq_refl ltac:(discriminate))).
Defined.

(** X6. The translation memory is idempotent: run again on the entries it
    left, it changes no entry, updates no row and counts nothing. *)
Theorem translation_memory_idempotent (entries : list TranslationEntry) :
  MainWindow.translation_memory (MainWindow.translation_memory entries).1.1
  = ((MainWindow.translation_memory entries).1.1, [], 0).
Proof.
  set (es := (MainWindow.translation_memory entries).1.1).
  unfold MainWindow.translation_memory at 1.
  apply fill_duplicates_nothing. apply Forall_forall. intros e' He' Hst.
  destruct (MainWindow.translated_map_of es !! original e') as [t|] eqn:Ht;
    [|done]. exfalso.
  apply remembered_from in Ht
    as [Ht|(before & d & after & Hsplit & Hd & Ho & _ & _)];
    [by rewrite lookup_empty in Ht|].
  assert (Hd_in : d ∈ es) by (rewrite Hsplit; apply elem_of_app; right; left).
  unfold es, MainWindow.translation_memory in He', Hd_in.
  destruct (left_untranslated _ entries e' He' Hst) as [_ Hnone].
  pose proof (fill_duplicates_each (MainWindow.translated_map_of entries)
                entries) as Heach.
  apply list_elem_of_lookup in Hd_in as [j Hj].
  destruct (Forall2_lookup_r _ _ _ _ _ Heach Hj) as (d0 & Hd0 & Hrel).
  assert (Hd0_in : d0 ∈ entries) by (apply list_elem_of_lookup; by exists j).
  destruct (MainWindow.translated_map_of entries !! original d0) as [t0|] eqn:Ht0.
  - destruct (bool_decide (entry_status d0 = untranslated)); subst d;
      simpl in Ho; congruence.
  - subst d. destruct (remembered entries ∅ d0 Hd0_in Hd) as [t1 Ht1].
    unfold MainWindow.translated_map_of in Ht0. congruence.
Qed.

(** X7. [_batch_translate] with a client that is not available changes
    nothing.  With an available client and an idle engine it applies the
    translation memory; if no entry is left untranslated the engine is not
    called at all, and otherwise the chunks of the workers it starts are, in
    order, the entries left untranslated, none of which has the source text
    of a translated entry of the project. *)
Theorem batch_translate_submits_new_texts
    (entries : list TranslationEntry) (engine : TranslationEngine.engine) :
  TranslationEngine.is_running engine = false ->
  let es := (MainWindow.translation_memory entries).1.1 in
  let engine' := (MainWindow._batch_translate true entries engine).2 in
  MainWindow._batch_translate false entries engine = (entries, engine)
  /\ (MainWindow._batch_translate true entries engine).1 = es
  /\ (TranslationEngine.to_translate_of es = [] -> engine' = engine)
  /\ (TranslationEngine.to_translate_of es <> [] ->
      concat (map TranslationEngine.w_entries
                (TranslationEngine._workers engine'))
      = TranslationEngine.to_translate_of es)
  /\ Forall (fun e => entry_status e = untranslated
                      /\ forall d, d ∈ entries -> MainWindow.gives d = true ->
                                   original d <> original e)
            (TranslationEngine.to_translate_of es).
Proof.
  intros Hidle. cbv zeta. unfold MainWindow._batch_translate. simpl negb.
  cbv iota.
  pose proof (no_duplicate_left_untranslated entries) as Hnodup.
  destruct (MainWindow.translation_memory entries) as [[es updates] tm_count].
  simpl in *. split; [done|].
  destruct (TranslationEngine.to_translate_of es) as [|e l] eqn:Heq.
  - by repeat split.
  - rewrite <- Heq. split; [done|]. split; [by rewrite Heq|]. split.
    + intros _. simpl.
      rewrite (proj1 (idle_call_starts_workers es engine Hidle))
        by (by rewrite Heq).
      by destruct (start_workers_spec TranslationWorker.translate
                     (TranslationEngine.to_translate_of es) engine)
        as (_ & Hchunks & _).
    + apply Forall_forall. intros e0 He0.
      unfold TranslationEngine.to_translate_of in He0.
      apply list_elem_of_filter in He0 as [Hst Hin]. split; [done|].
      intros d Hd Hgives. by apply (Hnodup e0 d).
Qed.

Lemma batch_translate_submits_new_texts_witness :
  MainWindow._batch_translate false [Sample.e1; Sample.e4] TranslationEngine.init
  = ([Sample.e1; Sample.e4], TranslationEngine.init).
Proof.
  exact (proj1 (batch_translate_submits_new_texts [Sample.e1; Sample.e4]
                  TranslationEngine.init eq_refl)).
Defined.

Lemma mark_untranslated_status (e : TranslationEntry) :
  entry_status (MainWindow.mark_untranslated e)
  = if bool_decide (entry_status e = skipped) then skipped else untranslated.
Proof.
  unfold MainWindow.mark_untranslated, MainWindow.done_status.
  by destruct e as [? ? ? ? ? []].
Qed.

(** X8. [_translate_selected] on an idle engine, with an available client
    and a selection that is not empty, hands the engine every selected entry
    but the skipped ones, in order, translated and reviewed entries
    included; it resets their status and keeps the ids, the source texts and
    the old translations.  When every selected entry is skipped, the engine
    starts no worker and emits [finished] at once. *)
Theorem translate_selected_resubmits
    (entries : list TranslationEntry) (engine : TranslationEngine.engine) :
  TranslationEngine.is_running engine = false ->
  entries <> [] ->
  let es := (MainWindow._translate_selected true entries engine).1 in
  let engine' := (MainWindow._translate_selected true entries engine).2 in
  map id es = map id entries
  /\ map original es = map original entries
  /\ map translation es = map translation entries
  /\ TranslationEngine.to_translate_of es
     = map MainWindow.mark_untranslated
         (filter (fun e => entry_status e <> skipped) entries)
  /\ (Forall (fun e => entry_status e = skipped) entries ->
      engine' = TranslationEngine.emit TranslationEngine.finished engine)
  /\ (Exists (fun e => entry_status e <> skipped) entries ->
      concat (map TranslationEngine.w_entries
                (TranslationEngine._workers engine'))
      = TranslationEngine.to_translate_of es).
Proof.
  intros Hidle Hsome. cbv zeta. unfold MainWindow._translate_selected.
  simpl negb. cbv iota. destruct entries as [|e0 l0]; [done|].
  set (entries := e0 :: l0) in *. simpl fst. simpl snd.
  assert (Hfilter : TranslationEngine.to_translate_of
                      (map MainWindow.mark_untranslated entries)
                    = map MainWindow.mark_untranslated
                        (filter (fun e => entry_status e <> skipped) entries)).
  { unfold TranslationEngine.to_translate_of. clear.
    induction entries as [|e l IH]; [done|]. simpl map.
    rewrite !filter_cons, IH, mark_untranslated_status.
    destruct (bool_decide_reflect (entry_status e = skipped)) as [Hs|Hs].
    - rewrite decide_False by done.
      by rewrite (decide_False (P := entry_status e <> skipped)) by tauto.
    - rewrite decide_True by done.
      by rewrite (decide_True (P := entry_status e <> skipped)) by done. }
  assert (Hsame : forall (f : TranslationEntry -> Py.str),
            (forall e, f (MainWindow.mark_untranslated e) = f e) ->
            map f (map MainWindow.mark_untranslated entries) = map f entries).
  { intros f Hf. rewrite map_map. apply map_ext. exact Hf. }
  split; [apply Hsame; intros e; unfold MainWindow.mark_untranslated;
          by destruct (MainWindow.done_status _)|].
  split; [apply Hsame; intros e; unfold MainWindow.mark_untranslated;
          by destruct (MainWindow.done_status _)|].
  split; [apply Hsame; intros e; unfold MainWindow.mark_untranslated;
          by destruct (MainWindow.done_status _)|].
  split; [exact Hfilter|]. split.
  - intros Hall. unfold TranslationEngine.translate_batch. cbv zeta.
    change (MainWindow.mark_untranslated e0
            :: map MainWindow.mark_untranslated l0)
      with (map MainWindow.mark_untranslated entries).
    rewrite Hidle, Hfilter.
    replace (filter (fun e => entry_status e <> skipped) entries)
      with (@nil TranslationEntry); [done|].
    symmetry. clear -Hall. induction Hall as [|e l He _ IH]; [done|].
    by rewrite filter_cons_False by tauto.
  - intros Hex.
    assert (Hwork : TranslationEngine.to_translate_of
                      (map MainWindow.mark_untranslated entries) <> []).
    { rewrite Hfilter. apply Exists_exists in Hex as (e & Hin & He).
      intros Hnil. apply map_eq_nil in Hnil.
      assert (Hmem : e ∈ filter (fun e => entry_status e <> skipped) entries)
        by (by apply list_elem_of_filter).
      rewrite Hnil in Hmem. by apply not_elem_of_nil in Hmem. }
    change (MainWindow.mark_untranslated e0
            :: map MainWindow.mark_untranslated l0)
      with (map MainWindow.mark_untranslated entries).
    rewrite (proj1 (idle_call_starts_workers _ engine Hidle) Hwork).
    by destruct (start_workers_spec TranslationWorker.translate
                   (TranslationEngine.to_translate_of
                      (map MainWindow.mark_untranslated entries)) engine)
      as (_ & Hchunks & _).
Qed.

Lemma translate_selected_resubmits_witness :
  TranslationEngine.to_translate_of
    (MainWindow._translate_selected true [Sample.e4; Sample.e1]
       TranslationEngine.init).1
  = map MainWindow.mark_untranslated
      (filter (fun e => entry_status e <> skipped) [Sample.e4; Sample.e1]).
Proof.
  exact (proj1 (proj2 (proj2 (proj2
           (translate_selected_resubmits [Sample.e4; Sample.e1]
              TranslationEngine.init eq_refl ltac:(discriminate)))))).
Defined.

(** ** The worker: what a run does to its chunk and what it reports *)

Section WorkerRun.
Import TranslationWorker.
Variable w : env.
Variable m : mode.

Lemma skip_test_entry entry entry' text :
  skip_test m entry = Some (entry', text) ->
  Pool.kept_or_skipped m entry entry'.
Proof.
  unfold skip_test. destruct m eqn:Hm.
  - destruct (bool_decide (entry_status entry = translated)
              || bool_decide (entry_status entry = reviewed)
              || bool_decide (entry_status entry = skipped)) eqn:Hdone.
    + intros [= <- _]. by left.
    + rewrite truthy_strip, negb_involutive.
      destruct (forallb Py.isspace (original entry)) eqn:Hblank; [|done].
      intros [= <- _]. right. repeat split; try done.
      by destruct (entry_status entry).
  - destruct (_ || _); [|done]. intros [= <- _]. by left.
Qed.

Lemma loop_entries entries : forall i,
  Forall2 (Pool.kept_or_skipped m) entries (entries_after (loop w m i entries)).
Proof.
  assert (Hrefl : forall l, Forall2 (Pool.kept_or_skipped m) l l).
  { induction l; constructor; [by left|done]. }
  unfold entries_after.
  induction entries as [|entry rest IH]; intros i; simpl; [constructor|].
  destruct (cancelled w i); [apply Hrefl|].
  destruct (skip_test m entry) as [[entry' text]|] eqn:Hskip.
  - specialize (IH (S i)). apply skip_test_entry in Hskip.
    destruct (loop w m (S i) rest) as [[effs es] r]. by constructor.
  - destruct (client_call w m i entry) as [made reply].
    specialize (IH (S i)).
    destruct reply as [e|result]; [destruct (caught e)|];
      destruct (loop w m (S i) rest) as [[effs es] r];
      constructor; try (by left); done.
Qed.

Lemma loop_entries_polish entries : forall i,
  m = polish -> entries_after (loop w m i entries) = entries.
Proof.
  intros i Hm. pose proof (loop_entries entries i) as H.
  induction H as [|e e' l l' [->|(Hm' & _)] _ IH]; [done| |congruence].
  by rewrite IH.
Qed.

Lemma client_call_made i entry :
  (client_call w m i entry).1 = call_polish (translation entry)
  \/ (client_call w m i entry).1
     = call_translate (original entry) (context entry) (field entry).
Proof. unfold client_call. destruct m; [by right | by left]. Qed.

(** The ids of the completions, in the order of the chunk. *)
Lemma loop_done_ids entries : forall i,
  sublist (Pool.done_ids (effects (loop w m i entries))) (map id entries).
Proof.
  unfold effects.
  induction entries as [|entry rest IH]; intros i; simpl; [constructor|].
  destruct (cancelled w i); [apply sublist_nil_l|].
  destruct (skip_test m entry) as [[entry' text]|] eqn:Hskip.
  - specialize (IH (S i)).
    destruct (loop w m (S i) rest) as [[effs es] r]. simpl in *.
    by apply sublist_cons.
  - pose proof (client_call_made i entry) as Hmade.
    destruct (client_call w m i entry) as [made reply]. simpl in Hmade.
    specialize (IH (S i)).
    destruct reply as [e|result]; [destruct (caught e)|];
      try destruct (loop w m (S i) rest) as [[effs es] r];
      destruct Hmade as [-> | ->]; simpl in *;
      first [ by apply sublist_skip | by apply sublist_cons
            | apply sublist_nil_l ].
Qed.
(** The client is called for items that need it only. *)
Lemma skip_test_none_call i entry :
  skip_test m entry = None ->
  Pool.call_for m [entry] (client_call w m i entry).1.
Proof.
  unfold skip_test, client_call. destruct m eqn:Hm; simpl.
  - destruct (bool_decide (entry_status entry = translated)
              || bool_decide (entry_status entry = reviewed)
              || bool_decide (entry_status entry = skipped)) eqn:Hdone;
      [done|].
    rewrite truthy_strip, negb_involutive.
    destruct (forallb Py.isspace (original entry)) eqn:Hblank; [done|].
    intros _. split; [done|]. exists entry. repeat split; try done; [left|].
    by destruct (entry_status entry).
  - rewrite truthy_strip, negb_involutive.
    destruct (Py.truthy (translation entry)); simpl; [|done].
    destruct (forallb Py.isspace (translation entry)) eqn:Hblank; [done|].
    intros _. split; [done|]. exists entry. repeat split; try done. left.
Qed.

Lemma call_for_more entries entries' f :
  entries ⊆ entries' -> Pool.call_for m entries f -> Pool.call_for m entries' f.
Proof.
  intros Hsub. destruct f as [s|text ctx fld|text]; simpl; [done| |].
  - intros (Hm & e & He & H). split; [done|]. exists e. split; [|done].
    by apply Hsub.
  - intros (Hm & e & He & H). split; [done|]. exists e. split; [|done].
    by apply Hsub.
Qed.

Lemma loop_calls entries : forall i,
  Forall (Pool.call_for m entries) (effects (loop w m i entries)).
Proof.
  unfold effects.
  induction entries as [|entry rest IH]; intros i; simpl; [constructor|].
  destruct (cancelled w i); [constructor|].
  assert (Hrest : forall effs, Forall (Pool.call_for m rest) effs ->
            Forall (Pool.call_for m (entry :: rest)) effs).
  { intros effs H. eapply Forall_impl; [exact H|]. intros f.
    apply call_for_more. by apply list_subseteq_cons. }
  destruct (skip_test m entry) as [[entry' text]|] eqn:Hskip.
  - specialize (IH (S i)).
    destruct (loop w m (S i) rest) as [[effs es] r]. simpl in *.
    constructor; [done|by apply Hrest].
  - pose proof (skip_test_none_call i entry Hskip) as Hcall.
    apply (call_for_more [entry] (entry :: rest)) in Hcall;
      [|apply list_subseteq_skip, list_subseteq_nil].
    destruct (client_call w m i entry) as [made reply]. simpl in Hcall.
    specialize (IH (S i)).
    destruct reply as [e|result]; [destruct (caught e)|];
      try destruct (loop w m (S i) rest) as [[effs es] r]; simpl in *;
      repeat (constructor; try done); by apply Hrest.
Qed.

(** How often the loop reports, calls, completes and fails. *)
Lemma loop_counts entries : forall i,
  let effs := effects (loop w m i entries) in
  (count_of Pool.eff_item_processed effs <= length entries
   /\ count_of Pool.eff_call effs <= count_of Pool.eff_item_processed effs
   /\ count_of Pool.eff_entry_done effs + count_of Pool.eff_error effs
      <= count_of Pool.eff_call effs
   /\ (raised (loop w m i entries) = None ->
       count_of Pool.eff_entry_done effs + count_of Pool.eff_error effs
       = count_of Pool.eff_call effs)
   /\ (raised (loop w m i entries) = None ->
       (forall j, cancelled w j = false) ->
       count_of Pool.eff_item_processed effs = length entries))%nat.
Proof.
  unfold effects, raised.
  induction entries as [|entry rest IH]; intros i; cbv zeta in *; cbn [loop].
  - unfold count_of. simpl. repeat split; lia.
  - destruct (cancelled w i) eqn:Hcancel.
    { unfold count_of. simpl. repeat split; try lia. intros _ Hnever.
      rewrite Hnever in Hcancel. discriminate. }
    destruct (skip_test m entry) as [[entry' text]|] eqn:Hskip.
    + specialize (IH (S i)).
      destruct (loop w m (S i) rest) as [[effs es] r]. cbn [fst snd] in *.
      rewrite !count_of_cons. simpl.
      destruct IH as (H1 & H2 & H3 & H4 & H5).
      repeat split; try lia; intros; [apply H4 | rewrite H5]; done.
    + pose proof (client_call_made i entry) as Hmade.
      destruct (client_call w m i entry) as [made reply]. simpl in Hmade.
      assert (Hcall : Pool.eff_call made = true
                      /\ Pool.eff_item_processed made = false
                      /\ Pool.eff_entry_done made = false
                      /\ Pool.eff_error made = false)
        by (by destruct Hmade as [-> | ->]).
      destruct Hcall as (Hc1 & Hc2 & Hc3 & Hc4).
      specialize (IH (S i)).
      destruct reply as [e|result]; [destruct (caught e)|].
      * destruct (loop w m (S i) rest) as [[effs es] r]. cbn [fst snd] in *.
        rewrite !count_of_cons, Hc1, Hc2, Hc3, Hc4. simpl.
        destruct IH as (H1 & H2 & H3 & H4 & H5).
        repeat split; try lia; intros.
        -- rewrite <- H4 by done. lia.
        -- rewrite H5 by done. lia.
      * cbn [fst snd].
        rewrite !count_of_cons, Hc1, Hc2, Hc3, Hc4. unfold count_of. simpl.
        repeat split; try lia; discriminate.
      * destruct (loop w m (S i) rest) as [[effs es] r]. cbn [fst snd] in *.
        rewrite !count_of_cons, Hc1, Hc2, Hc3, Hc4. simpl.
        destruct IH as (H1 & H2 & H3 & H4 & H5).
        repeat split; try lia; intros.
        -- rewrite <- H4 by done. lia.
        -- rewrite H5 by done. lia.
Qed.

(** A flag first seen set before item [n] of the rest: the loop is the loop
    over the first [n] items, and the other items are left as they are. *)
Lemma loop_cancelled entries : forall i n,
  cancelled w (i + n) = true ->
  (forall j, (i <= j < i + n)%nat -> cancelled w j = false) ->
  loop w m i entries
  = (effects (loop w m i (take n entries)),
     entries_after (loop w m i (take n entries)) ++ drop n entries,
     raised (loop w m i (take n entries))).
Proof.
  unfold effects, entries_after, raised.
  induction entries as [|entry rest IH]; intros i n Hset Hclear.
  - by rewrite take_nil, drop_nil.
  - destruct n as [|n].
    + rewrite Nat.add_0_r in Hset. simpl. by rewrite Hset.
    + simpl. rewrite (Hclear i) by lia.
      assert (Hnext : loop w m (S i) rest
                = ((loop w m (S i) (take n rest)).1.1,
                   (loop w m (S i) (take n rest)).1.2 ++ drop n rest,
                   (loop w m (S i) (take n rest)).2)).
      { apply IH; [by rewrite Nat.add_succ_comm|]. intros j Hj.
        apply Hclear. lia. }
      destruct (skip_test m entry) as [[entry' text]|].
      * rewrite Hnext.
        by destruct (loop w m (S i) (take n rest)) as [[effs es] r].
      * destruct (client_call w m i entry) as [made reply].
        destruct reply as [e|result]; [destruct (caught e)|];
          rewrite ?Hnext;
          try (by destruct (loop w m (S i) (take n rest)) as [[effs es] r]).
        simpl. by rewrite take_drop.
Qed.
End WorkerRun.


(** [run] is the loop, and [finished] after it unless an exception left. *)
Lemma run_as_loop (w : TranslationWorker.env) (m : TranslationWorker.mode)
    (entries : list TranslationEntry) :
  let l := TranslationWorker.loop w m 0 entries in
  TranslationWorker.effects (TranslationWorker.run w m entries)
  = TranslationWorker.effects l
    ++ match TranslationWorker.raised l with
       | None => [TranslationWorker.emit TranslationWorker.finished]
       | Some _ => []
       end
  /\ TranslationWorker.entries_after (TranslationWorker.run w m entries)
     = TranslationWorker.entries_after l
  /\ TranslationWorker.raised (TranslationWorker.run w m entries)
     = TranslationWorker.raised l.
Proof.
  cbv zeta. unfold TranslationWorker.run, TranslationWorker.effects,
    TranslationWorker.entries_after, TranslationWorker.raised.
  destruct (TranslationWorker.loop w m 0 entries) as [[effs es] [e|]]; simpl;
    by rewrite ?app_nil_r.
Qed.

(** X9. A run of a worker leaves every entry of its chunk as it was, except
    that in translate mode an untranslated entry whose source text is empty
    or all whitespace gets the status skipped: the worker writes no
    translation and no other status, and in polish mode it writes nothing. *)
Theorem worker_writes_skipped_only
    (w : TranslationWorker.env) (m : TranslationWorker.mode)
    (entries : list TranslationEntry) :
  Forall2 (Pool.kept_or_skipped m) entries
    (TranslationWorker.entries_after (TranslationWorker.run w m entries))
  /\ (m = TranslationWorker.polish ->
      TranslationWorker.entries_after (TranslationWorker.run w m entries)
      = entries).
Proof.
  destruct (run_as_loop w m entries) as (_ & -> & _). split.
  - apply loop_entries.
  - apply loop_entries_polish.
Qed.

(** X10. The completions of a worker come in the order of its chunk: the ids
    of its [entry_done] signals are a sublist of the ids of the chunk, no
    item completing twice or out of turn. *)
Theorem worker_completions_in_order
    (w : TranslationWorker.env) (m : TranslationWorker.mode)
    (entries : list TranslationEntry) :
  sublist
    (Pool.done_ids (TranslationWorker.effects (TranslationWorker.run w m entries)))
    (map id entries).
Proof.
  destruct (run_as_loop w m entries) as (-> & _ & _).
  unfold Pool.done_ids. rewrite omap_app.
  replace (omap _ (match TranslationWorker.raised _ with
                   | None => _ | Some _ => _ end)) with (@nil Py.str)
    by (by destruct (TranslationWorker.raised _)).
  rewrite app_nil_r. apply loop_done_ids.
Qed.

(** X11. A worker calls the client for items that need it only: in
    translate mode every call is a [translate] call with the source text,
    context and field of an untranslated entry of the chunk whose source text
    is not blank; in polish mode every call is a [polish] call with the
    translation of an entry of the chunk, and that translation is not
    blank. *)
Theorem worker_calls_for_work_only
    (w : TranslationWorker.env) (m : TranslationWorker.mode)
    (entries : list TranslationEntry) :
  Forall (Pool.call_for m entries)
    (TranslationWorker.effects (TranslationWorker.run w m entries)).
Proof.
  destruct (run_as_loop w m entries) as (-> & _ & _).
  apply Forall_app. split; [apply loop_calls|].
  destruct (TranslationWorker.raised _); by repeat constructor.
Qed.

(** X12. A run that no exception leaves has one [entry_done] or one [error]
    for every client call, never both; it reports no more items than the
    chunk has, and calls the client for no more items than it reports.  If
    moreover the flag is never seen set, it reports every item of the chunk
    once. *)
Theorem worker_accounts_for_items
    (w : TranslationWorker.env) (m : TranslationWorker.mode)
    (entries : list TranslationEntry) :
  let o := TranslationWorker.run w m entries in
  let effs := TranslationWorker.effects o in
  (count_of Pool.eff_item_processed effs <= length entries
   /\ count_of Pool.eff_call effs <= count_of Pool.eff_item_processed effs
   /\ (TranslationWorker.raised o = None ->
       count_of Pool.eff_entry_done effs + count_of Pool.eff_error effs
       = count_of Pool.eff_call effs)
   /\ (TranslationWorker.raised o = None ->
       (forall j, TranslationWorker.cancelled w j = false) ->
       count_of Pool.eff_item_processed effs = length entries))%nat.
Proof.
  cbv zeta. destruct (run_as_loop w m entries) as (-> & _ & ->).
  destruct (loop_counts w m entries 0%nat) as (H1 & H2 & H3 & H4 & H5).
  rewrite !count_of_app.
  assert (Htail : forall p,
            p (TranslationWorker.emit TranslationWorker.finished) = false ->
            count_of p (match TranslationWorker.raised
                                (TranslationWorker.loop w m 0 entries) with
                        | None => [TranslationWorker.emit TranslationWorker.finished]
                        | Some _ => []
                        end) = 0%nat).
  { intros p Hp. destruct (TranslationWorker.raised _); [done|].
    by rewrite count_of_cons, Hp. }
  rewrite !Htail by done. rewrite !Nat.add_0_r.
  repeat split; try lia; intros.
  - by apply H4.
  - by apply H5.
Qed.

(** X13. A run in which the flag is first seen set before item [n] is the
    run of the first [n] items: the same effects, [finished] included, and
    the items from [n] on are left untouched. *)
Theorem worker_cancelled_run
    (w : TranslationWorker.env) (m : TranslationWorker.mode)
    (entries : list TranslationEntry) (n : nat) :
  TranslationWorker.cancelled w n = true ->
  (forall j, (j < n)%nat -> TranslationWorker.cancelled w j = false) ->
  let whole := TranslationWorker.run w m entries in
  let part := TranslationWorker.run w m (take n entries) in
  TranslationWorker.effects whole = TranslationWorker.effects part
  /\ TranslationWorker.entries_after whole
     = TranslationWorker.entries_after part ++ drop n entries
  /\ TranslationWorker.raised whole = TranslationWorker.raised part.
Proof.
  intros Hset Hclear. cbv zeta.
  destruct (run_as_loop w m entries) as (-> & -> & ->).
  destruct (run_as_loop w m (take n entries)) as (-> & -> & ->).
  rewrite (loop_cancelled w m entries 0 n Hset)
    by (intros j Hj; apply Hclear; lia).
  done.
Qed.

Lemma worker_cancelled_run_witness :
  TranslationWorker.effects
    (TranslationWorker.run Sample.flaky_cancelled TranslationWorker.translate
       [Sample.e1; Sample.e2; Sample.e3])
  = TranslationWorker.effects
      (TranslationWorker.run Sample.flaky_cancelled TranslationWorker.translate
         (take 2 [Sample.e1; Sample.e2; Sample.e3])).
Proof.
  assert (H : forall j, (j < 2)%nat ->
            TranslationWorker.cancelled Sample.flaky_cancelled j = false).
  { intros [|[|j]] Hj; [reflexivity | reflexivity | lia]. }
  exact (proj1 (worker_cancelled_run Sample.flaky_cancelled
                  TranslationWorker.translate
                  [Sample.e1; Sample.e2; Sample.e3] 2 eq_refl H)).
Defined.

(** ** The engine: progress and the end of a run *)

Section Tally.
Import TranslationEngine.

Lemma omap_snoc {A B} (f : A -> option B) (l : list A) (x : A) :
  omap f (l ++ [x]) = omap f l ++ match f x with Some y => [y] | None => [] end.
Proof. rewrite omap_app. simpl. by destruct (f x). Qed.

(** What one delivered signal does to the progress report. *)
Lemma deliver_progress (st : engine) (s : TranslationWorker.signal) :
  Pool.progress_of (emitted (deliver st s))
  = Pool.progress_of (emitted st)
    ++ match s with
       | TranslationWorker.item_processed text =>
           [(_progress_count st + 1, _total st, text)]
       | _ => []
       end
  /\ _progress_count (deliver st s)
     = _progress_count st + (if Pool.is_item_processed s then 1 else 0)
  /\ _total (deliver st s) = _total st.
Proof.
  unfold Pool.progress_of.
  destruct s as [i t|text| |i msg]; simpl.
  - unfold _on_entry_done. simpl.
    destruct (_ =? 0); simpl; rewrite ?omap_app; simpl;
      rewrite ?app_nil_r; repeat split; lia.
  - rewrite omap_app. by repeat split.
  - unfold _on_worker_finished.
    destruct (_ <=? _); simpl; rewrite ?omap_app; simpl;
      rewrite ?app_nil_r; repeat split; lia.
  - rewrite omap_app. simpl. rewrite app_nil_r. repeat split; lia.
Qed.

Lemma deliver_all_progress (sigs : list TranslationWorker.signal) :
  forall st : engine,
    Pool.progress_of (emitted (deliver_all st sigs))
    = Pool.progress_of (emitted st)
      ++ imap (fun k text =>
                 (_progress_count st + Z.of_nat k + 1, _total st, text))
              (Pool.texts_of sigs)
    /\ _progress_count (deliver_all st sigs)
       = _progress_count st + Py.len (Pool.texts_of sigs)
    /\ _total (deliver_all st sigs) = _total st.
Proof.
  induction sigs as [|s sigs IH]; intros st.
  - simpl. rewrite app_nil_r. unfold Py.len. simpl. repeat split; lia.
  - unfold deliver_all in *. cbn [fold_left].
    destruct (IH (deliver st s)) as (Hp & Hc & Ht).
    destruct (deliver_progress st s) as (Hp1 & Hc1 & Ht1).
    rewrite Hp, Hc, Ht, Hp1, Hc1, Ht1.
    destruct s as [i t|text| |i msg]; simpl;
      rewrite ?app_nil_r, ?Z.add_0_r; try (by repeat split).
    rewrite <- app_assoc. simpl. split; [|split; [|done]].
    + f_equal. f_equal; [repeat f_equal; lia..|].
      apply imap_ext. intros k x _. simpl. do 2 f_equal. lia.
    + unfold Py.len. simpl length. lia.
Qed.

(** A signal that is not the [finished] of a worker leaves the tally. *)
Lemma deliver_other (st : engine) (s : TranslationWorker.signal) :
  Pool.is_worker_finished s = false ->
  _workers (deliver st s) = _workers st
  /\ _threads (deliver st s) = _threads st
  /\ _finished_workers (deliver st s) = _finished_workers st
  /\ count_of is_finished (emitted (deliver st s))
     = count_of is_finished (emitted st).
Proof.
  destruct s as [i t|text| |i msg]; simpl; intros Hs; try done.
  - unfold _on_entry_done. simpl.
    destruct (_ =? 0); simpl; rewrite ?count_of_app; unfold count_of; simpl;
      repeat split; lia.
  - rewrite count_of_app. unfold count_of. simpl. repeat split; lia.
  - rewrite count_of_app. unfold count_of. simpl. repeat split; lia.
Qed.

Lemma tally_none (sigs : list TranslationWorker.signal) :
  forall st : engine,
    count_of Pool.is_worker_finished sigs = 0%nat ->
    _workers (deliver_all st sigs) = _workers st
    /\ _threads (deliver_all st sigs) = _threads st
    /\ _finished_workers (deliver_all st sigs) = _finished_workers st
    /\ count_of is_finished (emitted (deliver_all st sigs))
       = count_of is_finished (emitted st).
Proof.
  induction sigs as [|s sigs IH]; intros st Hk; [done|].
  rewrite count_of_cons in Hk.
  destruct (Pool.is_worker_finished s) eqn:Hs; [simpl in Hk; lia|].
  unfold deliver_all in *. cbn [fold_left].
  destruct (IH (deliver st s) Hk) as (-> & -> & -> & ->).
  by apply deliver_other.
Qed.

(** Fewer [finished] signals than workers still out: the run goes on. *)
Lemma tally_short (sigs : list TranslationWorker.signal) :
  forall st : engine,
    _finished_workers st
      + Z.of_nat (count_of Pool.is_worker_finished sigs)
    < Py.len (_workers st) ->
    _workers (deliver_all st sigs) = _workers st
    /\ _threads (deliver_all st sigs) = _threads st
    /\ _finished_workers (deliver_all st sigs)
       = _finished_workers st
         + Z.of_nat (count_of Pool.is_worker_finished sigs)
    /\ count_of is_finished (emitted (deliver_all st sigs))
       = count_of is_finished (emitted st).
Proof.
  induction sigs as [|s sigs IH]; intros st Hk.
  - unfold count_of. simpl. repeat split; lia.
  - rewrite count_of_cons in *. unfold deliver_all in *. cbn [fold_left].
    destruct (Pool.is_worker_finished s) eqn:Hs.
    + destruct s; try done. simpl deliver. unfold _on_worker_finished.
      destruct (Z.leb_spec (Py.len (_workers st)) (_finished_workers st + 1));
        [lia|].
      match goal with |- context [fold_left deliver sigs ?st1] =>
        destruct (IH st1) as (-> & -> & -> & ->) end; simpl; [lia|].
      repeat split; lia.
    + destruct (deliver_other st s Hs) as (Hw & Ht & Hf & He).
      destruct (IH (deliver st s)) as (-> & -> & -> & ->);
        [rewrite Hw, Hf; simpl in Hk; lia|].
      rewrite Hw, Ht, Hf, He. simpl. repeat split; lia.
Qed.

(** As many [finished] signals as workers still out: at the last of them the
    engine emits [finished] and is idle. *)
Lemma tally_full (sigs : list TranslationWorker.signal) :
  forall st : engine,
    _finished_workers st < Py.len (_workers st) ->
    _finished_workers st
      + Z.of_nat (count_of Pool.is_worker_finished sigs)
    = Py.len (_workers st) ->
    _workers (deliver_all st sigs) = []
    /\ _threads (deliver_all st sigs) = []
    /\ count_of is_finished (emitted (deliver_all st sigs))
       = S (count_of is_finished (emitted st)).
Proof.
  induction sigs as [|s sigs IH]; intros st Hout Hk.
  - unfold count_of in Hk. simpl in Hk. lia.
  - rewrite count_of_cons in Hk. unfold deliver_all in *. cbn [fold_left].
    destruct (Pool.is_worker_finished s) eqn:Hs.
    + destruct s; try done. simpl deliver. unfold _on_worker_finished.
      destruct (Z.leb_spec (Py.len (_workers st)) (_finished_workers st + 1)).
      * match goal with |- context [fold_left deliver sigs ?st1] =>
          pose proof (tally_none sigs st1) as Hnone end.
        unfold deliver_all in Hnone.
        destruct Hnone as (-> & -> & _ & ->); [simpl in Hk; lia|].
        simpl. rewrite count_of_app. unfold count_of at 2. simpl.
        repeat split; lia.
      * match goal with |- context [fold_left deliver sigs ?st1] =>
          destruct (IH st1) as (-> & -> & ->) end; simpl; try lia.
        done.
    + destruct (deliver_other st s Hs) as (Hw & Ht & Hf & He).
      destruct (IH (deliver st s)) as (-> & -> & ->);
        [rewrite Hw, Hf; lia | rewrite Hw, Hf; simpl in Hk; lia|].
      by rewrite He.
Qed.
End Tally.

(** X14. The engine numbers the items processed by all workers in the order
    their signals arrive: the [k]-th [item_processed] it receives is
    reported as [progress(c + k, total, text)] with the text of that signal,
    [c] being the count before; no other signal is reported as progress, and
    the total stays what it was. *)
Theorem progress_is_numbered
    (st : TranslationEngine.engine) (sigs : list TranslationWorker.signal) :
  let st' := TranslationEngine.deliver_all st sigs in
  Pool.progress_of (TranslationEngine.emitted st')
  = Pool.progress_of (TranslationEngine.emitted st)
    ++ imap (fun k text =>
               (TranslationEngine._progress_count st + Z.of_nat k + 1,
                TranslationEngine._total st, text))
            (Pool.texts_of sigs)
  /\ TranslationEngine._progress_count st'
     = TranslationEngine._progress_count st + Py.len (Pool.texts_of sigs)
  /\ TranslationEngine._total st' = TranslationEngine._total st.
Proof. apply deliver_all_progress. Qed.

(** X15. In a run with [n] workers, the engine keeps its threads and workers
    and emits no [finished] as long as fewer than [n] workers have signalled
    [finished]; with the [n]-th such signal it quits the threads, forgets
    the workers, emits [finished] once, and is idle again. *)
Theorem engine_finishes_with_last_worker
    (st : TranslationEngine.engine) (sigs : list TranslationWorker.signal) :
  TranslationEngine._finished_workers st = 0 ->
  1 <= Py.len (TranslationEngine._workers st) ->
  let st' := TranslationEngine.deliver_all st sigs in
  let k := Z.of_nat (count_of Pool.is_worker_finished sigs) in
  (k < Py.len (TranslationEngine._workers st) ->
     TranslationEngine._workers st' = TranslationEngine._workers st
     /\ TranslationEngine._threads st' = TranslationEngine._threads st
     /\ TranslationEngine.is_running st' = TranslationEngine.is_running st
     /\ count_of TranslationEngine.is_finished (TranslationEngine.emitted st')
        = count_of TranslationEngine.is_finished (TranslationEngine.emitted st))
  /\ (k = Py.len (TranslationEngine._workers st) ->
      TranslationEngine._workers st' = []
      /\ TranslationEngine._threads st' = []
      /\ TranslationEngine.is_running st' = false
      /\ count_of TranslationEngine.is_finished (TranslationEngine.emitted st')
         = S (count_of TranslationEngine.is_finished
                (TranslationEngine.emitted st))).
Proof.
  intros Hzero Hsome. cbv zeta. split; intros Hk.
  - destruct (tally_short sigs st) as (Hw & Ht & _ & He); [lia|].
    unfold TranslationEngine.is_running. by rewrite Hw, Ht, He.
  - destruct (tally_full sigs st) as (Hw & Ht & He); [lia|lia|].
    unfold TranslationEngine.is_running. by rewrite Hw, Ht, He.
Qed.

Lemma engine_finishes_with_last_worker_witness :
  TranslationEngine.is_running
    (TranslationEngine.deliver_all Sample.busy
       [TranslationWorker.finished;
        TranslationWorker.item_processed [];
        TranslationWorker.finished]) = false.
Proof.
  exact (proj1 (proj2 (proj2
           (proj2 (engine_finishes_with_last_worker Sample.busy
                     [TranslationWorker.finished;
                      TranslationWorker.item_processed [];
                      TranslationWorker.finished]
                     eq_refl ltac:(discriminate)) eq_refl)))).
Defined.

(** ** Workers and engine together *)

Section PoolRun.
Import TranslationEngine.

Lemma count_of_perm {A} (p : A -> bool) (l1 l2 : list A) :
  l1 ≡ₚ l2 -> count_of p l1 = count_of p l2.
Proof.
  induction 1 as [|x l1 l2 _ IH|x y l|l1 l2 l3 _ IH1 _ IH2].
  - done.
  - by rewrite !count_of_cons, IH.
  - rewrite !count_of_cons. lia.
  - congruence.
Qed.

Lemma count_of_signals (p : TranslationWorker.signal -> bool)
    (effs : list TranslationWorker.effect) :
  count_of p (Pool.signals_of effs)
  = count_of (fun f => match f with
                       | TranslationWorker.emit s => p s
                       | _ => false
                       end) effs.
Proof.
  induction effs as [|f effs IH]; [done|].
  rewrite count_of_cons. destruct f as [s| |]; simpl; try done.
  by rewrite count_of_cons, IH.
Qed.

Lemma count_of_ext {A} (p q : A -> bool) (l : list A) :
  (forall x, p x = q x) -> count_of p l = count_of q l.
Proof.
  intros Hpq. induction l as [|x l IH]; [done|].
  by rewrite !count_of_cons, Hpq, IH.
Qed.

Lemma texts_count (sigs : list TranslationWorker.signal) :
  length (Pool.texts_of sigs) = count_of Pool.is_item_processed sigs.
Proof.
  induction sigs as [|s sigs IH]; [done|].
  rewrite count_of_cons. destruct s; simpl; by rewrite ?IH.
Qed.

(** What one worker of the engine sends, under the contract of the client. *)
Lemma worker_signal_counts (w : TranslationWorker.env) (wk : worker) :
  TranslationWorker.client_errors_only w ->
  count_of Pool.is_worker_finished (Pool.worker_signals w wk) = 1%nat
  /\ (count_of Pool.is_item_processed (Pool.worker_signals w wk)
      <= length (w_entries wk))%nat
  /\ ((forall j, TranslationWorker.cancelled w j = false) ->
      count_of Pool.is_item_processed (Pool.worker_signals w wk)
      = length (w_entries wk)).
Proof.
  intros Hc. unfold Pool.worker_signals. rewrite !count_of_signals.
  destruct (run_as_loop w (w_mode wk) (w_entries wk)) as (-> & _ & _).
  destruct (loop_quiet w (w_mode wk) (w_entries wk) Hc 0%nat) as [Hr Hq].
  destruct (loop_counts w (w_mode wk) (w_entries wk) 0%nat)
    as (H1 & _ & _ & _ & H5).
  rewrite Hr, !count_of_app.
  rewrite (count_of_ext _ TranslationWorker.is_finished)
    by (by intros [[]| |]).
  rewrite (count_of_ext (fun f => match f with
                                  | TranslationWorker.emit s =>
                                      Pool.is_item_processed s
                                  | _ => false
                                  end) Pool.eff_item_processed)
    by (by intros [[]| |]).
  rewrite (count_of_none TranslationWorker.is_finished) by done.
  unfold count_of at 1 3 5. simpl. rewrite !Nat.add_0_r.
  split; [done|]. split; [done|]. intros Hnever. by apply H5.
Qed.

(** What all workers send together. *)
Lemma pool_signal_counts (envs : list TranslationWorker.env) :
  forall workers : list worker,
    length envs = length workers ->
    Forall TranslationWorker.client_errors_only envs ->
    let sigs := concat (zip_with Pool.worker_signals envs workers) in
    count_of Pool.is_worker_finished sigs = length workers
    /\ (count_of Pool.is_item_processed sigs
        <= length (concat (map w_entries workers)))%nat
    /\ (Forall (fun w => forall j, TranslationWorker.cancelled w j = false) envs ->
        count_of Pool.is_item_processed sigs
        = length (concat (map w_entries workers))).
Proof.
  induction envs as [|w envs IH]; intros [|wk workers] Hlen Hc; try done.
  cbv zeta. simpl. rewrite !count_of_app, length_app.
  apply Forall_cons in Hc as [Hw Hc].
  destruct (IH workers ltac:(by injection Hlen) Hc) as (H1 & H2 & H3).
  destruct (worker_signal_counts w wk Hw) as (G1 & G2 & G3).
  rewrite G1, H1. split; [done|]. split; [lia|].
  intros Hnever. apply Forall_cons in Hnever as [Hn Hnever].
  by rewrite G3, H3.
Qed.
End PoolRun.

Lemma pool_completes (m : TranslationWorker.mode)
    (eligible : list TranslationEntry) (st : TranslationEngine.engine)
    (envs : list TranslationWorker.env)
    (sigs : list TranslationWorker.signal) :
  let st0 := TranslationEngine.start_workers m eligible st in
  length envs = length (TranslationEngine._workers st0) ->
  Forall TranslationWorker.client_errors_only envs ->
  sigs ≡ₚ concat (zip_with Pool.worker_signals envs
                    (TranslationEngine._workers st0)) ->
  let st1 := TranslationEngine.deliver_all st0 sigs in
  TranslationEngine.is_running st1 = false
  /\ TranslationEngine._workers st1 = []
  /\ count_of TranslationEngine.is_finished (TranslationEngine.emitted st1)
     = S (count_of TranslationEngine.is_finished (TranslationEngine.emitted st))
  /\ TranslationEngine._total st1 = Py.len eligible
  /\ TranslationEngine._progress_count st1 <= Py.len eligible
  /\ TranslationEngine._translate_count st1
     = Z.of_nat (count_of TranslationEngine.is_entry_done sigs)
  /\ (Forall (fun w => forall j, TranslationWorker.cancelled w j = false) envs ->
      TranslationEngine._progress_count st1 = Py.len eligible).
Proof.
  intros st0 Hlen Hc Hperm st1.
  destruct (start_workers_spec m eligible st)
    as (Hn & Hchunks & _ & _ & Htotal & Hpc & Htc & Hfw & Hem).
  fold st0 in Hn, Hchunks, Htotal, Hpc, Htc, Hfw, Hem.
  destruct (pool_signal_counts envs (TranslationEngine._workers st0) Hlen Hc)
    as (Hk & Hle & Heq).
  rewrite <- (count_of_perm Pool.is_worker_finished _ _ Hperm) in Hk.
  rewrite <- (count_of_perm Pool.is_item_processed _ _ Hperm) in Hle, Heq.
  rewrite Hchunks in Hle, Heq.
  destruct (tally_full sigs st0) as (Hw & Ht & Hfin);
    [lia | rewrite Hk, Hfw; unfold Py.len; lia|].
  destruct (deliver_all_progress sigs st0) as (_ & Hprog & Htot).
  destruct (deliver_all_counts sigs st0) as (Hdone & _).
  fold st1 in Hw, Ht, Hfin, Hprog, Htot, Hdone.
  rewrite Hpc in Hprog. rewrite Htc in Hdone. rewrite Hem in Hfin.
  unfold Py.len in *. rewrite texts_count in Hprog.
  split; [unfold TranslationEngine.is_running; by rewrite Ht|].
  split; [done|]. split; [done|]. split; [congruence|].
  split; [lia|]. split; [lia|]. intros Hnever. rewrite Hprog, Heq by done. lia.
Qed.

(** X16. A run to its end.  On an idle engine [translate_batch] finds work
    and starts its workers; each worker runs its chunk with a client that
    keeps its contract, cancelled or not; the engine handles the signals of
    all workers in whatever order they interleave.  Then the engine emits
    [finished] exactly once and is idle again, with no worker left; it has
    reported progress for no more items than the eligible entries, for all
    of them if no worker saw the flag set; and its completion counter is the
    number of [entry_done] signals. *)
Theorem batch_run_completes
    (entries : list TranslationEntry) (st : TranslationEngine.engine)
    (envs : list TranslationWorker.env)
    (sigs : list TranslationWorker.signal) :
  TranslationEngine.is_running st = false ->
  TranslationEngine.to_translate_of entries <> [] ->
  let st0 := TranslationEngine.translate_batch entries st in
  length envs = length (TranslationEngine._workers st0) ->
  Forall TranslationWorker.client_errors_only envs ->
  sigs ≡ₚ concat (zip_with Pool.worker_signals envs
                    (TranslationEngine._workers st0)) ->
  let st1 := TranslationEngine.deliver_all st0 sigs in
  let eligible := Py.len (TranslationEngine.to_translate_of entries) in
  TranslationEngine.is_running st1 = false
  /\ TranslationEngine._workers st1 = []
  /\ count_of TranslationEngine.is_finished (TranslationEngine.emitted st1)
     = S (count_of TranslationEngine.is_finished (TranslationEngine.emitted st))
  /\ TranslationEngine._total st1 = eligible
  /\ TranslationEngine._progress_count st1 <= eligible
  /\ TranslationEngine._translate_count st1
     = Z.of_nat (count_of TranslationEngine.is_entry_done sigs)
  /\ (Forall (fun w => forall j, TranslationWorker.cancelled w j = false) envs ->
      TranslationEngine._progress_count st1 = eligible).
Proof.
  intros Hidle Hwork. cbv zeta.
  rewrite (proj1 (idle_call_starts_workers entries st Hidle) Hwork).
  apply pool_completes.
Qed.

Lemma batch_run_completes_witness :
  let st0 := TranslationEngine.translate_batch
               [Sample.e1; Sample.e2; Sample.e3] TranslationEngine.init in
  let sigs := concat (zip_with Pool.worker_signals
                        [Sample.flaky; Sample.flaky_cancelled]
                        (TranslationEngine._workers st0)) in
  TranslationEngine.is_running (TranslationEngine.deliver_all st0 sigs) = false.
Proof.
  assert (H1 : TranslationWorker.client_errors_only Sample.flaky).
  { split; simpl.
    - intros [|[|i]] text ctx fld e He; by inversion He.
    - intros [|[|i]] text e He; by inversion He. }
  assert (H2 : TranslationWorker.client_errors_only Sample.flaky_cancelled).
  { split; simpl.
    - intros [|[|i]] text ctx fld e He; by inversion He.
    - intros [|[|i]] text e He; by inversion He. }
  exact (proj1 (batch_run_completes [Sample.e1; Sample.e2; Sample.e3]
                  TranslationEngine.init
                  [Sample.flaky; Sample.flaky_cancelled]
                  _ eq_refl ltac:(discriminate) eq_refl
                  (Forall_cons_2 _ _ _ H1 (Forall_cons_2 _ _ _ H2 (Forall_nil_2 _)))
                  (reflexivity _))).
Defined.

(** ** The calibration run: the ways out before the tournament *)

(** X17. A calibration run with a cloud client reports 30, and one with a
    local client and fewer than 107 eligible entries reports 1; in both
    cases [finished] is the only signal, the cancellation flag is not read,
    the client is not called and nothing is consumed. *)
Theorem calibration_skipped
    (w : AutoTunerWorker.env) (entries : list TranslationEntry) :
  let report n :=
    (inr tt,
     {| AutoTunerWorker._consumed := 0;
        AutoTunerWorker.emitted := [AutoTunerWorker.finished n];
        AutoTunerWorker.reads := 0; AutoTunerWorker.calls := 0;
        AutoTunerWorker.batches := [] |}) in
  (AutoTunerWorker.is_cloud w = inr true ->
     AutoTunerWorker.run w entries AutoTunerWorker.init = report 30)
  /\ (AutoTunerWorker.is_cloud w = inr false ->
      Py.len (AutoTunerWorker.eligible entries) < AutoTunerWorker.MIN_ENTRIES ->
      AutoTunerWorker.run w entries AutoTunerWorker.init = report 1).
Proof.
  cbv zeta. unfold AutoTunerWorker.run, AutoTunerWorker.try_except,
    AutoTunerWorker._run_impl, AutoTunerWorker.bind,
    AutoTunerWorker.getattr_is_cloud.
  split.
  - by intros ->.
  - intros -> Hfew. apply Z.ltb_lt in Hfew. by rewrite Hfew.
Qed.

Lemma calibration_skipped_witness :
  AutoTunerWorker.emitted
    (AutoTunerWorker.run Sample.steady (Sample.backlog 106)
       AutoTunerWorker.init).2
  = [AutoTunerWorker.finished 1].
Proof.
  rewrite (proj2 (calibration_skipped Sample.steady (Sample.backlog 106))
             eq_refl eq_refl).
  reflexivity.
Defined.

Lemma warmup_skipped_when_cancelled
    (w : AutoTunerWorker.env) (available : list TranslationEntry)
    (offset : Z) (st : AutoTunerWorker.state) :
  AutoTunerWorker.cancelled w (AutoTunerWorker.reads st) = true ->
  AutoTunerWorker.warmup w available offset st
  = (inr (Some offset), (AutoTunerWorker.read_cancelled w st).2).
Proof.
  intros Hc. unfold AutoTunerWorker.warmup, AutoTunerWorker.bind,
    AutoTunerWorker.read_cancelled. rewrite Hc. reflexivity.
Qed.

Lemma survey_stops_when_cancelled
    (w : AutoTunerWorker.env) (available : list TranslationEntry)
    (step_size : Z) (rest : list Z) (offset : Z) (r1_results : list (Z * Py.float))
    (st : AutoTunerWorker.state) :
  AutoTunerWorker.cancelled w (AutoTunerWorker.reads st) = true ->
  AutoTunerWorker.survey w available (step_size :: rest) offset r1_results st
  = (inr (offset, r1_results), (AutoTunerWorker.read_cancelled w st).2).
Proof.
  intros Hc. cbn [AutoTunerWorker.survey].
  unfold AutoTunerWorker.bind, AutoTunerWorker.read_cancelled.
  rewrite Hc. reflexivity.
Qed.

Lemma warmup_failure
    (w : AutoTunerWorker.env) (available : list TranslationEntry)
    (offset : Z) (st : AutoTunerWorker.state) (e : exn) :
  AutoTunerWorker.cancelled w (AutoTunerWorker.reads st) = false ->
  offset + AutoTunerWorker.WARMUP_SIZE <= Py.len available ->
  (forall payload,
     AutoTunerWorker.translate_batch w (AutoTunerWorker.calls st) payload
     = inl e) ->
  AutoTunerWorker.warmup w available offset st
  = (inr None,
     {| AutoTunerWorker._consumed := AutoTunerWorker._consumed st;
        AutoTunerWorker.emitted :=
          AutoTunerWorker.emitted st
          ++ [AutoTunerWorker.progress AutoTunerWorker.warming_up;
              AutoTunerWorker.finished 5];
        AutoTunerWorker.reads := S (AutoTunerWorker.reads st);
        AutoTunerWorker.calls := S (AutoTunerWorker.calls st);
        AutoTunerWorker.batches :=
          AutoTunerWorker.batches st
          ++ [(Py.slice available offset
                 (offset + AutoTunerWorker.WARMUP_SIZE),
               AutoTunerWorker.WARMUP_SIZE)] |}).
Proof.
  intros Hc Hfit Hraise. apply Z.leb_le in Hfit.
  unfold AutoTunerWorker.warmup, AutoTunerWorker.bind at 1,
    AutoTunerWorker.read_cancelled.
  rewrite Hc, Hfit. cbn [negb andb].
  unfold AutoTunerWorker.bind at 1, AutoTunerWorker.emit at 1.
  unfold AutoTunerWorker.try_except, AutoTunerWorker.bind at 1,
    AutoTunerWorker._translate_and_emit, AutoTunerWorker.bind at 1,
    AutoTunerWorker.enter_batch, AutoTunerWorker.bind at 1,
    AutoTunerWorker.call_client.
  cbn [AutoTunerWorker.calls AutoTunerWorker._consumed AutoTunerWorker.emitted
       AutoTunerWorker.reads AutoTunerWorker.batches].
  rewrite Hraise.
  cbn [AutoTunerWorker.item0 AutoTunerWorker.SURVEY_STEPS].
  unfold AutoTunerWorker.bind, AutoTunerWorker.ret, AutoTunerWorker.emit.
  cbn [AutoTunerWorker.calls AutoTunerWorker._consumed AutoTunerWorker.emitted
       AutoTunerWorker.reads AutoTunerWorker.batches].
  rewrite <- app_assoc. reflexivity.
Qed.

(** X18. With a local client and at least 107 eligible entries: if the flag
    is set from the start, the run reads it twice, translates nothing and
    reports 5; if the flag is not set and the warmup call raises, the run
    has handed out the first two eligible entries, consumed nothing, and
    reports 5 after the warmup message, without an [error] signal. *)
Theorem calibration_stopped_early
    (w : AutoTunerWorker.env) (entries : list TranslationEntry) :
  AutoTunerWorker.is_cloud w = inr false ->
  AutoTunerWorker.MIN_ENTRIES <= Py.len (AutoTunerWorker.eligible entries) ->
  (AutoTunerWorker.cancelled w 0 = true ->
   AutoTunerWorker.cancelled w 1 = true ->
   AutoTunerWorker.run w entries AutoTunerWorker.init
   = (inr tt,
      {| AutoTunerWorker._consumed := 0;
         AutoTunerWorker.emitted := [AutoTunerWorker.finished 5];
         AutoTunerWorker.reads := 2; AutoTunerWorker.calls := 0;
         AutoTunerWorker.batches := [] |}))
  /\ (forall e,
        AutoTunerWorker.cancelled w 0 = false ->
        (forall payload, AutoTunerWorker.translate_batch w 0 payload = inl e) ->
        AutoTunerWorker.run w entries AutoTunerWorker.init
        = (inr tt,
           {| AutoTunerWorker._consumed := 0;
              AutoTunerWorker.emitted :=
                [AutoTunerWorker.progress AutoTunerWorker.warming_up;
                 AutoTunerWorker.finished 5];
              AutoTunerWorker.reads := 1; AutoTunerWorker.calls := 1;
              AutoTunerWorker.batches :=
                [(Py.slice (AutoTunerWorker.eligible entries) 0 2, 2)] |})).
Proof.
  intros Hlocal Hmany.
  assert (Hgo : (Py.len (AutoTunerWorker.eligible entries)
                 <? AutoTunerWorker.MIN_ENTRIES) = false)
    by (by apply Z.ltb_ge).
  unfold AutoTunerWorker.run, AutoTunerWorker.try_except,
    AutoTunerWorker._run_impl, AutoTunerWorker.bind,
    AutoTunerWorker.getattr_is_cloud.
  rewrite Hlocal, Hgo. split.
  - intros H0 H1.
    rewrite warmup_skipped_when_cancelled by exact H0.
    unfold AutoTunerWorker.SURVEY_STEPS at 1.
    rewrite survey_stops_when_cancelled by exact H1.
    reflexivity.
  - intros e H0 Hraise.
    rewrite (warmup_failure w _ 0 AutoTunerWorker.init e H0);
      [reflexivity| |exact Hraise].
    unfold AutoTunerWorker.MIN_ENTRIES, AutoTunerWorker.WARMUP_SIZE in *. lia.
Qed.

Lemma calibration_stopped_early_witness :
  AutoTunerWorker.emitted
    (AutoTunerWorker.run
       {| AutoTunerWorker.is_cloud := inr false;
          AutoTunerWorker.cancelled := fun _ => true;
          AutoTunerWorker.translate_batch := fun _ _ => inl Sample.timeout;
          AutoTunerWorker.elapsed := fun _ => 1%float |}
       (Sample.backlog 107) AutoTunerWorker.init).2
  = [AutoTunerWorker.finished 5].
Proof.
  rewrite (proj1 (calibration_stopped_early
                    {| AutoTunerWorker.is_cloud := inr false;
                       AutoTunerWorker.cancelled := fun _ => true;
                       AutoTunerWorker.translate_batch :=
                         fun _ _ => inl Sample.timeout;
                       AutoTunerWorker.elapsed := fun _ => 1%float |}
                    (Sample.backlog 107) eq_refl
                    ltac:(vm_compute; discriminate))
             eq_refl eq_refl).
  reflexivity.
Defined.

(** ** The calibration run: what every step keeps *)

Section Surveyed.
Import AutoTunerWorker Ledger.
Context {V : Type}.

Lemma dict_set_surveyed (d : dict V) (k : Z) (v : V) :
  surveyed d -> k ∈ SURVEY_STEPS -> surveyed (dict_set d k v).
Proof.
  intros Hd Hk. induction Hd as [|[k' v'] d Hk' Hd IH]; simpl.
  - constructor; [done|constructor].
  - destruct (k' =? k); by constructor.
Qed.

Lemma dict_append_surveyed (d : dict (list V)) (k : Z) (x : V) :
  surveyed d -> surveyed (dict_append d k x).
Proof.
  intros Hd. induction Hd as [|[k' l] d Hk' Hd IH]; simpl; [constructor|].
  destruct (k' =? k); by constructor.
Qed.

Lemma ranked_surveyed gt (n : nat) (d : list (Z * V)) :
  surveyed d ->
  Forall (fun s => s ∈ SURVEY_STEPS) (map fst (take n (Py.sorted_desc gt d))).
Proof.
  intros Hd. apply Forall_map, Forall_take. by apply sorted_desc_Forall.
Qed.
End Surveyed.

Lemma r2_avg_surveyed (r2_raw : AutoTunerWorker.dict (list Py.float)) :
  Ledger.surveyed r2_raw -> Ledger.surveyed (AutoTunerWorker.r2_avg_of r2_raw).
Proof.
  unfold AutoTunerWorker.r2_avg_of. intros Hraw.
  assert (H : forall avg : AutoTunerWorker.dict Py.float,
            Ledger.surveyed avg ->
            Ledger.surveyed
              (fold_left (fun avg '(size, eps_list) =>
                            match eps_list with
                            | [] => avg
                            | _ => AutoTunerWorker.dict_set avg size
                                     (AutoTunerWorker.average eps_list)
                            end) r2_raw avg)).
  { induction Hraw as [|[k l] d Hk Hd IH]; intros avg Havg; simpl; [done|].
    apply IH. destruct l; [done|]. by apply dict_set_surveyed. }
  apply H. constructor.
Qed.

Lemma combined_surveyed (top2_sizes : list Z)
    (r2_raw r3_raw : AutoTunerWorker.dict (list Py.float)) :
  Forall (fun s => s ∈ AutoTunerWorker.SURVEY_STEPS) top2_sizes ->
  Ledger.surveyed (AutoTunerWorker.combined_of top2_sizes r2_raw r3_raw).
Proof.
  unfold AutoTunerWorker.combined_of. intros Htop2.
  assert (H : forall combined : AutoTunerWorker.dict Py.float,
            Ledger.surveyed combined ->
            Ledger.surveyed
              (fold_left (fun combined size =>
                 let all_eps :=
                   (AutoTunerWorker.dict_get_list r2_raw size
                    ++ AutoTunerWorker.dict_get_list r3_raw size)%list in
                 match all_eps with
                 | [] => combined
                 | _ => AutoTunerWorker.dict_set combined size
                          (AutoTunerWorker.average all_eps)
                 end) top2_sizes combined)).
  { induction Htop2 as [|s l Hs Hl IH]; intros combined Hc; simpl; [done|].
    apply IH.
    destruct (AutoTunerWorker.dict_get_list r2_raw s
              ++ AutoTunerWorker.dict_get_list r3_raw s)%list; [done|].
    by apply dict_set_surveyed. }
  apply H. constructor.
Qed.

(** [max] gives an element of the list. *)
Lemma max_from_elem {T} (gt : T -> T -> bool) (l : list T) :
  forall x, Py.max_from gt x l = x \/ Py.max_from gt x l ∈ l.
Proof.
  induction l as [|y l IH]; intros x; [by left|].
  change (Py.max_from gt x (y :: l))
    with (Py.max_from gt (if gt y x then y else x) l).
  destruct (IH (if gt y x then y else x)) as [->|Hin]; [|right; by right].
  destruct (gt y x); [right; left | by left].
Qed.

Lemma best_of_surveyed (d : AutoTunerWorker.dict Py.float) (k : Z) :
  Ledger.surveyed d -> AutoTunerWorker.best_of d = Some k ->
  k ∈ AutoTunerWorker.SURVEY_STEPS.
Proof.
  unfold AutoTunerWorker.best_of. intros Hd Hbest.
  destruct d as [|x d]; [discriminate|]. simpl in Hbest.
  injection Hbest as <-. unfold Ledger.surveyed in Hd.
  rewrite Forall_forall in Hd. apply Hd.
  destruct (max_from_elem AutoTunerWorker.key_gt d x) as [->|Hin];
    [left | by right].
Qed.

Section Keeps.
Import AutoTunerWorker Calibration Ledger.
Variable w : env.
Variable I : state -> Prop.
Hypothesis I_emit :
  forall s st, is_result s = false -> I st -> I (emit s st).2.
Hypothesis I_read : forall st, I st -> I (read_cancelled w st).2.
Hypothesis I_batch : forall batch n,
  triple I (_translate_and_emit w batch n) (fun _ => I) (fun _ => I).

Lemma keeps_emit (s : signal) E :
  is_result s = false -> triple I (emit s) (fun _ => I) E.
Proof. intros Hs st Hst. by apply (I_emit s st). Qed.

Lemma keeps_read E : triple I (read_cancelled w) (fun _ => I) E.
Proof. intros st Hst. by apply (I_read st). Qed.

Lemma keeps_get E : triple I get_consumed (fun _ => I) E.
Proof. by intros st Hst. Qed.

Ltac keep :=
  eapply triple_bind;
  [ first [ apply keeps_read | apply keeps_get
          | apply keeps_emit; reflexivity ]
  | intros ? ].

(** [_timed_translate] never raises. *)
Lemma timed_translate_keeps batch n :
  triple I (_timed_translate w batch n) (fun _ => I) never.
Proof.
  unfold _timed_translate. eapply triple_try.
  - eapply triple_bind; [apply I_batch|].
    intros [k success]. simpl. apply triple_ret_same.
  - intros e. simpl. keep. apply triple_ret_same.
Qed.

Lemma survey_keeps available (steps : list Z) :
  Forall (fun s => s ∈ SURVEY_STEPS) steps ->
  forall offset r1_results,
    surveyed r1_results ->
    triple I (survey w available steps offset r1_results)
           (fun res st => I st /\ surveyed res.2) never.
Proof.
  induction 1 as [|step_size steps Hstep Hsteps IH];
    intros offset r1_results Hr1; simpl.
  - by intros st Hst.
  - keep. destruct a; [by intros st Hst|].
    destruct (Py.len available <? offset + step_size); [by intros st Hst|].
    keep. keep.
    eapply triple_bind; [apply timed_translate_keeps|].
    intros [eps elapsed]. keep.
    apply IH. apply Forall_app. split; [done|].
    constructor; [done|constructor].
Qed.

Lemma repetitions_keeps available text (size : Z) (reps : list Z) :
  forall offset raw,
    surveyed raw ->
    triple I (repetitions w available text size reps offset raw)
           (fun res st => I st /\ surveyed res.2) never.
Proof.
  induction reps as [|rep reps IH]; intros offset raw Hraw; simpl.
  - by intros st Hst.
  - keep. destruct a; [by intros st Hst|].
    destruct (Py.len available <? offset + size); [by intros st Hst|].
    keep. keep.
    eapply triple_bind; [apply timed_translate_keeps|].
    intros [eps elapsed]. keep.
    apply IH. by apply dict_append_surveyed.
Qed.

Lemma round_keeps available text (sizes : list Z) :
  Forall (fun s => s ∈ SURVEY_STEPS) sizes ->
  forall offset raw,
    surveyed raw ->
    triple I (round w available text sizes offset raw)
           (fun res st => I st /\ surveyed res.2) never.
Proof.
  induction 1 as [|size sizes Hsize Hsizes IH]; intros offset raw Hraw;
    cbn [round].
  - by intros st Hst.
  - keep. destruct a; [by intros st Hst|].
    eapply triple_bind.
    + apply repetitions_keeps. by apply dict_set_surveyed.
    + intros [offset' raw'] st [Hst Hok]. by apply IH.
Qed.

Lemma item0_elem (l : list Z) :
  Forall (fun s => s ∈ SURVEY_STEPS) l ->
  triple I (item0 l) (fun s st => I st /\ s ∈ SURVEY_STEPS) (fun _ => I).
Proof.
  intros Hl st Hst. destruct Hl as [|s l Hs Hl]; [done|]. by split.
Qed.

Lemma pick_winner_elem top3_sizes top2_sizes r2_raw r3_raw r2_avg :
  Forall (fun s => s ∈ SURVEY_STEPS) top3_sizes ->
  Forall (fun s => s ∈ SURVEY_STEPS) top2_sizes ->
  surveyed r2_avg ->
  triple I (pick_winner top3_sizes top2_sizes r2_raw r3_raw r2_avg)
         (fun s st => I st /\ s ∈ SURVEY_STEPS) (fun _ => I).
Proof.
  intros Htop3 Htop2 Havg. unfold pick_winner.
  destruct (best_of (combined_of _ _ _)) as [k|] eqn:Hbest.
  { intros st Hst. split; [done|].
    eapply best_of_surveyed; [|exact Hbest]. by apply combined_surveyed. }
  destruct (best_of r2_avg) as [k|] eqn:Hbest2.
  { intros st Hst. split; [done|]. by eapply best_of_surveyed. }
  by apply item0_elem.
Qed.

Lemma reports_finished (range : list Z) (n : Z) E :
  triple (fun st => I st /\ n ∈ range) (emit (finished n))
         (fun _ => reports I range) E.
Proof. intros st [Hst Hn]. by exists st, n. Qed.

Lemma warmup_keeps available offset :
  triple I (warmup w available offset)
         (fun warm st =>
            match warm with
            | Some _ => I st
            | None => reports I SURVEY_STEPS st
            end)
         never.
Proof.
  unfold warmup. keep.
  destruct (negb a && (offset + WARMUP_SIZE <=? Py.len available));
    [|by intros st Hst].
  keep. eapply triple_try.
  - eapply triple_bind; [apply I_batch|]. intros ?. by intros st Hst.
  - intros e. cbv beta.
    eapply triple_bind with (Q := fun s st => I st /\ s ∈ SURVEY_STEPS).
    { intros st Hst. split; [done|]. left. }
    intros s. eapply triple_bind; [apply reports_finished|].
    intros ?. by intros st Hst.
Qed.

(** [_run_impl] keeps [I] up to its last signal, which is [finished] with a
    size of the range; if it raises, [I] holds and 5 is in the range. *)
Lemma run_impl_keeps (entries : list TranslationEntry) :
  triple I (_run_impl w entries)
         (fun _ => reports I (report_range w entries))
         (fun _ st => I st /\ 5 ∈ report_range w entries).
Proof.
  unfold _run_impl.
  eapply triple_bind
    with (Q := fun cloud st => I st /\ is_cloud w = inr cloud).
  { intros st Hst. unfold getattr_is_cloud, report_range.
    destruct (is_cloud w); [split; [done|left] | done]. }
  intros cloud st [Hst Hcloud]. revert st Hst.
  unfold report_range. rewrite Hcloud.
  destruct cloud.
  { intros st Hst. exists st, 30. split; [done|]. split; [left|done]. }
  destruct (Py.len (eligible entries) <? MIN_ENTRIES).
  { intros st Hst. exists st, 1. split; [done|]. split; [left|done]. }
  assert (H5 : 5 ∈ SURVEY_STEPS) by left.
  set (available := eligible entries).
  apply triple_weaken with (P := I) (Q := fun _ => reports I SURVEY_STEPS)
                           (E := fun _ => I); [|done|done|done].
  eapply triple_bind.
  { eapply triple_weaken; [apply (warmup_keeps available 0)|done|done|done]. }
  intros [offset|]; [|by intros st Hst].
  eapply triple_bind.
  { eapply triple_weaken;
      [apply (survey_keeps available SURVEY_STEPS); [|constructor]
      | done | done | done].
    apply Forall_forall. by intros s Hs. }
  intros [offset1 r1_results]. cbv beta iota.
  destruct r1_results as [|r1 r1_rest].
  { intros st [Hst _]. revert st Hst.
    eapply triple_bind with (Q := fun s st => I st /\ s ∈ SURVEY_STEPS).
    { by intros st Hst. }
    intros s. apply reports_finished. }
  set (r1_results := r1 :: r1_rest).
  intros st [Hst Hr1]. simpl in Hr1.
  assert (Htop3 : Forall (fun s => s ∈ SURVEY_STEPS)
                    (top3_sizes_of r1_results))
    by (by apply ranked_surveyed).
  revert st Hst. keep. keep.
  eapply triple_bind.
  { eapply triple_weaken;
      [apply (round_keeps available r2_semis _ Htop3 offset1 []); constructor
      | done | done | done]. }
  intros [offset2 r2_raw]. cbv beta iota.
  intros st [Hst Hr2]. simpl in Hr2.
  assert (Havg : surveyed (r2_avg_of r2_raw)) by (by apply r2_avg_surveyed).
  destruct (r2_avg_of r2_raw) as [|avg avg_rest] eqn:Hr2_avg.
  { revert st Hst. eapply triple_bind; [by apply item0_elem|].
    intros optimal st [Hst Hopt]. revert st Hst. keep.
    intros st Hst. by exists st, optimal. }
  rewrite <- Hr2_avg in *.
  assert (Htop2 : Forall (fun s => s ∈ SURVEY_STEPS)
                    (top2_sizes_of (r2_avg_of r2_raw)))
    by (by apply ranked_surveyed).
  revert st Hst. keep. keep.
  eapply triple_bind.
  { eapply triple_weaken;
      [apply (round_keeps available r3_finals _ Htop2 offset2 []); constructor
      | done | done | done]. }
  intros [offset3 r3_raw]. cbv beta iota.
  intros st [Hst _]. revert st Hst.
  eapply triple_bind; [by apply pick_winner_elem|].
  intros optimal st [Hst Hopt]. revert st Hst. keep. keep.
  intros st Hst. by exists st, optimal.
Qed.

(** [run] never raises, keeps [I] up to its last signal, and that signal is
    [finished] with a size of the range. *)
Lemma run_keeps (entries : list TranslationEntry) :
  triple I (run w entries)
         (fun _ => reports I (report_range w entries)) never.
Proof.
  unfold run. eapply triple_try; [apply run_impl_keeps|].
  intros e st [Hst H5]. revert st Hst.
  keep. intros st Hst. by exists st, 5.
Qed.
End Keeps.

(** ** The calibration run: the books balance *)

Section Books.
Import AutoTunerWorker Calibration Ledger.
Variable w : env.

Lemma emit_results_counts (key_to_entry : gmap Py.str TranslationEntry)
    (items : list (Py.str * Py.str)) :
  Z.of_nat (count_of is_entry_done (emit_results key_to_entry items).1)
  = (emit_results key_to_entry items).2
  /\ Z.of_nat (count_of is_item_processed (emit_results key_to_entry items).1)
     = (emit_results key_to_entry items).2.
Proof.
  induction items as [|[key translation] items IH]; simpl; [done|].
  destruct (emit_results key_to_entry items) as [sigs success].
  destruct (key_to_entry !! key) as [entry|]; [|done].
  destruct (Py.truthy translation); [|done].
  simpl in *. unfold count_of in *. simpl. lia.
Qed.

Lemma count_of_other {A} (p : A -> bool) (l : list A) (x : A) :
  p x = false -> count_of p (l ++ [x]) = count_of p l.
Proof.
  intros Hx. rewrite count_of_app. unfold count_of at 2. simpl.
  rewrite Hx. simpl. lia.
Qed.

Lemma balanced_emit (s : signal) (st : state) :
  is_result s = false -> balanced st -> balanced (emit s st).2.
Proof.
  unfold is_result. intros Hs (Hdone & Hitem & Hcalls).
  apply orb_false_elim in Hs as [Hs1 Hs2]. unfold balanced. simpl.
  by rewrite !count_of_other.
Qed.

Lemma balanced_batch batch n :
  triple balanced (_translate_and_emit w batch n)
         (fun _ => balanced) (fun _ => balanced).
Proof.
  intros st (Hdone & Hitem & Hcalls).
  unfold _translate_and_emit, bind, enter_batch, call_client. simpl.
  destruct (translate_batch w (calls st) _) as [e|results].
  - unfold balanced. simpl. rewrite length_app. simpl. split_and!; [done..|lia].
  - pose proof (emit_results_counts (key_to_entry_of batch)
                  (Py.dict_of results)) as [Hd Hi].
    destruct (emit_results _ (Py.dict_of results)) as [sigs success].
    rewrite emit_each_run. unfold balanced. simpl in *.
    rewrite !count_of_app, length_app. simpl. split_and!; lia.
Qed.
End Books.

(** ** The calibration run: where the results come from *)

Section Sources.
Import AutoTunerWorker Calibration Ledger.
Variable w : env.

Lemma announced_app (l1 l2 : list signal) :
  announced (l1 ++ l2) = announced l1 ++ announced l2.
Proof. apply omap_app. Qed.

Lemma announced_other (l : list signal) (s : signal) :
  is_result s = false -> announced (l ++ [s]) = announced l.
Proof.
  intros Hs. rewrite announced_app. destruct s; try discriminate; simpl;
    by rewrite app_nil_r.
Qed.

Lemma key_to_entry_elem (entries : list TranslationEntry) key e :
  key_to_entry_of entries !! key = Some e -> e ∈ entries.
Proof.
  unfold key_to_entry_of.
  assert (H : forall (l : list (Py.str * TranslationEntry))
                     (m : gmap Py.str TranslationEntry),
            fold_left (fun m kv => <[kv.1 := kv.2]> m) l m !! key = Some e ->
            m !! key = Some e \/ (key, e) ∈ l).
  { induction l as [|[k x] l IH]; intros m Hm; simpl in *; [by left|].
    apply IH in Hm as [Hm|Hm]; [|right; by right].
    destruct (decide (k = key)) as [->|Hne].
    - rewrite lookup_insert_eq in Hm. injection Hm as ->. right. left.
    - rewrite lookup_insert_ne in Hm by done. by left. }
  intros Hlook. apply H in Hlook as [Hlook|Hin]; [done|].
  apply elem_of_lookup_imap in Hin as (j & x & [= _ ->] & Hx).
  by eapply list_elem_of_lookup_2.
Qed.

Lemma emit_results_announced (key_to_entry : gmap Py.str TranslationEntry)
    (items : list (Py.str * Py.str)) entry_id translation :
  (entry_id, translation) ∈ announced (emit_results key_to_entry items).1 ->
  Py.truthy translation = true
  /\ exists key e, key_to_entry !! key = Some e /\ id e = entry_id.
Proof.
  induction items as [|[key t] items IH]; simpl.
  { intros H. by apply not_elem_of_nil in H. }
  destruct (emit_results key_to_entry items) as [sigs success].
  destruct (key_to_entry !! key) as [entry|] eqn:Hlook; [|done].
  destruct (Py.truthy t) eqn:Ht; [|done].
  simpl. intros Hin. apply elem_of_cons in Hin as [[= -> ->]|Hin]; [|auto].
  split; [done|]. by exists key, entry.
Qed.

Lemma sourced_emit (s : signal) (st : state) :
  is_result s = false -> sourced st -> sourced (emit s st).2.
Proof.
  intros Hs Hst entry_id translation. simpl. rewrite announced_other by done.
  apply Hst.
Qed.

Lemma sourced_batch batch n :
  triple sourced (_translate_and_emit w batch n)
         (fun _ => sourced) (fun _ => sourced).
Proof.
  intros st Hst.
  assert (Hold : forall entry_id translation,
            (entry_id, translation) ∈ announced (emitted st) ->
            Py.truthy translation = true
            /\ exists b e, b ∈ batches st ++ [(batch, n)]
                           /\ e ∈ b.1 /\ id e = entry_id).
  { intros entry_id translation Hin.
    destruct (Hst _ _ Hin) as (Ht & b & e & Hb & He & Hid).
    split; [done|]. exists b, e. split; [|done].
    apply elem_of_app. by left. }
  unfold _translate_and_emit, bind, enter_batch, call_client. simpl.
  destruct (translate_batch w (calls st) _) as [e|results]; [exact Hold|].
  pose proof (emit_results_announced (key_to_entry_of batch)
                (Py.dict_of results)) as Hnew.
  destruct (emit_results _ (Py.dict_of results)) as [sigs success].
  rewrite emit_each_run. simpl in *.
  intros entry_id translation. simpl. rewrite announced_app.
  intros Hin. apply elem_of_app in Hin as [Hin|Hin]; [by apply Hold|].
  destruct (Hnew _ _ Hin) as (Ht & key & e & Hlook & Hid).
  split; [done|]. exists (batch, n), e.
  split; [apply elem_of_app; right; left|].
  split; [|done]. by eapply key_to_entry_elem.
Qed.
End Sources.

(** X19. After any calibration run of a fresh worker, the number of entries
    counted as consumed is the number of [entry_done] signals and also the
    number of [item_processed] signals the worker emitted, and the client
    was called once for each batch handed to [_translate_and_emit]. *)
Theorem calibration_books_balance
    (w : AutoTunerWorker.env) (entries : list TranslationEntry) :
  let st := (AutoTunerWorker.run w entries AutoTunerWorker.init).2 in
  Z.of_nat (count_of Ledger.is_entry_done (AutoTunerWorker.emitted st))
  = AutoTunerWorker.consumed_count st
  /\ Z.of_nat (count_of Ledger.is_item_processed (AutoTunerWorker.emitted st))
     = AutoTunerWorker.consumed_count st
  /\ AutoTunerWorker.calls st = length (AutoTunerWorker.batches st).
Proof.
  cbv zeta.
  pose proof (run_keeps w Ledger.balanced balanced_emit
                (fun st H => H) (balanced_batch w) entries
                AutoTunerWorker.init) as Hrun.
  destruct (AutoTunerWorker.run w entries AutoTunerWorker.init)
    as [[e|[]] st].
  { exfalso. by apply Hrun. }
  destruct Hrun as (st0 & n & Hst0 & _ & ->); [done|].
  by apply (balanced_emit (AutoTunerWorker.finished n)).
Qed.

(** X20. Every [entry_done] signal of a calibration run carries a
    translation that is not empty and the id of one of the given entries
    that is untranslated and has a source text that is not blank. *)
Theorem calibration_results_from_eligible
    (w : AutoTunerWorker.env) (entries : list TranslationEntry) :
  let st := (AutoTunerWorker.run w entries AutoTunerWorker.init).2 in
  Forall (fun '(entry_id, translation) =>
            Py.truthy translation = true
            /\ exists e, e ∈ entries /\ id e = entry_id
                         /\ entry_status e = untranslated
                         /\ Py.truthy (Py.strip (original e)) = true)
         (Ledger.announced (AutoTunerWorker.emitted st)).
Proof.
  cbv zeta.
  pose proof (run_complete w entries AutoTunerWorker.init eq_refl) as Hbudget.
  pose proof (run_keeps w Ledger.sourced (sourced_emit)
                (fun st H => H) (sourced_batch w) entries
                AutoTunerWorker.init) as Hrun.
  destruct (AutoTunerWorker.run w entries AutoTunerWorker.init)
    as [[e|[]] st].
  { exfalso. by apply Hrun. }
  destruct Hbudget as [[offset [_ Hprefix _ _]] _].
  destruct Hrun as (st0 & n & Hst0 & _ & ->).
  { intros entry_id translation Hin. by apply not_elem_of_nil in Hin. }
  pose proof (sourced_emit (AutoTunerWorker.finished n) st0 eq_refl Hst0)
    as Hst.
  apply Forall_forall. intros [entry_id translation] Hin.
  destruct (Hst _ _ Hin) as (Ht & b & e & Hb & He & Hid).
  split; [done|]. exists e.
  assert (Hav : e ∈ AutoTunerWorker.eligible entries).
  { apply (subseteq_take (Z.to_nat offset)). rewrite <- Hprefix.
    apply list_elem_of_In, in_concat. exists b.1.
    split; [apply in_map|]; by apply list_elem_of_In. }
  apply list_elem_of_filter in Hav as [(Hs & _ & Hstrip) Hin'].
  done.
Qed.

(** The signals of a batch follow the order of the reply dict: a key
    assigned twice keeps its place and takes the later value. *)
Example results_follow_reply_order :
  Ledger.announced
    (AutoTunerWorker.emit_results
       (AutoTunerWorker.key_to_entry_of [Sample.e1; Sample.e2; Sample.e3])
       (Py.dict_of [(AutoTunerWorker.line_key 2, Py.lit "c");
                    (AutoTunerWorker.line_key 0, Py.lit "a");
                    (AutoTunerWorker.line_key 2, Py.lit "d")])).1
  = [(id Sample.e3, Py.lit "d"); (id Sample.e1, Py.lit "a")].
Proof. reflexivity. Qed.

(** X21. A calibration run of a fresh worker returns normally with
    [finished] as its last signal, and the size it reports is 30 for a cloud
    client, 1 for a local client with fewer than 107 eligible entries, 5
    when the look-up of [is_cloud] raises, and one of the six survey sizes
    otherwise. *)
Theorem calibration_reports_known_size
    (w : AutoTunerWorker.env) (entries : list TranslationEntry) :
  exists st before n,
    AutoTunerWorker.run w entries AutoTunerWorker.init = (inr tt, st)
    /\ AutoTunerWorker.emitted st = before ++ [AutoTunerWorker.finished n]
    /\ n ∈ Ledger.report_range w entries
    /\ n ∈ 1 :: AutoTunerWorker.SURVEY_STEPS.
Proof.
  pose proof (run_keeps w (fun _ => True) (fun _ _ _ _ => Logic.I)
                (fun _ _ => Logic.I) (fun _ _ => triple_any _)
                entries AutoTunerWorker.init Logic.I) as Hrun.
  destruct (AutoTunerWorker.run w entries AutoTunerWorker.init)
    as [[e|[]] st]; [done|].
  destruct Hrun as (st0 & n & _ & Hn & ->).
  exists (AutoTunerWorker.emit (AutoTunerWorker.finished n) st0).2,
         (AutoTunerWorker.emitted st0), n.
  split; [done|]. split; [done|]. split; [done|].
  revert Hn. unfold Ledger.report_range.
  destruct (AutoTunerWorker.is_cloud w) as [?|[]].
  - intros ->%list_elem_of_singleton. right. left.
  - intros ->%list_elem_of_singleton. do 6 right. left.
  - destruct (_ <? _); [intros ->%list_elem_of_singleton; left | by right].
Qed.

(** ** The calibration run: one timed batch, and a full survey *)

(** X22. [_timed_translate] never raises and always calls the client once.
    When the client answers, the elapsed time is the clock's, the call adds
    to [_consumed] a count between 0 and the length of the batch, and the
    throughput is that count divided by the elapsed time, in binary64, when
    both are positive, and 0 otherwise; for a batch of up to 30 entries it
    is a number that is not negative.  When the client raises, the sample is
    (0, 0), one [error] signal names the batch size, and nothing is
    consumed. *)
Theorem timed_translate_sample
    (w : AutoTunerWorker.env) (batch : list TranslationEntry) (n : Z)
    (st : AutoTunerWorker.state) :
  exists eps elapsed st',
    AutoTunerWorker._timed_translate w batch n st = (inr (eps, elapsed), st')
    /\ AutoTunerWorker.calls st' = S (AutoTunerWorker.calls st)
    /\ AutoTunerWorker.batches st' = AutoTunerWorker.batches st ++ [(batch, n)]
    /\ (Py.len batch <= 30 -> Calibration.throughput eps)
    /\ (forall pairs,
          AutoTunerWorker.translate_batch w (AutoTunerWorker.calls st)
            (AutoTunerWorker.payload_of batch) = inr pairs ->
          let success :=
            AutoTunerWorker._consumed st' - AutoTunerWorker._consumed st in
          elapsed = AutoTunerWorker.elapsed w (AutoTunerWorker.calls st)
          /\ 0 <= success <= Py.len batch
          /\ eps = if Py.float_gt elapsed 0%float && (0 <? success)
                   then PrimFloat.div (Py.float_of_int success) elapsed
                   else 0%float)
    /\ (forall e,
          AutoTunerWorker.translate_batch w (AutoTunerWorker.calls st)
            (AutoTunerWorker.payload_of batch) = inl e ->
          eps = 0%float /\ elapsed = 0%float
          /\ AutoTunerWorker.emitted st'
             = AutoTunerWorker.emitted st
               ++ [AutoTunerWorker.error (AutoTunerWorker.batch_failed n e)]
          /\ AutoTunerWorker._consumed st' = AutoTunerWorker._consumed st).
Proof.
  unfold AutoTunerWorker._timed_translate, AutoTunerWorker.try_except,
    AutoTunerWorker._translate_and_emit, AutoTunerWorker.bind,
    AutoTunerWorker.enter_batch, AutoTunerWorker.call_client. simpl.
  destruct (AutoTunerWorker.translate_batch w (AutoTunerWorker.calls st) _)
    as [e|results].
  - eexists _, _, _. split; [reflexivity|]. simpl.
    split; [done|]. split; [done|]. split; [reflexivity|].
    split; [discriminate|]. by intros e' [= <-].
  - pose proof (emit_results_bound (Py.dict_of results)
                  (AutoTunerWorker.key_to_entry_of batch)
                  (dict_of_keys results)) as [Hs _].
    pose proof (key_to_entry_size batch) as Hk.
    destruct (AutoTunerWorker.emit_results _ (Py.dict_of results))
      as [sigs success].
    rewrite emit_each_run. simpl in *.
    eexists _, _, _. split; [reflexivity|]. simpl.
    split; [done|]. split; [done|].
    split; [intros Hlen; apply throughput_eps; unfold Py.len in *; lia|].
    split; [|discriminate].
    intros pairs _.
    replace (AutoTunerWorker._consumed st + success
             - AutoTunerWorker._consumed st) with success by lia.
    split; [done|]. split; [unfold Py.len; lia|done].
Qed.

(** [_timed_translate] returns, with its batch on record. *)
Lemma timed_translate_returns
    (w : AutoTunerWorker.env) (batch : list TranslationEntry) (n : Z)
    (st : AutoTunerWorker.state) :
  exists eps elapsed st',
    AutoTunerWorker._timed_translate w batch n st = (inr (eps, elapsed), st')
    /\ AutoTunerWorker.batches st' = AutoTunerWorker.batches st ++ [(batch, n)].
Proof.
  unfold AutoTunerWorker._timed_translate, AutoTunerWorker.try_except,
    AutoTunerWorker._translate_and_emit, AutoTunerWorker.bind,
    AutoTunerWorker.enter_batch, AutoTunerWorker.call_client. simpl.
  destruct (AutoTunerWorker.translate_batch w (AutoTunerWorker.calls st) _)
    as [e|results].
  - by eexists _, _, _.
  - destruct (AutoTunerWorker.emit_results _ (Py.dict_of results))
      as [sigs success].
    rewrite emit_each_run. by eexists _, _, _.
Qed.

Lemma sum_cons (x : Z) (l : list Z) : Ledger.sum (x :: l) = x + Ledger.sum l.
Proof. reflexivity. Qed.

Lemma survey_runs_through (w : AutoTunerWorker.env)
    (available : list TranslationEntry) :
  (forall k, AutoTunerWorker.cancelled w k = false) ->
  forall steps offset r1_results st,
    Forall (fun s => 0 <= s) steps ->
    offset + Ledger.sum steps <= Py.len available ->
    exists r1 st',
      AutoTunerWorker.survey w available steps offset r1_results st
      = (inr (offset + Ledger.sum steps, r1), st')
      /\ map fst r1 = map fst r1_results ++ steps
      /\ map snd (AutoTunerWorker.batches st')
         = map snd (AutoTunerWorker.batches st) ++ steps.
Proof.
  intros Hgo steps. induction steps as [|step_size steps IH];
    intros offset r1_results st Hsteps Hfit.
  - exists r1_results, st. simpl. unfold AutoTunerWorker.ret.
    rewrite Z.add_0_r, !app_nil_r. done.
  - apply Forall_cons in Hsteps as [Hstep Hsteps]. rewrite sum_cons in *.
    assert (Hsum : 0 <= Ledger.sum steps).
    { clear -Hsteps. induction Hsteps; rewrite ?sum_cons; [done|lia]. }
    cbn [AutoTunerWorker.survey].
    unfold AutoTunerWorker.bind at 1, AutoTunerWorker.read_cancelled.
    rewrite Hgo.
    destruct (Z.ltb_spec (Py.len available) (offset + step_size)); [lia|].
    unfold AutoTunerWorker.bind at 1, AutoTunerWorker.get_consumed.
    unfold AutoTunerWorker.bind at 1, AutoTunerWorker.emit at 1.
    unfold AutoTunerWorker.bind at 1.
    match goal with
    | |- context [AutoTunerWorker._timed_translate w ?b ?n ?s] =>
        destruct (timed_translate_returns w b n s)
          as (eps & elapsed & st1 & -> & Hb)
    end.
    unfold AutoTunerWorker.bind at 1, AutoTunerWorker.emit at 1.
    match goal with
    | |- context [AutoTunerWorker.survey w available steps ?o ?r ?s] =>
        destruct (IH o r s Hsteps ltac:(lia)) as (r1 & st' & -> & Hr1 & Hst')
    end.
    exists r1, st'. split; [by rewrite Z.add_assoc|].
    split.
    + rewrite Hr1, map_app. simpl. by rewrite <- app_assoc.
    + rewrite Hst'. simpl. rewrite Hb. simpl. rewrite map_app. simpl.
      by rewrite <- app_assoc.
Qed.

(** The survey never raises, and measures a prefix of its steps, in order. *)
Lemma survey_prefix (w : AutoTunerWorker.env)
    (available : list TranslationEntry) :
  forall steps offset r1_results st,
    exists offset' r1 st' (k : nat),
      AutoTunerWorker.survey w available steps offset r1_results st
      = (inr (offset', r1), st')
      /\ map fst r1 = map fst r1_results ++ take k steps.
Proof.
  induction steps as [|step_size steps IH]; intros offset r1_results st.
  - exists offset, r1_results, st, 0%nat. by rewrite app_nil_r.
  - cbn [AutoTunerWorker.survey].
    unfold AutoTunerWorker.bind at 1, AutoTunerWorker.read_cancelled.
    destruct (AutoTunerWorker.cancelled w _).
    { eexists _, _, _, 0%nat. split; [reflexivity|]. by rewrite app_nil_r. }
    destruct (Py.len available <? offset + step_size).
    { eexists _, _, _, 0%nat. split; [reflexivity|]. by rewrite app_nil_r. }
    unfold AutoTunerWorker.bind at 1, AutoTunerWorker.get_consumed.
    unfold AutoTunerWorker.bind at 1, AutoTunerWorker.emit at 1.
    unfold AutoTunerWorker.bind at 1.
    match goal with
    | |- context [AutoTunerWorker._timed_translate w ?b ?n ?s] =>
        destruct (timed_translate_returns w b n s)
          as (eps & elapsed & st1 & -> & Hb)
    end.
    unfold AutoTunerWorker.bind at 1, AutoTunerWorker.emit at 1.
    match goal with
    | |- context [AutoTunerWorker.survey w available steps ?o ?r ?s] =>
        destruct (IH o r s) as (offset' & r1 & st' & k & -> & Hr1)
    end.
    exists offset', r1, st', (S k). split; [done|].
    rewrite Hr1, map_app. simpl. by rewrite <- app_assoc.
Qed.

(** X23. The survey loop of [_run_impl] never raises and measures the survey
    sizes in their order, up to the first one it stops at.  When the flag is
    never set and 105 entries are left at its start, it measures all six
    sizes, hands out one batch of each size, takes 105 entries, and leaves
    three sizes for the semifinals. *)
Theorem survey_measures_every_size
    (w : AutoTunerWorker.env) (available : list TranslationEntry)
    (offset : Z) (st : AutoTunerWorker.state) :
  exists offset' r1 st',
    AutoTunerWorker.survey w available AutoTunerWorker.SURVEY_STEPS offset [] st
    = (inr (offset', r1), st')
    /\ (exists k, map fst r1 = take k AutoTunerWorker.SURVEY_STEPS)
    /\ ((forall k, AutoTunerWorker.cancelled w k = false) ->
        offset + 105 <= Py.len available ->
        offset' = offset + 105
        /\ map fst r1 = AutoTunerWorker.SURVEY_STEPS
        /\ map snd (AutoTunerWorker.batches st')
           = map snd (AutoTunerWorker.batches st)
             ++ AutoTunerWorker.SURVEY_STEPS
        /\ length (AutoTunerWorker.top3_sizes_of r1) = 3%nat).
Proof.
  destruct (survey_prefix w available AutoTunerWorker.SURVEY_STEPS offset [] st)
    as (offset' & r1 & st' & k & Hrun & Hr1).
  exists offset', r1, st'. split; [done|]. split; [by exists k|].
  intros Hgo Hfit.
  destruct (survey_runs_through w available Hgo AutoTunerWorker.SURVEY_STEPS
              offset [] st) as (r1' & st'' & Hrun' & Hall & Hbatches).
  { apply survey_steps_sizes. }
  { exact Hfit. }
  rewrite Hrun in Hrun'. injection Hrun' as -> <- <-.
  split; [reflexivity|]. split; [done|]. split; [done|].
  unfold AutoTunerWorker.top3_sizes_of.
  rewrite length_map, length_take, sorted_desc_length.
  apply (f_equal length) in Hall. rewrite length_map in Hall.
  rewrite Hall. reflexivity.
Qed.

Lemma survey_measures_every_size_witness :
  exists offset' r1 st',
    AutoTunerWorker.survey Sample.steady
      (AutoTunerWorker.eligible (Sample.backlog 107))
      AutoTunerWorker.SURVEY_STEPS 2 [] AutoTunerWorker.init
    = (inr (offset', r1), st')
    /\ offset' = 2 + 105
    /\ map fst r1 = AutoTunerWorker.SURVEY_STEPS.
Proof.
  destruct (survey_measures_every_size Sample.steady
              (AutoTunerWorker.eligible (Sample.backlog 107)) 2
              AutoTunerWorker.init)
    as (offset' & r1 & st' & Hrun & _ & Hall).
  assert (Hfit : 2 + 105
                 <= Py.len (AutoTunerWorker.eligible (Sample.backlog 107)))
    by (vm_compute; discriminate).
  destruct (Hall (fun _ => eq_refl) Hfit) as (Hoff & Hr1 & _).
  exists offset', r1, st'. split; [exact Hrun|]. split; [exact Hoff|exact Hr1].
Defined.
